(** * AccelDesigner: jerk-limited trajectory generation

    A shallow embedding of [AccelCurve.h] and [AccelDesigner.h].

    Numbers.  The C++ code computes in [float].  The first embedding
    computes in the real numbers [R]: every arithmetic operation is the
    exact one, and the two operations whose IEEE result can leave the reals
    (a division whose divisor is zero, a square root of a negative number)
    are guarded and abort the computation with a [fault].  Rounding is
    outside this embedding.  A second embedding, [Float32], of [reset] and
    of the functions it calls computes in IEEE binary32, rounding,
    infinities and NaN included; it serves where a property depends on
    the rounding.

    Diagnostics.  Writes to [std::cerr] are recorded as a list of [diag]
    events, in the order in which they are written.

    Objects.  [reset] is a function from the object it is called on and its
    arguments to the new object; the evaluators are functions of the object
    and the instant, and, statement by statement, calls that take the
    object and the diagnostic stream and hand them back. *)

From Stdlib Require Import Reals Lra Psatz List.
From Stdlib Require SpecFloat.
Import ListNotations.
Open Scope R_scope.

(** ** Guarded arithmetic *)

Inductive fault : Type :=
| DivByZero
| SqrtOfNegative.

Inductive res (A : Type) : Type :=
| Ok (a : A)
| Fail (f : fault).
Arguments Ok {A} a.
Arguments Fail {A} f.

Definition rbind {A B : Type} (m : res A) (k : A -> res B) : res B :=
  match m with
  | Ok a => k a
  | Fail f => Fail f
  end.

Notation "'do' x <- e ; k" := (rbind e (fun x => k))
  (at level 10, x name, e at level 100, k at level 200, only parsing).

(** ** Diagnostics *)

(** The messages written to [std::cerr]. *)
Inductive diag : Type :=
| NegativeDistance                          (* "Warning: distance < 0" *)
| InfeasiblePeakVelocity                    (* "Error: ...calcVelocityMax()" *)
| DistanceConstraint (distance result : R)  (* "Error: distance constraint: " *)
| TimePoint.                                (* "Error: Time Point" *)

(** A computation that may leave the reals and that writes diagnostics. *)
Definition M (A : Type) : Type := res (A * list diag).

Definition mret {A : Type} (a : A) : M A := Ok (a, []).

Definition mbind {A B : Type} (m : M A) (k : A -> M B) : M B :=
  match m with
  | Ok (a, l) =>
      match k a with
      | Ok (b, l') => Ok (b, l ++ l')
      | Fail f => Fail f
      end
  | Fail f => Fail f
  end.

Definition lift {A : Type} (r : res A) : M A :=
  match r with
  | Ok a => Ok (a, [])
  | Fail f => Fail f
  end.

Definition cerr (d : diag) : M unit := Ok (tt, [d]).

Notation "'run' x <- e ; k" := (mbind e (fun x => k))
  (at level 10, x name, e at level 100, k at level 200, only parsing).

(** [x / y] on floats; not a real number when [y] is zero. *)
Definition fdiv (x y : R) : res R :=
  if Req_dec_T y 0 then Fail DivByZero else Ok (x / y).

(** [std::sqrt]; not a real number when the argument is negative. *)
Definition fsqrt (x : R) : res R :=
  if Rlt_dec x 0 then Fail SqrtOfNegative else Ok (sqrt x).

(** [std::cbrt]: the real cube root, odd in its argument. *)
Definition cbrt (x : R) : R :=
  if Rlt_dec 0 x then Rpower x (/ 3)
  else if Rlt_dec x 0 then - Rpower (- x) (/ 3)
  else 0.

(** The argument of the complex number [x + i y] ([std::arg]). *)
Definition carg (x y : R) : R :=
  if Rlt_dec 0 x then atan (y / x)
  else if Rlt_dec x 0 then
         (if Rle_dec 0 y then atan (y / x) + PI else atan (y / x) - PI)
  else if Rlt_dec 0 y then PI / 2
  else if Rlt_dec y 0 then - (PI / 2)
  else 0.

(** Real part of [std::pow(std::complex<float>(re, im), y)], the principal
    value [exp (y * log z)] in polar form. *)
Definition cpow_re (re im y : R) : R :=
  let rho := sqrt (re * re + im * im) in
  if Req_dec_T rho 0 then 0
  else Rpower rho y * cos (y * carg re im).

(** The sign of a real number: [1], [-1] or [0]. *)
Definition sign (r : R) : R :=
  if Rlt_dec 0 r then 1 else if Rlt_dec r 0 then -1 else 0.

(** [std::max(a, b)] returns [b] when [a < b] and [a] otherwise. *)
Definition fmax (a b : R) : R := if Rlt_dec a b then b else a.

(** [std::min(a, b)] returns [b] when [b < a] and [a] otherwise. *)
Definition fmin (a b : R) : R := if Rlt_dec b a then b else a.

(** [std::max({a, b, c})]: the first largest element of the list. *)
Definition fmax3 (a b c : R) : R := fmax (fmax a b) c.

(** The signed magnitude [(v_end - v_start > 0) ? m : -m] that [reset]
    takes for the acceleration and for the jerk. *)
Definition signed (m v_start v_end : R) : R :=
  if Rlt_dec 0 (v_end - v_start) then m else - m.

(** ** AccelCurve *)

Module AccelCurve.

Record obj : Type := mk {
  jm : R; am : R;
  t0 : R; t1 : R; t2 : R; t3 : R;
  v0 : R; v1 : R; v2 : R; v3 : R;
  x0 : R; x1 : R; x2 : R; x3 : R;
  tc : R; tm : R
}.

(** The object built by the empty constructor [AccelCurve()]. *)
Definition empty : obj := mk 0 0 0 0 0 0 0 0 0 0 0 0 0 0 0 0.

Definition set_v1 (c : obj) (r : R) : obj :=
  mk (jm c) (am c) (t0 c) (t1 c) (t2 c) (t3 c) (v0 c) r (v2 c) (v3 c)
     (x0 c) (x1 c) (x2 c) (x3 c) (tc c) (tm c).
Definition set_v2 (c : obj) (r : R) : obj :=
  mk (jm c) (am c) (t0 c) (t1 c) (t2 c) (t3 c) (v0 c) (v1 c) r (v3 c)
     (x0 c) (x1 c) (x2 c) (x3 c) (tc c) (tm c).
Definition set_x1 (c : obj) (r : R) : obj :=
  mk (jm c) (am c) (t0 c) (t1 c) (t2 c) (t3 c) (v0 c) (v1 c) (v2 c) (v3 c)
     (x0 c) r (x2 c) (x3 c) (tc c) (tm c).
Definition set_x2 (c : obj) (r : R) : obj :=
  mk (jm c) (am c) (t0 c) (t1 c) (t2 c) (t3 c) (v0 c) (v1 c) (v2 c) (v3 c)
     (x0 c) (x1 c) r (x3 c) (tc c) (tm c).
Definition set_x3 (c : obj) (r : R) : obj :=
  mk (jm c) (am c) (t0 c) (t1 c) (t2 c) (t3 c) (v0 c) (v1 c) (v2 c) (v3 c)
     (x0 c) (x1 c) (x2 c) r (tc c) (tm c).

Section Jerk.

(** The maximum jerk [AccelCurve::j_max], a positive constant of the
    class.  The header fixes its value, and the test program gives it to
    [reset] as a first argument: here it is a parameter of both classes. *)
Variable j_max : R.

(** [calcTimeCurve(am)] *)
Definition calcTimeCurve (am : R) : R := Rabs am / j_max.

(** [j(t)].  The source returns the constant [j_max] and its opposite, not
    the signed member [jm]. *)
Definition j (c : obj) (t : R) : R :=
  if Rle_dec t (t0 c) then 0
  else if Rle_dec t (t1 c) then j_max
  else if Rle_dec t (t2 c) then 0
  else if Rle_dec t (t3 c) then - j_max
  else 0.

(** [a(t)] *)
Definition a (c : obj) (t : R) : R :=
  if Rle_dec t (t0 c) then 0
  else if Rle_dec t (t1 c) then jm c * (t - t0 c)
  else if Rle_dec t (t2 c) then am c
  else if Rle_dec t (t3 c) then - jm c * (t - t3 c)
  else 0.

(** [v(t)] *)
Definition v (c : obj) (t : R) : R :=
  if Rle_dec t (t0 c) then v0 c
  else if Rle_dec t (t1 c) then v0 c + 0.5 * jm c * (t - t0 c) * (t - t0 c)
  else if Rle_dec t (t2 c) then v1 c + am c * (t - t1 c)
  else if Rle_dec t (t3 c) then v3 c - 0.5 * jm c * (t - t3 c) * (t - t3 c)
  else v3 c.

(** [x(t)].  Before [t0] and after [t3] the position goes on at the
    boundary velocity; the cubic term of the last phase has the sign of the
    source. *)
Definition x (c : obj) (t : R) : R :=
  if Rle_dec t (t0 c) then x0 c + v0 c * (t - t0 c)
  else if Rle_dec t (t1 c) then
    x0 c + v0 c * (t - t0 c)
    + jm c / 6 * (t - t0 c) * (t - t0 c) * (t - t0 c)
  else if Rle_dec t (t2 c) then
    x1 c + v1 c * (t - t1 c) + am c / 2 * (t - t1 c) * (t - t1 c)
  else if Rle_dec t (t3 c) then
    x3 c + v3 c * (t - t3 c)
    + jm c / 6 * (t - t3 c) * (t - t3 c) * (t - t3 c)
  else x3 c + v3 c * (t - t3 c).

Definition t_end (c : obj) : R := t3 c.
Definition v_end (c : obj) : R := v3 c.
Definition x_end (c : obj) : R := x3 c.

(** The three boundary instants [t1], [t2], [t3] chosen by [reset], from
    [t0], [tc], [tm], [am] and the velocity difference. *)
Definition reset_times (t0 tc tm am dv : R) : res (R * R * R) :=
  if Rlt_dec 0 tm then
    let t1 := t0 + tc in
    let t2 := t1 + tm in
    let t3 := t2 + tc in
    Ok (t1, t2, t3)
  else
    do q <- fdiv tc am;
    do s <- fsqrt (q * dv);
    let t1 := t0 + s in
    let t2 := t1 in
    let t3 := t2 + (t1 - t0) in
    Ok (t1, t2, t3).

(** [reset(a_max, v_start, v_end)] on the object [self].  The members are
    assigned in the order of the source; [v1], [v2], [x1], [x2] are read
    back through the evaluators of the object under construction, so the
    members not yet assigned keep the values of [self]. *)
Definition reset (self : obj) (a_max v_start v_end : R) : res obj :=
  let tc := calcTimeCurve a_max in
  let am := if Rlt_dec 0 (v_end - v_start) then a_max else - a_max in
  let jm := if Rlt_dec 0 (v_end - v_start) then j_max else - j_max in
  let v0 := v_start in
  let v3 := v_end in
  let t0 := 0 in
  let x0 := 0 in
  do q <- fdiv (v3 - v0) am;
  let tm := q - tc in
  do ts <- reset_times t0 tc tm am (v3 - v0);
  let '(t1, t2, t3) := ts in
  let c := mk jm am t0 t1 t2 t3 v0 (v1 self) (v2 self) v3
              x0 (x1 self) (x2 self) (x3 self) tc tm in
  let c := set_v1 c (v c t1) in
  let c := set_v2 c (v c t2) in
  let c := set_x1 c (x c t1) in
  let c := set_x2 c (x c t2) in
  let c := set_x3 c (x0 + (v0 + v3) / 2 * (t3 - t0)) in
  Ok c.

(** The constructor [AccelCurve(a_max, v_start, v_end)]: [reset] on a fresh
    object.  By [reset_prior] below the fresh members do not matter. *)
Definition make (a_max v_start v_end : R) : res obj :=
  reset empty a_max v_start v_end.

(** [calcVelocityEnd(a_max, vs, vt, d)] *)
Definition calcVelocityEnd (a_max vs vt d : R) : res R :=
  let tc := calcTimeCurve a_max in
  let am := if Rlt_dec 0 (vt - vs) then a_max else - a_max in
  do q <- fdiv am tc;
  if Rlt_dec ((2 * vs + q * tc * tc) * tc) d then
    let amtc := am * tc in
    let D := amtc * amtc - 4 * (amtc * vs - vs * vs - 2 * am * d) in
    do s <- fsqrt D;
    Ok ((- amtc + s) / 2)
  else
    let a := vs in
    do b <- fdiv (am * d * d) tc;
    let aaa := a * a * a in
    let c0 := 27 * (32 * aaa * b + 27 * b * b) in
    let c1 := 16 * aaa + 27 * b in
    if Rle_dec 0 c0 then
      do s <- fsqrt c0;
      let c2 := cbrt ((s + c1) / 2) in
      do r <- fdiv (4 * a * a) c2;
      Ok ((c2 + r - a) / 3)
    else
      do s <- fsqrt (- c0);
      let c2re := cpow_re (c1 / 2) (s / 2) (1 / 3) in
      Ok ((c2re * 2 - a) / 3).

(** [calcVelocityMax(am, vs, ve, d)] *)
Definition calcVelocityMax (am vs ve d : R) : M R :=
  let tc := calcTimeCurve am in
  let amtc := am * tc in
  let D := amtc * amtc - 2 * (vs + ve) * amtc + 4 * am * d
           + 2 * (vs * vs + ve * ve) in
  if Rlt_dec D 0 then
    run _ <- cerr InfeasiblePeakVelocity;
    mret vs
  else
    run s <- lift (fsqrt D);
    mret ((- amtc + s) / 2).

(** [calcMinDistance(a_max, v_start, v_end)] *)
Definition calcMinDistance (a_max v_start v_end : R) : res R :=
  do ac <- make a_max v_start v_end;
  Ok (x_end ac).

End Jerk.

(** The value of [AccelCurve::j_max] in the header. *)
Definition j_max : R := 500000.

End AccelCurve.

(** ** AccelDesigner *)

Module AccelDesigner.

Record obj : Type := mk {
  t0 : R; t1 : R; t2 : R; t3 : R;
  x0 : R; x3 : R;
  ac : AccelCurve.obj;
  dc : AccelCurve.obj
}.

(** The object built by the empty constructor [AccelDesigner()]. *)
Definition empty : obj :=
  mk 0 0 0 0 0 0 AccelCurve.empty AccelCurve.empty.

(** What the first half of [reset] hands to the second: the peak and end
    velocities, the two curves and the distance planned for. *)
Record planning : Type := mkplan {
  p_v_max : R;
  p_v_end : R;
  p_ac : AccelCurve.obj;
  p_dc : AccelCurve.obj;
  p_distance : R
}.

(** The distance [reset] plans for: the requested one, or zero when the
    request is not positive. *)
Definition planned (distance : R) : R :=
  if Rle_dec distance 0 then 0 else distance.

Section Jerk.

Variable j_max : R.

(** The first half of [reset], up to the check of the distance
    constraint: the choice of [v_max], [v_end] and of the two curves. *)
Definition plan (self : obj) (a_max v_start v_sat v_target distance : R)
  : M planning :=
  let v_max := fmax3 v_start v_sat v_target in
  let v_end := v_target in
  run st <- (if Rle_dec distance 0 then
               run _ <- cerr NegativeDistance;
               mret (v_start, v_start, 0)
             else mret (v_max, v_end, distance));
  let '(v_max, v_end, distance) := st in
  run dmin <- lift (AccelCurve.calcMinDistance j_max a_max v_start v_end);
  run st <- (if Rlt_dec distance dmin then
               run ve <- lift (AccelCurve.calcVelocityEnd
                                 j_max a_max v_start v_target distance);
               mret (fmax v_start ve, ve)
             else mret (v_max, v_end));
  let '(v_max, v_end) := st in
  run ac <- lift (AccelCurve.reset j_max (ac self) a_max v_start v_max);
  run dc <- lift (AccelCurve.reset j_max (dc self) a_max v_max v_end);
  run st <- (if Rlt_dec distance
                  (AccelCurve.x_end ac + AccelCurve.x_end dc) then
               run vm <- AccelCurve.calcVelocityMax
                           j_max a_max v_start v_end distance;
               let vm := fmin vm v_sat in
               let vm := fmax3 vm v_start v_end in
               run ac <- lift (AccelCurve.reset j_max ac a_max v_start vm);
               run dc <- lift (AccelCurve.reset j_max dc a_max vm v_end);
               mret (vm, ac, dc)
             else mret (v_max, ac, dc));
  let '(v_max, ac, dc) := st in
  run _ <- (if Rlt_dec (distance + 0.1)
                 (AccelCurve.x_end ac + AccelCurve.x_end dc) then
              cerr (DistanceConstraint distance
                      (AccelCurve.x_end ac + AccelCurve.x_end dc))
            else mret tt);
  mret (mkplan v_max v_end ac dc distance).

(** The test [t0 <= t1 + e && t1 <= t2 + e && t2 <= t3 + e]. *)
Definition time_points_ok (t0 t1 t2 t3 e : R) : bool :=
  if Rle_dec t0 (t1 + e) then
    if Rle_dec t1 (t2 + e) then
      if Rle_dec t2 (t3 + e) then true else false
    else false
  else false.

(** The second half of [reset]: the boundary positions and instants. *)
Definition layout (p : planning) (x_start t_start : R) : M obj :=
  let v_max := p_v_max p in
  let ac := p_ac p in
  let dc := p_dc p in
  let distance := p_distance p in
  let x0 := x_start in
  let x3 := x_start + distance in
  let t0 := t_start in
  let t1 := t0 + AccelCurve.t_end ac in
  run q <- lift (fdiv (distance - AccelCurve.x_end ac - AccelCurve.x_end dc)
                      v_max);
  let t2 := t0 + AccelCurve.t_end ac + q in
  let t3 := t0 + AccelCurve.t_end ac + q + AccelCurve.t_end dc in
  let e := 0.001 in
  run _ <- (if time_points_ok t0 t1 t2 t3 e then mret tt
            else cerr TimePoint);
  mret (mk t0 t1 t2 t3 x0 x3 ac dc).

(** [reset(a_max, v_start, v_sat, v_target, distance, x_start, t_start)]
    on the object [self]. *)
Definition reset (self : obj)
    (a_max v_start v_sat v_target distance x_start t_start : R) : M obj :=
  run p <- plan self a_max v_start v_sat v_target distance;
  layout p x_start t_start.

(** [j(t)] *)
Definition j (d : obj) (t : R) : R :=
  if Rlt_dec t (t2 d) then AccelCurve.j j_max (ac d) (t - t0 d)
  else AccelCurve.j j_max (dc d) (t - t2 d).

(** [a(t)] *)
Definition a (d : obj) (t : R) : R :=
  if Rlt_dec t (t2 d) then AccelCurve.a (ac d) (t - t0 d)
  else AccelCurve.a (dc d) (t - t2 d).

(** [v(t)] *)
Definition v (d : obj) (t : R) : R :=
  if Rlt_dec t (t2 d) then AccelCurve.v (ac d) (t - t0 d)
  else AccelCurve.v (dc d) (t - t2 d).

(** [x(t)] *)
Definition x (d : obj) (t : R) : R :=
  if Rlt_dec t (t2 d) then x0 d + AccelCurve.x (ac d) (t - t0 d)
  else x3 d - AccelCurve.x_end (dc d) + AccelCurve.x (dc d) (t - t2 d).

Definition t_end (d : obj) : R := t3 d.
Definition v_end (d : obj) : R := AccelCurve.v_end (dc d).
Definition x_end (d : obj) : R := x3 d.

End Jerk.

End AccelDesigner.

(** ** The same code in binary32 *)

(** The members and arguments of both classes are [float]s.  This second
    embedding computes as the code does on a platform whose [float] is IEEE
    binary32 and whose operations round to nearest, ties to even, one
    operation at a time: a [float] is a [spec_float] of the Standard
    Library at precision 24 and maximal exponent 128, every [+], [-], [*],
    [/] and [std::sqrt] is the correctly rounded one, and infinities and
    NaN are values like the others, so no operation aborts.  The binary32
    numbers are the [spec_float]s that satisfy [valid_binary]; what is
    shown below of every [spec_float] holds of them. *)

Module Float32.

Import SpecFloat.

Definition float : Type := spec_float.

Definition prec : Z := 24.
Definition emax : Z := 128.

(** The conversion of an integer literal. *)
Definition of_int (z : Z) : float := binary_normalize prec emax z 0 false.

Definition add : float -> float -> float := SFadd prec emax.
Definition sub : float -> float -> float := SFsub prec emax.
Definition mul : float -> float -> float := SFmul prec emax.
Definition div : float -> float -> float := SFdiv prec emax.
Definition sqrt : float -> float := SFsqrt prec emax.
Definition opp : float -> float := SFopp.
Definition abs : float -> float := SFabs.
Definition ltb : float -> float -> bool := SFltb.
Definition leb : float -> float -> bool := SFleb.

Declare Scope f32_scope.
Delimit Scope f32_scope with f32.
Bind Scope f32_scope with float.
Infix "+" := add : f32_scope.
Infix "-" := sub : f32_scope.
Infix "*" := mul : f32_scope.
Infix "/" := div : f32_scope.
Notation "- x" := (opp x) : f32_scope.
Infix "<?" := ltb (at level 70, no associativity) : f32_scope.
Infix "<=?" := leb (at level 70, no associativity) : f32_scope.
Notation "# z" := (of_int z%Z) (at level 1, format "# z") : f32_scope.

Local Open Scope f32_scope.

(** The literals [0.50f], [0.1f] and [0.001f]: the binary32 numbers nearest
    to the decimal ones. *)
Definition lit_0_50 : float := #1 / #2.
Definition lit_0_1 : float := #1 / #10.
Definition lit_0_001 : float := #1 / #1000.

(** [std::max(a, b)], [std::min(a, b)] and [std::max({a, b, c})]. *)
Definition fmax (a b : float) : float := if a <? b then b else a.
Definition fmin (a b : float) : float := if b <? a then b else a.
Definition fmax3 (a b c : float) : float := fmax (fmax a b) c.

(** The messages written to [std::cerr]. *)
Inductive diag : Type :=
| NegativeDistance
| InfeasiblePeakVelocity
| DistanceConstraint (distance result : float)
| TimePoint.

Module AccelCurve.

Record obj : Type := mk {
  jm : float; am : float;
  t0 : float; t1 : float; t2 : float; t3 : float;
  v0 : float; v1 : float; v2 : float; v3 : float;
  x0 : float; x1 : float; x2 : float; x3 : float;
  tc : float; tm : float
}.

(** The object built by the empty constructor [AccelCurve()]. *)
Definition empty : obj :=
  mk #0 #0 #0 #0 #0 #0 #0 #0 #0 #0 #0 #0 #0 #0 #0 #0.

Definition set_v1 (c : obj) (r : float) : obj :=
  mk (jm c) (am c) (t0 c) (t1 c) (t2 c) (t3 c) (v0 c) r (v2 c) (v3 c)
     (x0 c) (x1 c) (x2 c) (x3 c) (tc c) (tm c).
Definition set_v2 (c : obj) (r : float) : obj :=
  mk (jm c) (am c) (t0 c) (t1 c) (t2 c) (t3 c) (v0 c) (v1 c) r (v3 c)
     (x0 c) (x1 c) (x2 c) (x3 c) (tc c) (tm c).
Definition set_x1 (c : obj) (r : float) : obj :=
  mk (jm c) (am c) (t0 c) (t1 c) (t2 c) (t3 c) (v0 c) (v1 c) (v2 c) (v3 c)
     (x0 c) r (x2 c) (x3 c) (tc c) (tm c).
Definition set_x2 (c : obj) (r : float) : obj :=
  mk (jm c) (am c) (t0 c) (t1 c) (t2 c) (t3 c) (v0 c) (v1 c) (v2 c) (v3 c)
     (x0 c) (x1 c) r (x3 c) (tc c) (tm c).
Definition set_x3 (c : obj) (r : float) : obj :=
  mk (jm c) (am c) (t0 c) (t1 c) (t2 c) (t3 c) (v0 c) (v1 c) (v2 c) (v3 c)
     (x0 c) (x1 c) (x2 c) r (tc c) (tm c).

(** [static constexpr const float j_max = 500000] *)
Definition j_max : float := #500000.

(** [calcTimeCurve(am)] *)
Definition calcTimeCurve (am : float) : float := abs am / j_max.

(** [j(t)] *)
Definition j (c : obj) (t : float) : float :=
  if t <=? t0 c then #0
  else if t <=? t1 c then j_max
  else if t <=? t2 c then #0
  else if t <=? t3 c then - j_max
  else #0.

(** [a(t)] *)
Definition a (c : obj) (t : float) : float :=
  if t <=? t0 c then #0
  else if t <=? t1 c then jm c * (t - t0 c)
  else if t <=? t2 c then am c
  else if t <=? t3 c then - jm c * (t - t3 c)
  else #0.

(** [v(t)] *)
Definition v (c : obj) (t : float) : float :=
  if t <=? t0 c then v0 c
  else if t <=? t1 c then
    v0 c + lit_0_50 * jm c * (t - t0 c) * (t - t0 c)
  else if t <=? t2 c then v1 c + am c * (t - t1 c)
  else if t <=? t3 c then
    v3 c - lit_0_50 * jm c * (t - t3 c) * (t - t3 c)
  else v3 c.

(** [x(t)] *)
Definition x (c : obj) (t : float) : float :=
  if t <=? t0 c then x0 c + v0 c * (t - t0 c)
  else if t <=? t1 c then
    x0 c + v0 c * (t - t0 c)
    + jm c / #6 * (t - t0 c) * (t - t0 c) * (t - t0 c)
  else if t <=? t2 c then
    x1 c + v1 c * (t - t1 c) + am c / #2 * (t - t1 c) * (t - t1 c)
  else if t <=? t3 c then
    x3 c + v3 c * (t - t3 c)
    + jm c / #6 * (t - t3 c) * (t - t3 c) * (t - t3 c)
  else x3 c + v3 c * (t - t3 c).

Definition t_end (c : obj) : float := t3 c.
Definition v_end (c : obj) : float := v3 c.
Definition x_end (c : obj) : float := x3 c.

(** [reset(a_max, v_start, v_end)] on the object [self], the members
    assigned in the order of the source. *)
Definition reset (self : obj) (a_max v_start v_end : float) : obj :=
  let tc := calcTimeCurve a_max in
  let am := if #0 <? v_end - v_start then a_max else - a_max in
  let jm := if #0 <? v_end - v_start then j_max else - j_max in
  let v0 := v_start in
  let v3 := v_end in
  let t0 := #0 in
  let x0 := #0 in
  let tm := (v3 - v0) / am - tc in
  let '(t1, t2, t3) :=
    if #0 <? tm then
      let t1 := t0 + tc in
      let t2 := t1 + tm in
      let t3 := t2 + tc in
      (t1, t2, t3)
    else
      let t1 := t0 + sqrt (tc / am * (v3 - v0)) in
      let t2 := t1 in
      let t3 := t2 + (t1 - t0) in
      (t1, t2, t3) in
  let c := mk jm am t0 t1 t2 t3 v0 (v1 self) (v2 self) v3
              x0 (x1 self) (x2 self) (x3 self) tc tm in
  let c := set_v1 c (v c t1) in
  let c := set_v2 c (v c t2) in
  let c := set_x1 c (x c t1) in
  let c := set_x2 c (x c t2) in
  set_x3 c (x0 + (v0 + v3) / #2 * (t3 - t0)).

(** What the C++ standard leaves to the platform: the value of
    [std::cbrt], the value of [std::pow] on a [std::complex<float>] (its
    real and imaginary parts), and the members of a local [AccelCurve]
    when the body of its constructor starts. *)
Record platform : Type := mkplatform {
  cbrt : float -> float;
  cpow : float -> float -> float -> float * float;
  indeterminate : obj
}.

Section Platform.

Variable P : platform.

(** The constructor [AccelCurve(a_max, v_start, v_end)]. *)
Definition make (a_max v_start v_end : float) : obj :=
  reset (indeterminate P) a_max v_start v_end.

(** [calcVelocityEnd(a_max, vs, vt, d)] *)
Definition calcVelocityEnd (a_max vs vt d : float) : float :=
  let tc := calcTimeCurve a_max in
  let am := if #0 <? vt - vs then a_max else - a_max in
  if (#2 * vs + am / tc * tc * tc) * tc <? d then
    let amtc := am * tc in
    let D := amtc * amtc - #4 * (amtc * vs - vs * vs - #2 * am * d) in
    (- amtc + sqrt D) / #2
  else
    let a := vs in
    let b := am * d * d / tc in
    let aaa := a * a * a in
    let c0 := #27 * (#32 * aaa * b + #27 * b * b) in
    let c1 := #16 * aaa + #27 * b in
    if #0 <=? c0 then
      let c2 := cbrt P ((sqrt c0 + c1) / #2) in
      (c2 + #4 * a * a / c2 - a) / #3
    else
      let c2 := cpow P (c1 / #2) (sqrt (- c0) / #2) (#1 / #3) in
      (fst c2 * #2 - a) / #3.

(** [calcVelocityMax(am, vs, ve, d)], with what it writes to
    [std::cerr]. *)
Definition calcVelocityMax (am vs ve d : float) : float * list diag :=
  let tc := calcTimeCurve am in
  let amtc := am * tc in
  let D := amtc * amtc - #2 * (vs + ve) * amtc + #4 * am * d
           + #2 * (vs * vs + ve * ve) in
  if D <? #0 then (vs, [InfeasiblePeakVelocity])
  else ((- amtc + sqrt D) / #2, []).

(** [calcMinDistance(a_max, v_start, v_end)] *)
Definition calcMinDistance (a_max v_start v_end : float) : float :=
  x_end (make a_max v_start v_end).

End Platform.

End AccelCurve.

Module AccelDesigner.

Record obj : Type := mk {
  t0 : float; t1 : float; t2 : float; t3 : float;
  x0 : float; x3 : float;
  ac : AccelCurve.obj;
  dc : AccelCurve.obj
}.

(** The object built by the empty constructor [AccelDesigner()]. *)
Definition empty : obj :=
  mk #0 #0 #0 #0 #0 #0 AccelCurve.empty AccelCurve.empty.

Record planning : Type := mkplan {
  p_v_max : float;
  p_v_end : float;
  p_ac : AccelCurve.obj;
  p_dc : AccelCurve.obj;
  p_distance : float
}.

(** The distance [reset] plans for: the requested one unless
    [distance <= 0] holds. *)
Definition planned (distance : float) : float :=
  if distance <=? #0 then #0 else distance.

Section Platform.

Variable P : AccelCurve.platform.

(** The first half of [reset], up to the check of the distance
    constraint, with what it writes to [std::cerr]. *)
Definition plan (self : obj) (a_max v_start v_sat v_target distance : float)
  : planning * list diag :=
  let v_max := fmax3 v_start v_sat v_target in
  let v_end := v_target in
  let '(v_max, v_end, distance, log1) :=
    if distance <=? #0 then (v_start, v_start, #0, [NegativeDistance])
    else (v_max, v_end, distance, []) in
  let '(v_max, v_end) :=
    if distance <? AccelCurve.calcMinDistance P a_max v_start v_end then
      let v_end :=
        AccelCurve.calcVelocityEnd P a_max v_start v_target distance in
      (fmax v_start v_end, v_end)
    else (v_max, v_end) in
  let ac := AccelCurve.reset (ac self) a_max v_start v_max in
  let dc := AccelCurve.reset (dc self) a_max v_max v_end in
  let '(v_max, ac, dc, log2) :=
    if distance <? AccelCurve.x_end ac + AccelCurve.x_end dc then
      let '(vm, log) :=
        AccelCurve.calcVelocityMax a_max v_start v_end distance in
      let vm := fmin vm v_sat in
      let vm := fmax3 vm v_start v_end in
      (vm, AccelCurve.reset ac a_max v_start vm,
       AccelCurve.reset dc a_max vm v_end, log)
    else (v_max, ac, dc, []) in
  let log3 :=
    if distance + lit_0_1 <? AccelCurve.x_end ac + AccelCurve.x_end dc then
      [DistanceConstraint distance
         (AccelCurve.x_end ac + AccelCurve.x_end dc)]
    else [] in
  (mkplan v_max v_end ac dc distance, log1 ++ log2 ++ log3).

(** The test [t0 <= t1 + e && t1 <= t2 + e && t2 <= t3 + e]. *)
Definition time_points_ok (t0 t1 t2 t3 e : float) : bool :=
  (t0 <=? t1 + e) && (t1 <=? t2 + e) && (t2 <=? t3 + e).

(** The second half of [reset]: the boundary positions and instants. *)
Definition layout (p : planning) (x_start t_start : float)
  : obj * list diag :=
  let v_max := p_v_max p in
  let ac := p_ac p in
  let dc := p_dc p in
  let distance := p_distance p in
  let x0 := x_start in
  let x3 := x_start + distance in
  let t0 := t_start in
  let t1 := t0 + AccelCurve.t_end ac in
  let t2 := t0 + AccelCurve.t_end ac
            + (distance - AccelCurve.x_end ac - AccelCurve.x_end dc) / v_max in
  let t3 := t0 + AccelCurve.t_end ac
            + (distance - AccelCurve.x_end ac - AccelCurve.x_end dc) / v_max
            + AccelCurve.t_end dc in
  let e := lit_0_001 in
  (mk t0 t1 t2 t3 x0 x3 ac dc,
   if time_points_ok t0 t1 t2 t3 e then [] else [TimePoint]).

(** [reset(a_max, v_start, v_sat, v_target, distance, x_start, t_start)]
    on the object [self]. *)
Definition reset (self : obj)
    (a_max v_start v_sat v_target distance x_start t_start : float)
  : obj * list diag :=
  let '(p, log) := plan self a_max v_start v_sat v_target distance in
  let '(d, log') := layout p x_start t_start in
  (d, log ++ log').

End Platform.

Definition t_end (d : obj) : float := t3 d.
Definition v_end (d : obj) : float := AccelCurve.v_end (dc d).
Definition x_end (d : obj) : float := x3 d.

End AccelDesigner.

End Float32.

(** ** Specification vocabulary *)

(** The curve of zero duration at velocity [vel]: what
    [AccelCurve::reset(a_max, vel, vel)] builds. *)
Definition still (j_max a_max vel : R) : AccelCurve.obj :=
  AccelCurve.mk (- j_max) (- a_max) 0 0 0 0 vel vel vel vel 0 0 0 0
                (a_max / j_max) (- (a_max / j_max)).

(** The scenario [a_max = 3600], [v_start = 720], [v_sat = 720],
    [v_target = 0], [distance = 90], [x_start = 0], [t_start = 0] with
    [j_max = 240000]: the deceleration curve from 720 to 0 and the whole
    profile, as a run of the source by hand gives them. *)
Definition scenario_dc : AccelCurve.obj :=
  AccelCurve.mk (-240000) (-3600) 0 0.015 0.2 0.215 720 693 27 0
                0 10.665 77.265 77.4 0.015 0.185.

Definition scenario : AccelDesigner.obj :=
  AccelDesigner.mk 0 0 0.0175 0.2325 0 90 (still 240000 3600 720) scenario_dc.

(** The four evaluators of both classes. *)
Inductive evaluator : Type := EvJ | EvA | EvV | EvX.

(** ** Member functions as calls *)

(** A call of a member function acts on the object it is called on and on
    the diagnostic stream: it takes the two as they are, and hands them
    back as it leaves them, with its result. *)
Record world (O : Type) : Type := mkworld {
  this : O;
  cerr_out : list diag
}.
Arguments mkworld {O} this cerr_out.
Arguments this {O} w.
Arguments cerr_out {O} w.

Definition call (O A : Type) : Type := world O -> A * world O.

(** [return a;] *)
Definition ret {O A : Type} (a : A) : call O A := fun w => (a, w).

(** One statement after the other. *)
Definition bind {O A B : Type} (m : call O A) (k : A -> call O B)
  : call O B :=
  fun w => let (a, w') := m w in k a w'.

Notation "'stmt' x <- e ; k" := (bind e (fun x => k))
  (at level 10, x name, e at level 100, k at level 200, only parsing).

(** What a statement of a member function does: it reads a member, it
    assigns to the members, it writes a message to [std::cerr], or it calls
    a member function of a member object. *)
Definition member {O A : Type} (f : O -> A) : call O A :=
  fun w => (f (this w), w).

Definition assign {O : Type} (f : O -> O) : call O unit :=
  fun w => (tt, mkworld (f (this w)) (cerr_out w)).

Definition emit {O : Type} (d : diag) : call O unit :=
  fun w => (tt, mkworld (this w) (cerr_out w ++ [d])).

Definition within {O O' A : Type} (get : O -> O') (set : O -> O' -> O)
    (m : call O' A) : call O A :=
  fun w =>
    let (a, w') := m (mkworld (get (this w)) (cerr_out w)) in
    (a, mkworld (set (this w) (this w')) (cerr_out w')).

(** The bodies of [AccelCurve::j], [a], [v], [x] and [x_end], statement by
    statement. *)
Module AccelCurveCalls.

Import AccelCurve.

Section Jerk.

Variable j_max : R.

Definition j (t : R) : call obj R :=
  stmt t0 <- member t0;
  if Rle_dec t t0 then ret 0 else
  stmt t1 <- member t1;
  if Rle_dec t t1 then ret j_max else
  stmt t2 <- member t2;
  if Rle_dec t t2 then ret 0 else
  stmt t3 <- member t3;
  if Rle_dec t t3 then ret (- j_max) else
  ret 0.

Definition a (t : R) : call obj R :=
  stmt t0 <- member t0;
  if Rle_dec t t0 then ret 0 else
  stmt t1 <- member t1;
  if Rle_dec t t1 then
    stmt jm <- member jm;
    ret (jm * (t - t0))
  else
  stmt t2 <- member t2;
  if Rle_dec t t2 then member am else
  stmt t3 <- member t3;
  if Rle_dec t t3 then
    stmt jm <- member jm;
    ret (- jm * (t - t3))
  else
  ret 0.

Definition v (t : R) : call obj R :=
  stmt t0 <- member t0;
  if Rle_dec t t0 then member v0 else
  stmt t1 <- member t1;
  if Rle_dec t t1 then
    stmt v0 <- member v0;
    stmt jm <- member jm;
    ret (v0 + 0.5 * jm * (t - t0) * (t - t0))
  else
  stmt t2 <- member t2;
  if Rle_dec t t2 then
    stmt v1 <- member v1;
    stmt am <- member am;
    ret (v1 + am * (t - t1))
  else
  stmt t3 <- member t3;
  if Rle_dec t t3 then
    stmt v3 <- member v3;
    stmt jm <- member jm;
    ret (v3 - 0.5 * jm * (t - t3) * (t - t3))
  else
  member v3.

Definition x (t : R) : call obj R :=
  stmt t0 <- member t0;
  if Rle_dec t t0 then
    stmt x0 <- member x0;
    stmt v0 <- member v0;
    ret (x0 + v0 * (t - t0))
  else
  stmt t1 <- member t1;
  if Rle_dec t t1 then
    stmt x0 <- member x0;
    stmt v0 <- member v0;
    stmt jm <- member jm;
    ret (x0 + v0 * (t - t0) + jm / 6 * (t - t0) * (t - t0) * (t - t0))
  else
  stmt t2 <- member t2;
  if Rle_dec t t2 then
    stmt x1 <- member x1;
    stmt v1 <- member v1;
    stmt am <- member am;
    ret (x1 + v1 * (t - t1) + am / 2 * (t - t1) * (t - t1))
  else
  stmt t3 <- member t3;
  if Rle_dec t t3 then
    stmt x3 <- member x3;
    stmt v3 <- member v3;
    stmt jm <- member jm;
    ret (x3 + v3 * (t - t3) + jm / 6 * (t - t3) * (t - t3) * (t - t3))
  else
  stmt x3 <- member x3;
  stmt v3 <- member v3;
  ret (x3 + v3 * (t - t3)).

Definition x_end : call obj R := member x3.

End Jerk.

End AccelCurveCalls.

(** The bodies of [AccelDesigner::j], [a], [v] and [x]: each reads [t2]
    and calls the evaluator of the member [ac] or of the member [dc]. *)
Module AccelDesignerCalls.

Import AccelDesigner.

Definition set_ac (d : obj) (c : AccelCurve.obj) : obj :=
  mk (t0 d) (t1 d) (t2 d) (t3 d) (x0 d) (x3 d) c (dc d).

Definition set_dc (d : obj) (c : AccelCurve.obj) : obj :=
  mk (t0 d) (t1 d) (t2 d) (t3 d) (x0 d) (x3 d) (ac d) c.

Section Jerk.

Variable j_max : R.

Definition j (t : R) : call obj R :=
  stmt t2 <- member t2;
  if Rlt_dec t t2 then
    stmt t0 <- member t0;
    within ac set_ac (AccelCurveCalls.j j_max (t - t0))
  else
    within dc set_dc (AccelCurveCalls.j j_max (t - t2)).

Definition a (t : R) : call obj R :=
  stmt t2 <- member t2;
  if Rlt_dec t t2 then
    stmt t0 <- member t0;
    within ac set_ac (AccelCurveCalls.a (t - t0))
  else
    within dc set_dc (AccelCurveCalls.a (t - t2)).

Definition v (t : R) : call obj R :=
  stmt t2 <- member t2;
  if Rlt_dec t t2 then
    stmt t0 <- member t0;
    within ac set_ac (AccelCurveCalls.v (t - t0))
  else
    within dc set_dc (AccelCurveCalls.v (t - t2)).

Definition x (t : R) : call obj R :=
  stmt t2 <- member t2;
  if Rlt_dec t t2 then
    stmt x0 <- member x0;
    stmt t0 <- member t0;
    stmt r <- within ac set_ac (AccelCurveCalls.x (t - t0));
    ret (x0 + r)
  else
    stmt x3 <- member x3;
    stmt e <- within dc set_dc AccelCurveCalls.x_end;
    stmt r <- within dc set_dc (AccelCurveCalls.x (t - t2));
    ret (x3 - e + r).

End Jerk.

End AccelDesignerCalls.

(** The calls [c.j(t)], [c.a(t)], [c.v(t)], [c.x(t)] on an [AccelCurve]. *)
Definition curve_call (j_max : R) (e : evaluator) (t : R)
  : call AccelCurve.obj R :=
  match e with
  | EvJ => AccelCurveCalls.j j_max t
  | EvA => AccelCurveCalls.a t
  | EvV => AccelCurveCalls.v t
  | EvX => AccelCurveCalls.x t
  end.

(** The calls [d.j(t)], [d.a(t)], [d.v(t)], [d.x(t)] on an
    [AccelDesigner]. *)
Definition designer_call (j_max : R) (e : evaluator) (t : R)
  : call AccelDesigner.obj R :=
  match e with
  | EvJ => AccelDesignerCalls.j j_max t
  | EvA => AccelDesignerCalls.a t
  | EvV => AccelDesignerCalls.v t
  | EvX => AccelDesignerCalls.x t
  end.

(** The evaluators as functions of the object and the instant. *)
Definition curve_value (j_max : R) (e : evaluator)
  : AccelCurve.obj -> R -> R :=
  match e with
  | EvJ => AccelCurve.j j_max
  | EvA => AccelCurve.a
  | EvV => AccelCurve.v
  | EvX => AccelCurve.x
  end.

Definition designer_value (j_max : R) (e : evaluator)
  : AccelDesigner.obj -> R -> R :=
  match e with
  | EvJ => AccelDesigner.j j_max
  | EvA => AccelDesigner.a
  | EvV => AccelDesigner.v
  | EvX => AccelDesigner.x
  end.

(** ** Tabulation and rendering *)

(** One line of [printCsv]: the instant and the four evaluators at it. *)
Definition csv_row : Type := (R * R * R * R * R)%type.

Definition sample (j_max : R) (d : AccelDesigner.obj) (t : R) : csv_row :=
  (t, AccelDesigner.j j_max d t, AccelDesigner.a d t,
   AccelDesigner.v d t, AccelDesigner.x d t).

(** The loop [for (float t = t0; t < t_end(); t += t_interval)] of
    [printCsv], from the instant [t] on.  The lines written are collected in
    order; [fuel] bounds the number of tests of the loop condition, and the
    result is [None] when the loop is still running after them. *)
Fixpoint printCsv_loop (j_max : R) (d : AccelDesigner.obj) (t_interval : R)
    (fuel : nat) (t : R) : option (list csv_row) :=
  match fuel with
  | O => None
  | S fuel' =>
      if Rlt_dec t (AccelDesigner.t_end d) then
        match printCsv_loop j_max d t_interval fuel' (t + t_interval) with
        | Some rows => Some (sample j_max d t :: rows)
        | None => None
        end
      else Some []
  end.

(** [printCsv(os, t_interval)] *)
Definition printCsv (j_max : R) (d : AccelDesigner.obj) (t_interval : R)
    (fuel : nat) : option (list csv_row) :=
  printCsv_loop j_max d t_interval fuel (AccelDesigner.t0 d).



(** * Properties *)

(** ** Guarded arithmetic *)

Lemma fdiv_ok (x y : R) : y <> 0 -> fdiv x y = Ok (x / y).
Proof.
  intro H. unfold fdiv. destruct (Req_dec_T y 0); [contradiction | reflexivity].
Qed.

Lemma fdiv_zero (x : R) : fdiv x 0 = Fail DivByZero.
Proof.
  unfold fdiv. destruct (Req_dec_T 0 0) as [_ | H]; [reflexivity | now elim H].
Qed.

Lemma fsqrt_ok (x : R) : 0 <= x -> fsqrt x = Ok (sqrt x).
Proof.
  intro H. unfold fsqrt. destruct (Rlt_dec x 0); [lra | reflexivity].
Qed.

Lemma signed_up (m vs ve : R) : vs < ve -> signed m vs ve = m.
Proof. intro H. unfold signed. destruct (Rlt_dec 0 (ve - vs)); lra. Qed.

Lemma signed_down (m vs ve : R) : ve <= vs -> signed m vs ve = - m.
Proof. intro H. unfold signed. destruct (Rlt_dec 0 (ve - vs)); lra. Qed.

Lemma fmax_ge_l (a b : R) : a <= fmax a b.
Proof. unfold fmax. destruct (Rlt_dec a b); lra. Qed.

Lemma fmax_ge_r (a b : R) : b <= fmax a b.
Proof. unfold fmax. destruct (Rlt_dec a b); lra. Qed.

Lemma fmax_same (a : R) : fmax a a = a.
Proof. unfold fmax. destruct (Rlt_dec a a); reflexivity. Qed.

Lemma fmax3_ge_1 (a b c : R) : a <= fmax3 a b c.
Proof.
  unfold fmax3. pose proof (fmax_ge_l a b). pose proof (fmax_ge_l (fmax a b) c).
  lra.
Qed.

Lemma fmax3_ge_3 (a b c : R) : c <= fmax3 a b c.
Proof. unfold fmax3. apply fmax_ge_r. Qed.

Lemma fmin_pos (a b : R) : 0 < a -> 0 < b -> 0 < fmin a b.
Proof. intros Ha Hb. unfold fmin. destruct (Rlt_dec b a); assumption. Qed.

Lemma fmax3_ge_2 (a b c : R) : b <= fmax3 a b c.
Proof.
  unfold fmax3. pose proof (fmax_ge_r a b). pose proof (fmax_ge_l (fmax a b) c).
  lra.
Qed.

(** Decide one comparison of the goal from the context. *)
Ltac decide_cmp :=
  match goal with
  | |- context [Rle_dec ?p ?q] => destruct (Rle_dec p q); try lra
  | |- context [Rlt_dec ?p ?q] => destruct (Rlt_dec p q); try lra
  end.

(** Unfold the member assignments of [AccelCurve::reset] and the reads of
    the velocity and position evaluators on a constructed object. *)
Ltac unfold_members :=
  cbv beta iota zeta delta
    [AccelCurve.set_x3 AccelCurve.set_x2 AccelCurve.set_x1
     AccelCurve.set_v2 AccelCurve.set_v1 AccelCurve.x AccelCurve.v
     AccelCurve.jm AccelCurve.am
     AccelCurve.t0 AccelCurve.t1 AccelCurve.t2 AccelCurve.t3
     AccelCurve.v0 AccelCurve.v1 AccelCurve.v2 AccelCurve.v3
     AccelCurve.x0 AccelCurve.x1 AccelCurve.x2 AccelCurve.x3
     AccelCurve.tc AccelCurve.tm].

Lemma header_j_max_pos : 0 < AccelCurve.j_max.
Proof. unfold AccelCurve.j_max. lra. Qed.

(** ** AccelCurve *)

Module AccelCurveFacts.
Import AccelCurve.

Section Jerk.

Variable j_max : R.
Hypothesis j_max_pos : 0 < j_max.

Lemma calcTimeCurve_pos (a_max : R) :
  0 < a_max -> calcTimeCurve j_max a_max = a_max / j_max /\
               0 < calcTimeCurve j_max a_max.
Proof.
  intro Ha. unfold calcTimeCurve. rewrite Rabs_pos_eq by lra.
  split; [reflexivity | now apply Rdiv_lt_0_compat].
Qed.

Lemma signed_nonzero (m vs ve : R) : 0 < m -> signed m vs ve <> 0.
Proof. intro H. unfold signed. destruct (Rlt_dec 0 (ve - vs)); lra. Qed.

(** The velocity difference divided by the signed acceleration is the
    time [|dv| / a_max]. *)
Lemma dv_over_am (a_max vs ve : R) :
  0 < a_max -> (ve - vs) / signed a_max vs ve = Rabs (ve - vs) / a_max.
Proof.
  intro Ha. unfold signed.
  destruct (Rlt_dec 0 (ve - vs)).
  - rewrite Rabs_pos_eq by lra. reflexivity.
  - rewrite Rabs_left1 by lra. field. lra.
Qed.

Lemma tc_over_am_dv (a_max tc vs ve : R) :
  0 < a_max -> 0 < tc -> 0 <= tc / signed a_max vs ve * (ve - vs).
Proof.
  intros Ha Htc.
  replace (tc / signed a_max vs ve * (ve - vs))
    with (tc * ((ve - vs) / signed a_max vs ve))
    by (field; now apply signed_nonzero).
  rewrite dv_over_am by assumption.
  apply Rmult_le_pos; [lra |].
  apply Rmult_le_pos; [apply Rabs_pos | left; now apply Rinv_0_lt_compat].
Qed.

(** The boundary instants chosen by [reset] exist and are ordered. *)
Lemma reset_times_ordered (a_max vs ve : R) :
  0 < a_max ->
  let tc := calcTimeCurve j_max a_max in
  let am := signed a_max vs ve in
  let tm := (ve - vs) / am - tc in
  exists t1 t2 t3,
    reset_times 0 tc tm am (ve - vs) = Ok (t1, t2, t3) /\
    0 <= t1 /\ t1 <= t2 /\ t2 <= t3.
Proof.
  intros Ha tc am tm.
  destruct (calcTimeCurve_pos a_max Ha) as [_ Htc]. fold tc in Htc.
  unfold reset_times.
  destruct (Rlt_dec 0 tm) as [Htm | Htm].
  - eexists _, _, _. split; [reflexivity |]. lra.
  - rewrite fdiv_ok by (now apply signed_nonzero). simpl.
    rewrite fsqrt_ok by (now apply tc_over_am_dv). simpl.
    eexists _, _, _. split; [reflexivity |].
    pose proof (sqrt_pos (tc / am * (ve - vs))). lra.
Qed.

(** What [reset] establishes, for every prior object. *)
Lemma reset_spec (self : obj) (a_max vs ve : R) :
  0 < a_max ->
  exists c,
    reset j_max self a_max vs ve = Ok c /\
    jm c = signed j_max vs ve /\ am c = signed a_max vs ve /\
    t0 c = 0 /\ 0 <= t1 c /\ t1 c <= t2 c /\ t2 c <= t3 c /\
    v0 c = vs /\ v3 c = ve /\
    x0 c = 0 /\ x3 c = (vs + ve) / 2 * t3 c /\
    tc c = a_max / j_max.
Proof.
  intro Ha.
  destruct (reset_times_ordered a_max vs ve Ha)
    as (T1 & T2 & T3 & E & H1 & H2 & H3).
  destruct (calcTimeCurve_pos a_max Ha) as [Etc _].
  unfold reset. fold (signed a_max vs ve). fold (signed j_max vs ve).
  rewrite fdiv_ok by (now apply signed_nonzero).
  cbn [rbind]. cbv zeta in E. rewrite E. cbn [rbind].
  eexists. split; [reflexivity |].
  cbn. repeat split; try assumption; try reflexivity.
  lra.
Qed.

Lemma rbind_ok {A B : Type} (m : res A) (k : A -> res B) (b : B) :
  rbind m k = Ok b -> exists a, m = Ok a /\ k a = Ok b.
Proof.
  destruct m as [a0 | f]; simpl; intro H; [now exists a0 | discriminate].
Qed.

Lemma reset_times_inv (tc tm am dv t1 t2 t3 : R) :
  0 <= tc ->
  reset_times 0 tc tm am dv = Ok (t1, t2, t3) ->
  0 <= t1 /\ t1 <= t2 /\ t2 <= t3.
Proof.
  intros Htc. unfold reset_times.
  destruct (Rlt_dec 0 tm) as [Htm | Htm].
  - intro E. injection E as <- <- <-. lra.
  - intro E. apply rbind_ok in E. destruct E as (q & _ & E).
    apply rbind_ok in E. destruct E as (s & Es & E).
    injection E as <- <- <-.
    unfold fsqrt in Es. destruct (Rlt_dec (q * dv) 0); [discriminate |].
    injection Es as <-. pose proof (sqrt_pos (q * dv)). lra.
Qed.

(** Whenever [reset] returns, with any [a_max], the object it returns has
    ordered boundary instants and the boundary values of the source. *)
Lemma reset_inv (self : obj) (a_max vs ve : R) (c : obj) :
  reset j_max self a_max vs ve = Ok c ->
  jm c = signed j_max vs ve /\ am c = signed a_max vs ve /\
  t0 c = 0 /\ 0 <= t1 c /\ t1 c <= t2 c /\ t2 c <= t3 c /\
  v0 c = vs /\ v3 c = ve /\
  x0 c = 0 /\ x3 c = (vs + ve) / 2 * t3 c.
Proof.
  unfold reset. fold (signed a_max vs ve). fold (signed j_max vs ve).
  intro E. apply rbind_ok in E. destruct E as (q & _ & E).
  apply rbind_ok in E. destruct E as ([[T1 T2] T3] & Et & E).
  apply reset_times_inv in Et.
  - injection E as <-. cbn. repeat split; try tauto. lra.
  - unfold calcTimeCurve. apply Rmult_le_pos; [apply Rabs_pos |].
    left. now apply Rinv_0_lt_compat.
Qed.

(** [reset] assigns every member: the object it returns does not depend on
    the object it is called on. *)
Lemma reset_prior (self self' : obj) (a_max vs ve : R) :
  reset j_max self a_max vs ve = reset j_max self' a_max vs ve.
Proof.
  unfold reset.
  destruct (fdiv (ve - vs) _) as [q | f]; [cbn [rbind] | reflexivity].
  match goal with
  | |- context [reset_times ?p ?q ?r ?s ?u] =>
      pose proof (reset_times_inv q r s u) as Hin;
      destruct (reset_times p q r s u) as [[[T1 T2] T3] | f];
      [cbn [rbind] | reflexivity]
  end.
  specialize (Hin T1 T2 T3).
  assert (0 <= calcTimeCurve j_max a_max) as Htc.
  { unfold calcTimeCurve. apply Rmult_le_pos; [apply Rabs_pos |].
    left. now apply Rinv_0_lt_compat. }
  destruct (Hin Htc eq_refl) as (H1 & H2 & H3).
  f_equal.
  cbv beta iota zeta delta
    [set_x3 set_x2 set_x1 set_v2 set_v1 x v
     jm am t0 t1 t2 t3 v0 v1 v2 v3 x0 x1 x2 x3 tc tm].
  repeat decide_cmp; reflexivity.
Qed.

(** [reset(a_max, v, v)]: the curve of zero duration. *)
Lemma reset_same (self : obj) (a_max vel : R) :
  0 < a_max ->
  reset j_max self a_max vel vel = Ok (still j_max a_max vel).
Proof.
  intro Ha. destruct (calcTimeCurve_pos a_max Ha) as [Etc Htc].
  unfold reset. rewrite Etc in *.
  destruct (Rlt_dec 0 (vel - vel)) as [| _]; [lra |].
  rewrite fdiv_ok by lra. cbn [rbind].
  replace ((vel - vel) / - a_max) with 0 by (field; lra).
  unfold reset_times.
  destruct (Rlt_dec 0 (0 - a_max / j_max)) as [| _]; [lra |].
  rewrite fdiv_ok by lra. cbn [rbind].
  replace (a_max / j_max / - a_max * (vel - vel)) with 0 by (field; lra).
  rewrite fsqrt_ok by lra. rewrite sqrt_0. cbn [rbind].
  f_equal. unfold still. unfold_members.
  repeat decide_cmp.
  f_equal; lra.
Qed.

(** [reset(a_max, v_start, v_end)] when the velocity difference needs a
    phase of constant acceleration ([tm > 0]): the three-phase curve. *)
Lemma reset_plateau (self : obj) (a_max vs ve : R) :
  0 < a_max ->
  let tc := a_max / j_max in
  let am := signed a_max vs ve in
  let jm := signed j_max vs ve in
  let tm := (ve - vs) / am - tc in
  let V1 := vs + 0.5 * jm * tc * tc in
  let X1 := vs * tc + jm / 6 * tc * tc * tc in
  0 < tm ->
  reset j_max self a_max vs ve =
  Ok (mk jm am 0 tc (tc + tm) (tc + tm + tc)
         vs V1 (V1 + am * tm) ve
         0 X1 (X1 + V1 * tm + am / 2 * tm * tm)
         ((vs + ve) / 2 * (tc + tm + tc)) tc tm).
Proof.
  intros Ha tc am jm tm V1 X1 Htm.
  destruct (calcTimeCurve_pos a_max Ha) as [Etc Htc].
  unfold reset. rewrite Etc in *.
  fold (signed a_max vs ve). fold (signed j_max vs ve).
  fold tc am jm in Htc |- *.
  rewrite fdiv_ok by (now apply signed_nonzero). cbn [rbind].
  fold tm. unfold reset_times.
  destruct (Rlt_dec 0 tm) as [_ |]; [| contradiction].
  cbn [rbind]. f_equal. unfold_members.
  repeat decide_cmp.
  unfold V1, X1. f_equal; lra.
Qed.

(** [calcMinDistance(a_max, v, v)] is zero. *)
Lemma calcMinDistance_same (a_max vel : R) :
  0 < a_max -> calcMinDistance j_max a_max vel vel = Ok 0.
Proof.
  intro Ha. unfold calcMinDistance, make.
  rewrite reset_same by assumption. cbn [rbind]. f_equal.
Qed.

(** Outside the boundary instants the evaluators of a curve with ordered
    instants give no jerk, no acceleration, the boundary velocity, and the
    position extrapolated at that velocity. *)
Lemma outside_range (c : obj) (t : R) :
  t0 c <= t1 c -> t1 c <= t2 c -> t2 c <= t3 c ->
  (t < t0 c ->
   j j_max c t = 0 /\ a c t = 0 /\ v c t = v0 c /\
   x c t = x0 c + v0 c * (t - t0 c)) /\
  (t3 c < t ->
   j j_max c t = 0 /\ a c t = 0 /\ v c t = v3 c /\
   x c t = x3 c + v3 c * (t - t3 c)).
Proof using.
  clear j_max_pos. intros H1 H2 H3. unfold j, a, v, x.
  split; intro Ht; repeat decide_cmp; repeat split; reflexivity.
Qed.

(** C3.  For [a_max > 0], [calcVelocityMax(a_max, vs, ve, d)] forms
    [tc = a_max / j_max], [amtc = a_max * tc] and
    [D = amtc^2 - 2 (vs + ve) amtc + 4 a_max d + 2 (vs^2 + ve^2)]; when
    [D >= 0] it returns [(- amtc + sqrt D) / 2] and logs nothing, and when
    [D < 0] it logs the error and returns [vs].  It returns a number in
    both cases. *)
Theorem calcVelocityMax_spec (a_max vs ve d : R) :
  0 < a_max ->
  let tc := a_max / j_max in
  let amtc := a_max * tc in
  let D := amtc ^ 2 - 2 * (vs + ve) * amtc + 4 * a_max * d
           + 2 * (vs ^ 2 + ve ^ 2) in
  (0 <= D ->
   calcVelocityMax j_max a_max vs ve d = Ok ((- amtc + sqrt D) / 2, [])) /\
  (D < 0 ->
   calcVelocityMax j_max a_max vs ve d = Ok (vs, [InfeasiblePeakVelocity])).
Proof using j_max_pos.
  intros Ha tc amtc D.
  unfold calcVelocityMax, calcTimeCurve.
  rewrite Rabs_pos_eq by lra. fold tc. fold amtc.
  replace (amtc * amtc - 2 * (vs + ve) * amtc + 4 * a_max * d
           + 2 * (vs * vs + ve * ve)) with D by (unfold D; ring).
  split; intro HD.
  - destruct (Rlt_dec D 0) as [| _]; [lra |].
    rewrite fsqrt_ok by assumption. reflexivity.
  - destruct (Rlt_dec D 0) as [_ |]; [| contradiction].
    reflexivity.
Qed.

(** C4.  After [reset(a_max, v_start, v_end)] with [a_max > 0] (which always
    returns), the distance travelled [x_end() - x0] is the trapezoidal area
    [(v0 + v3) / 2 * (t3 - t0)] under the boundary velocities. *)
Theorem distance_law (self : obj) (a_max v_start v_end : R) :
  0 < a_max ->
  exists c,
    reset j_max self a_max v_start v_end = Ok c /\
    x_end c - x0 c = (v0 c + v3 c) / 2 * (t3 c - t0 c).
Proof.
  intro Ha.
  destruct (reset_spec self a_max v_start v_end Ha)
    as (c & E & _ & _ & Ht0 & _ & _ & _ & Hv0 & Hv3 & Hx0 & Hx3 & _).
  exists c. split; [exact E |].
  unfold x_end. rewrite Hx3, Hx0, Hv0, Hv3, Ht0. lra.
Qed.

Lemma sign_signed (m vs ve : R) :
  0 < m -> sign (signed m vs ve) = if Rlt_dec 0 (ve - vs) then 1 else -1.
Proof.
  intro Hm. unfold sign, signed.
  destruct (Rlt_dec 0 (ve - vs)); repeat decide_cmp; reflexivity.
Qed.

(** C5, as the code has it.  After [reset(a_max, v_start, v_end)] with
    [a_max > 0] the boundary instants are weakly increasing and [am] and
    [jm] have the same sign; that sign is the sign of [v3 - v0] when the two
    velocities differ, and when they are equal the code takes
    [am = - a_max] and [jm = - j_max], both negative. *)
Theorem reset_order_and_signs (self : obj) (a_max v_start v_end : R) :
  0 < a_max ->
  exists c,
    reset j_max self a_max v_start v_end = Ok c /\
    t0 c <= t1 c /\ t1 c <= t2 c /\ t2 c <= t3 c /\
    sign (am c) = sign (jm c) /\
    (v3 c <> v0 c -> sign (jm c) = sign (v3 c - v0 c)) /\
    (v3 c = v0 c -> am c = - a_max /\ jm c = - j_max).
Proof.
  intro Ha.
  destruct (reset_spec self a_max v_start v_end Ha)
    as (c & E & Hjm & Ham & Ht0 & H1 & H2 & H3 & Hv0 & Hv3 & _).
  exists c. split; [exact E |].
  rewrite Hjm, Ham, Ht0, Hv0, Hv3, !sign_signed by assumption.
  split; [lra |]. split; [assumption |]. split; [assumption |].
  split; [reflexivity |]. split.
  - intro Hne. unfold sign. repeat decide_cmp; reflexivity.
  - intros ->. unfold signed. decide_cmp.
Qed.

End Jerk.

(** C5, as the spec has it, fails for equal velocities: [reset(1, 0, 0)]
    gives [am = -1] and [jm = - j_max], of sign [-1], while [v3 - v0] is
    zero. *)
Lemma sign_law_fails_at_equal_velocities :
  exists c,
    reset AccelCurve.j_max empty 1 0 0 = Ok c /\
    sign (am c) = -1 /\ sign (jm c) = -1 /\
    sign (v3 c - v0 c) = 0 /\
    sign (am c) <> sign (v3 c - v0 c).
Proof.
  pose proof header_j_max_pos as Hj.
  destruct (reset_spec AccelCurve.j_max Hj empty 1 0 0 ltac:(lra))
    as (c & E & Hjm & Ham & _ & _ & _ & _ & Hv0 & Hv3 & _).
  exists c. split; [exact E |].
  rewrite Hjm, Ham, Hv0, Hv3, !sign_signed by lra.
  assert (sign (0 - 0) = 0) as ->
    by (unfold sign; repeat decide_cmp; reflexivity).
  decide_cmp.
Qed.

Lemma calcVelocityMax_spec_witness :
  0 < AccelCurve.j_max /\ 0 < 1 /\
  calcVelocityMax AccelCurve.j_max 1 0 0 0
    = Ok ((- (1 * (1 / AccelCurve.j_max))
           + sqrt ((1 * (1 / AccelCurve.j_max)) ^ 2
                   - 2 * (0 + 0) * (1 * (1 / AccelCurve.j_max))
                   + 4 * 1 * 0 + 2 * (0 ^ 2 + 0 ^ 2))) / 2, []) /\
  calcVelocityMax AccelCurve.j_max 1 0 0 (-1)
    = Ok (0, [InfeasiblePeakVelocity]).
Proof.
  pose proof header_j_max_pos as Hj.
  assert (0 < 1) as Ha by lra.
  split; [exact Hj |]. split; [exact Ha |]. split.
  - apply (calcVelocityMax_spec AccelCurve.j_max Hj 1 0 0 0 Ha).
    unfold AccelCurve.j_max. lra.
  - apply (calcVelocityMax_spec AccelCurve.j_max Hj 1 0 0 (-1) Ha).
    unfold AccelCurve.j_max. lra.
Defined.

Lemma distance_law_witness :
  0 < AccelCurve.j_max /\ 0 < 3600 /\
  exists c,
    reset AccelCurve.j_max empty 3600 0 720 = Ok c /\
    x_end c - x0 c = (v0 c + v3 c) / 2 * (t3 c - t0 c).
Proof.
  pose proof header_j_max_pos as Hj.
  assert (0 < 3600) as Ha by lra.
  split; [exact Hj | split; [exact Ha |]].
  exact (distance_law AccelCurve.j_max Hj empty 3600 0 720 Ha).
Defined.

Lemma reset_order_and_signs_witness :
  0 < AccelCurve.j_max /\ 0 < 3600 /\
  exists c,
    reset AccelCurve.j_max empty 3600 720 720 = Ok c /\
    t0 c <= t1 c /\ t1 c <= t2 c /\ t2 c <= t3 c /\
    sign (am c) = sign (jm c) /\
    (v3 c <> v0 c -> sign (jm c) = sign (v3 c - v0 c)) /\
    (v3 c = v0 c -> am c = - 3600 /\ jm c = - AccelCurve.j_max).
Proof.
  pose proof header_j_max_pos as Hj.
  assert (0 < 3600) as Ha by lra.
  split; [exact Hj | split; [exact Ha |]].
  exact (reset_order_and_signs AccelCurve.j_max Hj empty 3600 720 720 Ha).
Defined.

End AccelCurveFacts.

(** ** The diagnostics monad *)

Lemma mbind_ok {A B : Type} (m : M A) (k : A -> M B) (b : B) (l : list diag) :
  mbind m k = Ok (b, l) ->
  exists a l1 l2, m = Ok (a, l1) /\ k a = Ok (b, l2) /\ l = l1 ++ l2.
Proof.
  unfold mbind. destruct m as [[a0 l1] | f]; [| discriminate].
  destruct (k a0) as [[b0 l2] | f] eqn:Ek; [| discriminate].
  intro E. injection E as <- <-. now exists a0, l1, l2.
Qed.

Lemma lift_ok {A : Type} (r : res A) (a : A) (l : list diag) :
  lift r = Ok (a, l) -> r = Ok a /\ l = [].
Proof.
  destruct r as [a0 | f]; simpl; [| discriminate].
  intro E. injection E as <- <-. now split.
Qed.

Lemma mret_ok {A : Type} (a b : A) (l : list diag) :
  mret a = Ok (b, l) -> a = b /\ l = [].
Proof. unfold mret. intro E. injection E as <- <-. now split. Qed.

(** Invert one step of a computation in [M] that returned. *)
Tactic Notation "minv" hyp(H) "as" simple_intropattern(a) ident(E) :=
  let l1 := fresh "l" in
  let l2 := fresh "l" in
  let El := fresh "El" in
  apply mbind_ok in H; destruct H as (a & l1 & l2 & E & H & El).

(** ** AccelDesigner *)

Module AccelDesignerFacts.
Import AccelDesigner.

Section Jerk.

Variable j_max : R.
Hypothesis j_max_pos : 0 < j_max.

(** Whenever the planning half returns, the two curves are curves built by
    [AccelCurve::reset] around the peak velocity, the peak velocity is not
    below the start velocity, and the distance is the planned one. *)
Lemma plan_inv (self : obj) (a_max vs vsat vt dist : R)
    (p : planning) (log : list diag) :
  plan j_max self a_max vs vsat vt dist = Ok (p, log) ->
  AccelCurve.make j_max a_max vs (p_v_max p) = Ok (p_ac p) /\
  AccelCurve.make j_max a_max (p_v_max p) (p_v_end p) = Ok (p_dc p) /\
  vs <= p_v_max p /\
  p_distance p = planned dist.
Proof.
  unfold plan. intro H.
  minv H as [[vm0 ve0] dist'] E0.
  assert (dist' = planned dist /\ vs <= vm0) as [-> Hvm0].
  { unfold planned. destruct (Rle_dec dist 0).
    - minv E0 as u Eu. apply mret_ok in E0 as [E0 _].
      injection E0 as <- <- <-. split; [reflexivity | lra].
    - apply mret_ok in E0 as [E0 _]. injection E0 as <- <- <-.
      split; [reflexivity | apply fmax3_ge_1]. }
  clear E0.
  minv H as dmin Emin. clear Emin.
  minv H as [vm1 ve1] Eve.
  assert (vs <= vm1) as Hvm1.
  { destruct (Rlt_dec _ _).
    - minv Eve as ve Ee. apply mret_ok in Eve as [Eve _].
      injection Eve as <- <-. apply fmax_ge_l.
    - apply mret_ok in Eve as [Eve _]. now injection Eve as <- <-. }
  clear Eve.
  minv H as ac1 Eac. apply lift_ok in Eac as [Eac _].
  minv H as dc1 Edc. apply lift_ok in Edc as [Edc _].
  minv H as [[vm2 ac2] dc2] Est.
  assert (AccelCurve.make j_max a_max vs vm2 = Ok ac2 /\
          AccelCurve.make j_max a_max vm2 ve1 = Ok dc2 /\
          vs <= vm2) as (Eac2 & Edc2 & Hvm2).
  { unfold AccelCurve.make.
    destruct (Rlt_dec _ _).
    - minv Est as vm Evm. clear Evm.
      minv Est as ac3 Ea. apply lift_ok in Ea as [Ea _].
      minv Est as dc3 Ed. apply lift_ok in Ed as [Ed _].
      apply mret_ok in Est as [Est _]. injection Est as <- <- <-.
      rewrite <- Ea, <- Ed.
      repeat split; try (apply AccelCurveFacts.reset_prior; assumption).
      apply fmax3_ge_2.
    - apply mret_ok in Est as [Est _]. injection Est as <- <- <-.
      rewrite <- Eac, <- Edc.
      repeat split; try (apply AccelCurveFacts.reset_prior; assumption).
      assumption. }
  clear Est.
  minv H as u Eu. clear Eu.
  apply mret_ok in H as [H _]. subst p. cbn.
  repeat split; assumption.
Qed.

(** Whenever the second half returns, the peak velocity is not zero and the
    members are those of the source. *)
Lemma layout_inv (p : planning) (xs ts : R) (d : obj) (log : list diag) :
  layout p xs ts = Ok (d, log) ->
  p_v_max p <> 0 /\
  ac d = p_ac p /\ dc d = p_dc p /\
  x0 d = xs /\ x3 d = xs + p_distance p /\
  t0 d = ts /\ t1 d = ts + AccelCurve.t_end (ac d) /\
  t2 d = ts + AccelCurve.t_end (ac d)
         + (p_distance p - AccelCurve.x_end (ac d)
            - AccelCurve.x_end (dc d)) / p_v_max p /\
  t3 d = t2 d + AccelCurve.t_end (dc d).
Proof.
  unfold layout. intro H.
  minv H as q Eq. apply lift_ok in Eq as [Eq _].
  minv H as u Eu. clear Eu.
  apply mret_ok in H as [H _]. subst d. cbn.
  unfold fdiv in Eq.
  destruct (Req_dec_T (p_v_max p) 0) as [| Hne]; [discriminate |].
  injection Eq as <-.
  repeat split; try assumption; try reflexivity.
Qed.

(** Whenever [reset] returns: the two lemmas above, together. *)
Lemma designer_reset_inv (self : obj) (a_max vs vsat vt dist xs ts : R)
    (d : obj) (log : list diag) :
  reset j_max self a_max vs vsat vt dist xs ts = Ok (d, log) ->
  exists v_max v_end,
    AccelCurve.make j_max a_max vs v_max = Ok (ac d) /\
    AccelCurve.make j_max a_max v_max v_end = Ok (dc d) /\
    v_max <> 0 /\ vs <= v_max /\
    x0 d = xs /\ x3 d = xs + planned dist /\
    t0 d = ts /\ t1 d = ts + AccelCurve.t_end (ac d) /\
    t2 d = ts + AccelCurve.t_end (ac d)
           + (planned dist - AccelCurve.x_end (ac d)
              - AccelCurve.x_end (dc d)) / v_max /\
    t3 d = t2 d + AccelCurve.t_end (dc d).
Proof.
  unfold reset. intro H.
  minv H as p Ep.
  apply plan_inv in Ep as (Ea & Ed & Hv & Hd).
  apply layout_inv in H
    as (Hne & Hac & Hdc & Hx0 & Hx3 & Ht0 & Ht1 & Ht2 & Ht3).
  exists (p_v_max p), (p_v_end p).
  rewrite Hac, Hdc in *. rewrite <- Hd.
  repeat split; assumption.
Qed.

(** Planning for a distance that is not positive: one warning, and two
    curves of zero duration at the start velocity. *)
Lemma plan_zero_motion (self : obj) (a_max vs vsat vt dist : R) :
  0 < a_max -> dist <= 0 ->
  plan j_max self a_max vs vsat vt dist =
  Ok (mkplan vs vs (still j_max a_max vs) (still j_max a_max vs) 0,
      [NegativeDistance]).
Proof.
  intros Ha Hd. unfold plan.
  destruct (Rle_dec dist 0) as [_ |]; [| contradiction].
  cbn [mbind cerr mret app].
  rewrite AccelCurveFacts.calcMinDistance_same by assumption.
  cbn [mbind lift app].
  destruct (Rlt_dec 0 0) as [| _]; [lra |].
  cbn [mbind mret app].
  rewrite !AccelCurveFacts.reset_same by assumption.
  cbn [mbind lift app].
  change (AccelCurve.x_end (still j_max a_max vs)) with 0.
  destruct (Rlt_dec 0 (0 + 0)) as [| _]; [lra |].
  cbn [mbind mret app].
  change (AccelCurve.x_end (still j_max a_max vs)) with 0.
  destruct (Rlt_dec (0 + 0.1) (0 + 0)) as [| _]; [lra |].
  reflexivity.
Qed.

Lemma time_points_ok_true (ta tb tc td e : R) :
  ta <= tb + e -> tb <= tc + e -> tc <= td + e ->
  time_points_ok ta tb tc td e = true.
Proof.
  intros H1 H2 H3. unfold time_points_ok.
  destruct (Rle_dec ta (tb + e)); [| contradiction].
  destruct (Rle_dec tb (tc + e)); [| contradiction].
  destruct (Rle_dec tc (td + e)); [reflexivity | contradiction].
Qed.

(** [reset] for a distance that is not positive and a start velocity that
    is not zero: the profile of zero duration, and one warning. *)
Lemma reset_zero_motion (self : obj) (a_max vs vsat vt dist xs ts : R) :
  0 < a_max -> dist <= 0 -> vs <> 0 ->
  reset j_max self a_max vs vsat vt dist xs ts =
  Ok (mk ts ts ts ts xs xs (still j_max a_max vs) (still j_max a_max vs),
      [NegativeDistance]).
Proof.
  intros Ha Hd Hvs. unfold reset.
  rewrite plan_zero_motion by assumption.
  cbn [mbind]. unfold layout.
  cbn [p_v_max p_v_end p_ac p_dc p_distance].
  change (AccelCurve.x_end (still j_max a_max vs)) with 0.
  change (AccelCurve.t_end (still j_max a_max vs)) with 0.
  rewrite fdiv_ok by assumption. cbn [mbind lift app].
  replace ((0 - 0 - 0) / vs) with 0 by (field; assumption).
  rewrite time_points_ok_true by lra.
  cbn [mbind mret app].
  do 2 f_equal. f_equal; lra.
Qed.

(** [reset] for a distance that is not positive and a start velocity of
    zero: the planning half returns, with a peak velocity of zero, and the
    cruise duration divides by it. *)
Lemma reset_zero_motion_fault (self : obj) (a_max vsat vt dist xs ts : R) :
  0 < a_max -> dist <= 0 ->
  plan j_max self a_max 0 vsat vt dist =
    Ok (mkplan 0 0 (still j_max a_max 0) (still j_max a_max 0) 0,
        [NegativeDistance]) /\
  reset j_max self a_max 0 vsat vt dist xs ts = Fail DivByZero.
Proof.
  intros Ha Hd. unfold reset.
  rewrite plan_zero_motion by assumption.
  split; [reflexivity |].
  cbn [mbind]. unfold layout.
  cbn [p_v_max p_v_end p_ac p_dc p_distance].
  rewrite fdiv_zero. reflexivity.
Qed.

(** [calcVelocityMax] always returns. *)
Lemma calcVelocityMax_returns (a_max vs ve dist : R) :
  exists r l, AccelCurve.calcVelocityMax j_max a_max vs ve dist = Ok (r, l).
Proof.
  unfold AccelCurve.calcVelocityMax.
  destruct (Rlt_dec _ 0) as [| Hd].
  - cbn [mbind cerr mret app]. eexists _, _. reflexivity.
  - rewrite fsqrt_ok by lra. cbn [mbind lift mret app].
    eexists _, _. reflexivity.
Qed.

(** The planning half returns when the distance is not positive, or is at
    least the minimum distance from the start to the target velocity. *)
Lemma plan_returns (self : obj) (a_max vs vsat vt dist : R) :
  0 < a_max ->
  (dist <= 0 \/
   exists m, AccelCurve.calcMinDistance j_max a_max vs vt = Ok m /\
             m <= dist) ->
  exists p l, plan j_max self a_max vs vsat vt dist = Ok (p, l).
Proof.
  intros Ha Hd.
  destruct (Rle_dec dist 0) as [Hle | Hgt].
  - rewrite plan_zero_motion by assumption. eexists _, _. reflexivity.
  - destruct Hd as [Hd | (m & Em & Hm)]; [contradiction |].
    unfold plan.
    destruct (Rle_dec dist 0) as [| _]; [contradiction |].
    cbn [mbind mret app]. rewrite Em. cbn [mbind lift app].
    destruct (Rlt_dec dist m) as [| _]; [lra |].
    cbn [mbind mret app].
    destruct (AccelCurveFacts.reset_spec j_max j_max_pos (ac self) a_max vs
                (fmax3 vs vsat vt) Ha) as (c1 & E1 & _).
    destruct (AccelCurveFacts.reset_spec j_max j_max_pos (dc self) a_max
                (fmax3 vs vsat vt) vt Ha) as (c2 & E2 & _).
    rewrite E1, E2. cbn [mbind lift app].
    destruct (Rlt_dec dist _).
    + destruct (calcVelocityMax_returns a_max vs vt dist) as (vm & l & Er).
      rewrite Er. cbn [mbind app].
      destruct (AccelCurveFacts.reset_spec j_max j_max_pos c1 a_max vs
                  (fmax3 (fmin vm vsat) vs vt) Ha) as (c3 & E3 & _).
      destruct (AccelCurveFacts.reset_spec j_max j_max_pos c2 a_max
                  (fmax3 (fmin vm vsat) vs vt) vt Ha) as (c4 & E4 & _).
      rewrite E3, E4. cbn [mbind lift mret app].
      destruct (Rlt_dec _ _); cbn [mbind cerr mret app];
        eexists _, _; reflexivity.
    + cbn [mbind mret app].
      destruct (Rlt_dec _ _); cbn [mbind cerr mret app];
        eexists _, _; reflexivity.
Qed.

(** From rest to rest over a positive distance, [calcVelocityMax] returns
    a positive peak velocity. *)
Lemma calcVelocityMax_from_rest (a_max dist : R) :
  0 < a_max -> 0 < dist ->
  exists r l,
    AccelCurve.calcVelocityMax j_max a_max 0 0 dist = Ok (r, l) /\ 0 < r.
Proof.
  intros Ha Hd.
  destruct (AccelCurveFacts.calcTimeCurve_pos j_max j_max_pos a_max Ha)
    as [_ Htc].
  unfold AccelCurve.calcVelocityMax.
  set (amtc := a_max * AccelCurve.calcTimeCurve j_max a_max).
  set (D := amtc * amtc - 2 * (0 + 0) * amtc + 4 * a_max * dist
            + 2 * (0 * 0 + 0 * 0)).
  assert (0 < amtc) as Hamtc by (unfold amtc; nra).
  assert (amtc * amtc < D) as HD by (unfold D; nra).
  destruct (Rlt_dec D 0) as [| _]; [nra |].
  rewrite fsqrt_ok by nra. cbn [mbind lift mret app].
  eexists _, _. split; [reflexivity |].
  pose proof (sqrt_pos D). pose proof (sqrt_sqrt D ltac:(nra)).
  nra.
Qed.

(** For velocities that are not negative and a positive saturation
    velocity, the planning half returns a positive peak velocity when the
    distance is positive and at least the minimum distance from the start
    to the target velocity. *)
Lemma plan_returns_pos (self : obj) (a_max vs vsat vt dist m : R) :
  0 < a_max -> 0 <= vs -> 0 <= vt -> 0 < vsat -> 0 < dist ->
  AccelCurve.calcMinDistance j_max a_max vs vt = Ok m -> m <= dist ->
  exists p l,
    plan j_max self a_max vs vsat vt dist = Ok (p, l) /\ 0 < p_v_max p.
Proof.
  intros Ha Hvs Hvt Hsat Hd Em Hm.
  assert (0 < fmax3 vs vsat vt) as Hmax
    by (pose proof (fmax3_ge_2 vs vsat vt); lra).
  unfold plan.
  destruct (Rle_dec dist 0) as [| _]; [lra |].
  cbn [mbind mret app]. rewrite Em. cbn [mbind lift app].
  destruct (Rlt_dec dist m) as [| _]; [lra |].
  cbn [mbind mret app].
  destruct (AccelCurveFacts.reset_spec j_max j_max_pos (ac self) a_max vs
              (fmax3 vs vsat vt) Ha) as (c1 & E1 & _).
  destruct (AccelCurveFacts.reset_spec j_max j_max_pos (dc self) a_max
              (fmax3 vs vsat vt) vt Ha) as (c2 & E2 & _).
  rewrite E1, E2. cbn [mbind lift app].
  destruct (Rlt_dec dist _).
  - assert (exists vm l,
              AccelCurve.calcVelocityMax j_max a_max vs vt dist = Ok (vm, l) /\
              0 < fmax3 (fmin vm vsat) vs vt) as (vm & l & Er & Hvm).
    { destruct (Rlt_dec 0 vs) as [Hs | Hs].
      - destruct (calcVelocityMax_returns a_max vs vt dist) as (vm & l & Er).
        exists vm, l. split; [exact Er |].
        pose proof (fmax3_ge_2 (fmin vm vsat) vs vt). lra.
      - destruct (Rlt_dec 0 vt) as [Ht | Ht].
        + destruct (calcVelocityMax_returns a_max vs vt dist)
            as (vm & l & Er).
          exists vm, l. split; [exact Er |].
          pose proof (fmax3_ge_3 (fmin vm vsat) vs vt). lra.
        + assert (vs = 0) as -> by lra. assert (vt = 0) as -> by lra.
          destruct (calcVelocityMax_from_rest a_max dist Ha Hd)
            as (vm & l & Er & Hr).
          exists vm, l. split; [exact Er |].
          pose proof (fmax3_ge_1 (fmin vm vsat) 0 0).
          pose proof (fmin_pos vm vsat Hr Hsat). lra. }
    rewrite Er. cbn [mbind app].
    destruct (AccelCurveFacts.reset_spec j_max j_max_pos c1 a_max vs
                (fmax3 (fmin vm vsat) vs vt) Ha) as (c3 & E3 & _).
    destruct (AccelCurveFacts.reset_spec j_max j_max_pos c2 a_max
                (fmax3 (fmin vm vsat) vs vt) vt Ha) as (c4 & E4 & _).
    rewrite E3, E4. cbn [mbind lift mret app].
    destruct (Rlt_dec _ _); cbn [mbind cerr mret app];
      eexists _, _; (split; [reflexivity | exact Hvm]).
  - cbn [mbind mret app].
    destruct (Rlt_dec _ _); cbn [mbind cerr mret app];
      eexists _, _; (split; [reflexivity | exact Hmax]).
Qed.

(** The second half returns when the peak velocity is not zero. *)
Lemma layout_returns (p : planning) (xs ts : R) :
  p_v_max p <> 0 -> exists d l, layout p xs ts = Ok (d, l).
Proof.
  intro Hne. unfold layout. rewrite fdiv_ok by assumption.
  cbn [mbind lift app].
  destruct (time_points_ok _ _ _ _ _); cbn [mbind cerr mret app];
    eexists _, _; reflexivity.
Qed.

(** The second half has no guard on the peak velocity: it returns exactly
    when the peak velocity is not zero, and otherwise the division for the
    cruise duration fails. *)
Lemma layout_fault_iff (p : planning) (xs ts : R) :
  layout p xs ts = Fail DivByZero <-> p_v_max p = 0.
Proof.
  split.
  - intro E. destruct (Req_dec_T (p_v_max p) 0) as [| Hne]; [assumption |].
    destruct (layout_returns p xs ts Hne) as (d & l & El).
    rewrite El in E. discriminate.
  - intro E. unfold layout. rewrite E, fdiv_zero. reflexivity.
Qed.

(** [reset] returns for velocities that are not negative and a positive
    saturation velocity, when the distance is positive and at least the
    minimum distance from the start to the target velocity. *)
Lemma reset_returns_pos (self : obj) (a_max vs vsat vt dist xs ts m : R) :
  0 < a_max -> 0 <= vs -> 0 <= vt -> 0 < vsat -> 0 < dist ->
  AccelCurve.calcMinDistance j_max a_max vs vt = Ok m -> m <= dist ->
  exists d l, reset j_max self a_max vs vsat vt dist xs ts = Ok (d, l).
Proof.
  intros Ha Hvs Hvt Hsat Hd Em Hm.
  destruct (plan_returns_pos self a_max vs vsat vt dist m)
    as (p & l & Ep & Hp); try assumption.
  destruct (layout_returns p xs ts) as (d & l' & El); [lra |].
  unfold reset. rewrite Ep. cbn [mbind]. rewrite El.
  eexists _, _. reflexivity.
Qed.

(** [reset] returns for a positive start velocity, when the distance is
    not positive or is at least the minimum distance from the start to the
    target velocity. *)
Lemma reset_returns (self : obj) (a_max vs vsat vt dist xs ts : R) :
  0 < a_max -> 0 < vs ->
  (dist <= 0 \/
   exists m, AccelCurve.calcMinDistance j_max a_max vs vt = Ok m /\
             m <= dist) ->
  exists d l, reset j_max self a_max vs vsat vt dist xs ts = Ok (d, l).
Proof.
  intros Ha Hvs Hd.
  destruct (plan_returns self a_max vs vsat vt dist Ha Hd) as (p & l & Ep).
  pose proof (plan_inv _ _ _ _ _ _ _ _ Ep) as (_ & _ & Hv & _).
  destruct (layout_returns p xs ts) as (d & l' & El); [lra |].
  unfold reset. rewrite Ep. cbn [mbind]. rewrite El.
  eexists _, _. reflexivity.
Qed.

Lemma planned_pos (dist : R) : 0 < dist -> planned dist = dist.
Proof. intro H. unfold planned. destruct (Rle_dec dist 0); lra. Qed.

(** In exact arithmetic the sum [x_start + distance] is not rounded: a
    [reset] with [distance > 0] that returns gives
    [x_end() - x_start = distance] (and [x0] is [x_start]).  It does return
    when [a_max > 0], [distance] exceeds
    [calcMinDistance(a_max, v_start, v_target)], and either the start
    velocity is positive, or the start and target velocities are not
    negative and the saturation velocity is positive.  The binary32 sum is
    the matter of [Float32Facts] below. *)
Lemma exact_displacement (self : obj) (a_max vs vsat vt dist xs ts : R) :
  0 < dist ->
  (forall d log,
     reset j_max self a_max vs vsat vt dist xs ts = Ok (d, log) ->
     x_end d - xs = dist /\ x_end d - x0 d = dist) /\
  (0 < a_max -> 0 < vs \/ (0 <= vs /\ 0 <= vt /\ 0 < vsat) ->
   forall m,
     AccelCurve.calcMinDistance j_max a_max vs vt = Ok m -> m < dist ->
     exists d log,
       reset j_max self a_max vs vsat vt dist xs ts = Ok (d, log) /\
       Rabs (x_end d - x0 d - dist) <= 0.1).
Proof.
  intro Hd.
  assert (forall d log,
            reset j_max self a_max vs vsat vt dist xs ts = Ok (d, log) ->
            x_end d - xs = dist /\ x_end d - x0 d = dist) as Hpart.
  { intros d log E.
    apply designer_reset_inv in E as (vm & ve & _ & _ & _ & _ & Hx0 & Hx3 & _).
    unfold x_end. rewrite Hx3, Hx0, planned_pos by assumption. lra. }
  split; [exact Hpart |].
  intros Ha Hvs m Em Hm.
  assert (exists d log,
            reset j_max self a_max vs vsat vt dist xs ts = Ok (d, log))
    as (d & log & E).
  { destruct Hvs as [Hvs | (Hvs & Hvt & Hsat)].
    - apply reset_returns; try assumption.
      right. exists m. split; [exact Em | lra].
    - apply (reset_returns_pos self a_max vs vsat vt dist xs ts m);
        try assumption. lra. }
  exists d, log. split; [exact E |].
  destruct (Hpart d log E) as [_ ->].
  replace (dist - dist) with 0 by lra. rewrite Rabs_R0. lra.
Qed.

(** C2, as the code has it.  The evaluators are total functions of the
    instant.  On a curve built by [AccelCurve::reset], before [t0] and after
    [t3] the jerk and the acceleration are zero, the velocity is the
    boundary velocity, and the position is extrapolated at the boundary
    velocity: [x0 + v0 (t - t0)] before [t0], [x3 + v3 (t - t3)] after [t3].
    On a profile built by [AccelDesigner::reset] the same holds after [t3]
    with the end velocity, and before [t0] (for instants that are also
    before [t2]) with the start velocity.  On the objects of the empty
    constructors, whose members are zero, all four evaluators are zero at
    every instant other than zero. *)
Theorem evaluators_outside_range :
  (forall (self : AccelCurve.obj) (a_max vs ve : R) (c : AccelCurve.obj),
     AccelCurve.reset j_max self a_max vs ve = Ok c ->
     forall t,
       (t < AccelCurve.t0 c ->
        AccelCurve.j j_max c t = 0 /\ AccelCurve.a c t = 0 /\
        AccelCurve.v c t = AccelCurve.v0 c /\
        AccelCurve.x c t
          = AccelCurve.x0 c + AccelCurve.v0 c * (t - AccelCurve.t0 c)) /\
       (AccelCurve.t3 c < t ->
        AccelCurve.j j_max c t = 0 /\ AccelCurve.a c t = 0 /\
        AccelCurve.v c t = AccelCurve.v3 c /\
        AccelCurve.x c t
          = AccelCurve.x3 c + AccelCurve.v3 c * (t - AccelCurve.t3 c))) /\
  (forall (self : obj) (a_max vs vsat vt dist xs ts : R)
          (d : obj) (log : list diag),
     reset j_max self a_max vs vsat vt dist xs ts = Ok (d, log) ->
     forall t,
       (t < t0 d -> t < t2 d ->
        j j_max d t = 0 /\ a d t = 0 /\ v d t = vs /\
        x d t = x0 d + vs * (t - t0 d)) /\
       (t3 d < t ->
        j j_max d t = 0 /\ a d t = 0 /\ v d t = v_end d /\
        x d t = x3 d + v_end d * (t - t3 d))) /\
  (forall t,
     t <> 0 ->
     (AccelCurve.j j_max AccelCurve.empty t = 0 /\
      AccelCurve.a AccelCurve.empty t = 0 /\
      AccelCurve.v AccelCurve.empty t = 0 /\
      AccelCurve.x AccelCurve.empty t = 0) /\
     (j j_max empty t = 0 /\ a empty t = 0 /\
      v empty t = 0 /\ x empty t = 0)).
Proof.
  split; [| split].
  - intros self a_max vs ve c E t.
    apply (AccelCurveFacts.reset_inv j_max j_max_pos) in E
      as (_ & _ & Ht0 & H1 & H2 & H3 & _).
    apply AccelCurveFacts.outside_range; lra.
  - intros self a_max vs vsat vt dist xs ts d log E t.
    apply designer_reset_inv in E
      as (vm & ve & Ea & Ed & _ & _ & Hx0 & Hx3 & Ht0 & Ht1 & Ht2 & Ht3).
    unfold AccelCurve.make in Ea, Ed.
    apply (AccelCurveFacts.reset_inv j_max j_max_pos) in Ea
      as (_ & _ & Ha0 & Ha1 & Ha2 & Ha3 & Hav0 & _ & Hax0 & _).
    apply (AccelCurveFacts.reset_inv j_max j_max_pos) in Ed
      as (_ & _ & Hd0 & Hd1 & Hd2 & Hd3 & _).
    unfold j, a, v, x, v_end, AccelCurve.v_end, AccelCurve.x_end.
    split.
    + intros Hlt0 Hlt2.
      destruct (Rlt_dec t (t2 d)) as [_ |]; [| contradiction].
      destruct (AccelCurveFacts.outside_range j_max (ac d) (t - t0 d))
        as [(Ej & Eacc & Ev & Ex) _]; try lra.
      rewrite Ej, Eacc, Ev, Ex, Hav0, Hax0, Ha0.
      repeat split; try reflexivity. lra.
    + intro Hgt.
      unfold AccelCurve.t_end in Ht3.
      destruct (Rlt_dec t (t2 d)) as [| _]; [lra |].
      destruct (AccelCurveFacts.outside_range j_max (dc d) (t - t2 d))
        as [_ (Ej & Eacc & Ev & Ex)]; try lra.
      rewrite Ej, Eacc, Ev, Ex.
      repeat split; try reflexivity. rewrite Ht3. lra.
  - intros t Ht.
    assert (forall s, s <> 0 ->
              AccelCurve.j j_max AccelCurve.empty s = 0 /\
              AccelCurve.a AccelCurve.empty s = 0 /\
              AccelCurve.v AccelCurve.empty s = 0 /\
              AccelCurve.x AccelCurve.empty s = 0) as Hempty.
    { intros s Hs.
      destruct (AccelCurveFacts.outside_range j_max AccelCurve.empty s)
        as [Hl Hr]; try (cbn; lra).
      cbn [AccelCurve.empty AccelCurve.t0 AccelCurve.t3 AccelCurve.v0
           AccelCurve.v3 AccelCurve.x0 AccelCurve.x3] in Hl, Hr.
      destruct (Rlt_dec s 0) as [Hneg | Hpos].
      - destruct (Hl Hneg) as (-> & -> & -> & ->). repeat split; lra.
      - destruct (Hr ltac:(lra)) as (-> & -> & -> & ->). repeat split; lra. }
    split; [apply Hempty; exact Ht |].
    unfold j, a, v, x, empty. cbn [t0 t2 x0 x3 ac dc].
    change (AccelCurve.x_end AccelCurve.empty) with 0.
    assert (t - 0 <> 0) as Ht' by lra.
    destruct (Hempty (t - 0) Ht') as (-> & -> & -> & ->).
    destruct (Rlt_dec t 0); repeat split; lra.
Qed.

(** C6, as the code has it.  For [a_max > 0] and a velocity [vel] other
    than zero, [reset(a_max, vel, vel, vel, 0, x_start, t_start)] returns a
    profile with [t_end() = t_start] and [x_end() = x_start]; the warning
    for a distance that is not positive is written, since the guard is
    [distance <= 0], and it is the only diagnostic. *)
Theorem reset_zero_distance (self : obj) (a_max vel xs ts : R) :
  0 < a_max -> vel <> 0 ->
  exists d,
    reset j_max self a_max vel vel vel 0 xs ts = Ok (d, [NegativeDistance]) /\
    t_end d = ts /\ x_end d = xs.
Proof.
  intros Ha Hv. eexists. split.
  - apply reset_zero_motion; [assumption | lra | assumption].
  - split; reflexivity.
Qed.

(** C10.  The cruise duration divides by the peak velocity without a guard:
    whenever the planned peak velocity is zero the division fails.  For
    every [a_max > 0], [reset(a_max, 0, 0, 0, 0)] plans a peak velocity of
    zero and then divides by it: the division is the one that fails, and
    no profile with real boundary instants is returned. *)
Theorem cruise_division_by_zero (self : obj) (a_max xs ts : R) :
  0 < a_max ->
  (forall p, p_v_max p = 0 -> layout p xs ts = Fail DivByZero) /\
  (exists p,
     plan j_max self a_max 0 0 0 0 = Ok (p, [NegativeDistance]) /\
     p_v_max p = 0 /\
     fdiv (p_distance p - AccelCurve.x_end (p_ac p)
           - AccelCurve.x_end (p_dc p)) (p_v_max p) = Fail DivByZero /\
     layout p xs ts = Fail DivByZero) /\
  reset j_max self a_max 0 0 0 0 xs ts = Fail DivByZero /\
  (forall d log, reset j_max self a_max 0 0 0 0 xs ts <> Ok (d, log)).
Proof.
  intro Ha.
  destruct (reset_zero_motion_fault self a_max 0 0 0 xs ts Ha (Rle_refl 0))
    as [Ep Er].
  split; [| split; [| split]].
  - intros p Hp. apply layout_fault_iff. exact Hp.
  - eexists. split; [exact Ep |].
    cbn [p_v_max p_distance p_ac p_dc].
    split; [reflexivity |]. split; [apply fdiv_zero |].
    unfold layout. cbn [p_v_max]. rewrite fdiv_zero. reflexivity.
  - exact Er.
  - intros d log. rewrite Er. discriminate.
Qed.

End Jerk.

(** *** The scenario of the test program *)

Lemma scenario_brake (self : AccelCurve.obj) :
  AccelCurve.reset 240000 self 3600 720 0 = Ok scenario_dc.
Proof.
  assert (0 < 240000) as Hj by lra.
  assert (0 < 3600) as Ha by lra.
  pose proof (AccelCurveFacts.reset_plateau 240000 Hj self 3600 720 0 Ha) as E.
  cbv zeta in E. rewrite !signed_down in E by lra.
  rewrite <- !opp_IZR in E. cbn [Z.opp] in E.
  rewrite E by lra. unfold scenario_dc. do 2 f_equal; lra.
Qed.

Lemma scenario_reset (self : obj) :
  reset 240000 self 3600 720 720 0 90 0 0 = Ok (scenario, []).
Proof.
  assert (0 < 240000) as Hj by lra.
  assert (0 < 3600) as Ha by lra.
  unfold reset, plan.
  replace (fmax3 720 720 0) with 720
    by (unfold fmax3; rewrite fmax_same; unfold fmax;
        destruct (Rlt_dec 720 0); [lra | reflexivity]).
  destruct (Rle_dec 90 0) as [| _]; [lra |].
  cbn [mbind mret app].
  unfold AccelCurve.calcMinDistance, AccelCurve.make.
  rewrite !scenario_brake. cbn [rbind lift mbind app].
  change (AccelCurve.x_end scenario_dc) with 77.4.
  destruct (Rlt_dec 90 77.4) as [| _]; [lra |].
  cbn [mbind mret app].
  rewrite AccelCurveFacts.reset_same by assumption.
  cbn [mbind lift app].
  rewrite scenario_brake. cbn [mbind lift app].
  change (AccelCurve.x_end (still 240000 3600 720)) with 0.
  change (AccelCurve.x_end scenario_dc) with 77.4.
  destruct (Rlt_dec 90 (0 + 77.4)) as [| _]; [lra |].
  cbn [mbind mret app].
  change (AccelCurve.x_end (still 240000 3600 720)) with 0.
  change (AccelCurve.x_end scenario_dc) with 77.4.
  destruct (Rlt_dec (90 + 0.1) (0 + 77.4)) as [| _]; [lra |].
  cbn [mbind mret app]. unfold layout.
  cbn [p_v_max p_v_end p_ac p_dc p_distance].
  change (AccelCurve.x_end (still 240000 3600 720)) with 0.
  change (AccelCurve.t_end (still 240000 3600 720)) with 0.
  change (AccelCurve.x_end scenario_dc) with 77.4.
  change (AccelCurve.t_end scenario_dc) with 0.215.
  rewrite fdiv_ok by lra. cbn [mbind lift app].
  replace ((90 - 0 - 77.4) / 720) with 0.0175 by lra.
  rewrite time_points_ok_true by lra.
  cbn [mbind mret app]. unfold scenario.
  do 2 f_equal. f_equal; lra.
Qed.

(** C8.  With [j_max = 240000], [reset(3600, 720, 720, 0, 90, 0, 0)]
    returns without any diagnostic a profile whose boundary instants are
    weakly increasing, whose [x_end()] is 90 within 0.1, and whose velocity
    stays between 0 and 720 at every instant of [[t0, t3]]. *)
Theorem scenario_profile (self : obj) :
  exists d,
    reset 240000 self 3600 720 720 0 90 0 0 = Ok (d, []) /\
    t0 d <= t1 d /\ t1 d <= t2 d /\ t2 d <= t3 d /\
    Rabs (x_end d - 90) <= 0.1 /\
    forall t, t0 d <= t <= t3 d -> 0 <= v d t <= 720.
Proof.
  exists scenario. split; [apply scenario_reset |].
  unfold scenario, x_end. cbn [t0 t1 t2 t3 x3].
  split; [lra |]. split; [lra |]. split; [lra |]. split.
  - replace (90 - 90) with 0 by lra. rewrite Rabs_R0. lra.
  - intros t [Hlo Hhi]. unfold v. cbn [t0 t2 ac dc].
    destruct (Rlt_dec t 0.0175) as [Hlt | Hge].
    + unfold AccelCurve.v, still. unfold_members.
      repeat decide_cmp.
    + unfold AccelCurve.v, scenario_dc. unfold_members.
      repeat decide_cmp; nra.
Qed.

(** The same scenario for any maximum jerk from 72000 on, which leaves room
    for a cruise: the deceleration curve has a phase of constant
    acceleration, ends at [72 + 360 tc] and lasts [0.2 + tc], where
    [tc = 3600 / j_max]. *)
Lemma scenario_any_jerk (j_max : R) (self : obj) :
  72000 <= j_max ->
  exists d,
    reset j_max self 3600 720 720 0 90 0 0 = Ok (d, []) /\
    t0 d <= t1 d /\ t1 d <= t2 d /\ t2 d <= t3 d /\
    Rabs (x_end d - 90) <= 0.1 /\
    forall t, t0 d <= t <= t3 d -> 0 <= v d t <= 720.
Proof.
  intro Hj72.
  assert (0 < j_max) as Hj by lra.
  assert (0 < 3600) as Ha by lra.
  set (tc := 3600 / j_max).
  assert (0 < tc) as Htc by (apply Rdiv_lt_0_compat; lra).
  assert (j_max * tc = 3600) as Hjt by (unfold tc; field; lra).
  assert (tc <= 0.05) as Htc5 by nra.
  assert (forall s, exists c,
            AccelCurve.reset j_max s 3600 720 0 = Ok c /\
            AccelCurve.t0 c = 0 /\ AccelCurve.t1 c = tc /\
            AccelCurve.t2 c = 0.2 /\ AccelCurve.t3 c = 0.2 + tc /\
            AccelCurve.v0 c = 720 /\ AccelCurve.v1 c = 720 - 1800 * tc /\
            AccelCurve.v3 c = 0 /\ AccelCurve.jm c = - j_max /\
            AccelCurve.am c = -3600 /\
            AccelCurve.x3 c = 72 + 360 * tc) as Hdc.
  { intro s.
    pose proof (AccelCurveFacts.reset_plateau j_max Hj s 3600 720 0 Ha) as E.
    cbv zeta in E. rewrite !signed_down in E by lra.
    rewrite <- !opp_IZR in E. cbn [Z.opp] in E. fold tc in E.
    eexists. split; [apply E; lra |].
    cbn [AccelCurve.t0 AccelCurve.t1 AccelCurve.t2 AccelCurve.t3
         AccelCurve.v0 AccelCurve.v1 AccelCurve.v3 AccelCurve.jm
         AccelCurve.am AccelCurve.x3].
    repeat split; try lra; nra. }
  destruct (Hdc AccelCurve.empty)
    as (c0 & E0 & _ & _ & _ & _ & _ & _ & _ & _ & _ & Hx0).
  destruct (Hdc (dc self))
    as (c & Ec & Hc0 & Hc1 & Hc2 & Hc3 & Hv0 & Hv1 & Hv3 & Hjm & Ham & Hx3).
  unfold reset, plan.
  replace (fmax3 720 720 0) with 720
    by (unfold fmax3; rewrite fmax_same; unfold fmax;
        destruct (Rlt_dec 720 0); [lra | reflexivity]).
  destruct (Rle_dec 90 0) as [| _]; [lra |].
  cbn [mbind mret app].
  unfold AccelCurve.calcMinDistance, AccelCurve.make.
  rewrite E0. cbn [rbind lift mbind app].
  unfold AccelCurve.x_end. rewrite Hx0.
  destruct (Rlt_dec 90 (72 + 360 * tc)) as [| _]; [lra |].
  cbn [mbind mret app].
  rewrite AccelCurveFacts.reset_same by assumption.
  cbn [mbind lift app]. rewrite Ec. cbn [mbind lift app].
  change (AccelCurve.x3 (still j_max 3600 720)) with 0. rewrite Hx3.
  destruct (Rlt_dec 90 (0 + (72 + 360 * tc))) as [| _]; [lra |].
  cbn [mbind mret app].
  change (AccelCurve.x3 (still j_max 3600 720)) with 0. rewrite Hx3.
  destruct (Rlt_dec (90 + 0.1) (0 + (72 + 360 * tc))) as [| _]; [lra |].
  cbn [mbind mret app]. unfold layout.
  cbn [p_v_max p_v_end p_ac p_dc p_distance].
  unfold AccelCurve.x_end, AccelCurve.t_end.
  change (AccelCurve.x3 (still j_max 3600 720)) with 0.
  change (AccelCurve.t3 (still j_max 3600 720)) with 0.
  rewrite Hx3, Hc3.
  rewrite fdiv_ok by lra. cbn [mbind lift app].
  rewrite time_points_ok_true by lra.
  cbn [mbind mret app].
  eexists. split; [reflexivity |].
  unfold x_end. cbn [t0 t1 t2 t3 x3].
  split; [lra |]. split; [lra |]. split; [lra |]. split.
  - replace (0 + 90 - 90) with 0 by lra. rewrite Rabs_R0. lra.
  - intros t [Hlo Hhi]. unfold v. cbn [t0 t2 ac dc].
    destruct (Rlt_dec t _) as [Hlt | Hge].
    + unfold AccelCurve.v, still.
      cbn [AccelCurve.t0 AccelCurve.t1 AccelCurve.t2 AccelCurve.t3
           AccelCurve.v0 AccelCurve.v1 AccelCurve.v3
           AccelCurve.jm AccelCurve.am].
      repeat decide_cmp.
    + unfold AccelCurve.v. rewrite Hc0, Hc1, Hc2, Hc3, Hv0, Hv1, Hv3, Hjm, Ham.
      set (s := t - (0 + 0 + (90 - 0 - (72 + 360 * tc)) / 720)) in *.
      repeat decide_cmp.
      * assert (s * s <= tc * tc) by nra.
        assert (j_max * (s * s) <= j_max * (tc * tc)) by nra.
        assert (0 <= j_max * (s * s)) by nra. nra.
      * assert (hx: (s - (0.2 + tc)) * (s - (0.2 + tc)) <= tc * tc) by nra.
        assert (j_max * ((s - (0.2 + tc)) * (s - (0.2 + tc)))
                <= j_max * (tc * tc)) by nra.
        assert (0 <= j_max * ((s - (0.2 + tc)) * (s - (0.2 + tc)))) by nra. nra.
Qed.

(** In particular with the maximum jerk of the header. *)
Lemma scenario_profile_header (self : obj) :
  exists d,
    reset AccelCurve.j_max self 3600 720 720 0 90 0 0 = Ok (d, []) /\
    t0 d <= t1 d /\ t1 d <= t2 d /\ t2 d <= t3 d /\
    Rabs (x_end d - 90) <= 0.1 /\
    forall t, t0 d <= t <= t3 d -> 0 <= v d t <= 720.
Proof.
  apply scenario_any_jerk. unfold AccelCurve.j_max. lra.
Qed.

(** *** Concrete runs *)


(** C2, as the spec has it, fails for the position: on the curve built by
    [reset(1, 1, 2)], whose [t0] and [x0] are zero, the position at the
    instant [-1] is [-1], not [x0]. *)
Lemma position_not_clamped :
  exists c,
    AccelCurve.reset AccelCurve.j_max AccelCurve.empty 1 1 2 = Ok c /\
    -1 < AccelCurve.t0 c /\
    AccelCurve.x c (-1) = -1 /\ AccelCurve.x0 c = 0 /\
    AccelCurve.x c (-1) <> AccelCurve.x0 c.
Proof.
  destruct (AccelCurveFacts.reset_spec AccelCurve.j_max header_j_max_pos
              AccelCurve.empty 1 1 2 ltac:(lra))
    as (c & E & _ & _ & Ht0 & _ & _ & _ & Hv0 & _ & Hx0 & _).
  exists c. split; [exact E |].
  unfold AccelCurve.x. rewrite Ht0, Hx0, Hv0.
  destruct (Rle_dec (-1) 0) as [_ |]; [| lra].
  repeat split; lra.
Qed.

(** The condition on [t2] in the left ray of a profile is needed:
    [reset(1, -1, -1, -2, 1, 0, 0)], with velocities below zero, puts the
    whole deceleration before [t0] (and reports the time points), and at
    the instant [-2], before [t0 = 0], the acceleration is [-1]. *)
Lemma left_ray_needs_t2 :
  exists d log,
    reset AccelCurve.j_max empty 1 (-1) (-1) (-2) 1 0 0 = Ok (d, log) /\
    log = [TimePoint] /\
    t2 d < t0 d /\ -2 < t0 d /\ a d (-2) = -1.
Proof.
  pose proof header_j_max_pos as Hj. unfold AccelCurve.j_max in *.
  assert (0 < 1) as Ha by lra.
  assert (forall self,
            exists c,
              AccelCurve.reset 500000 self 1 (-1) (-2) = Ok c /\
              AccelCurve.x_end c = -1.500003 /\
              AccelCurve.t_end c = 1.000002 /\
              AccelCurve.t0 c = 0 /\ AccelCurve.t1 c = 0.000002 /\
              AccelCurve.t2 c = 1 /\ AccelCurve.am c = -1) as Hdc.
  { intro self.
    pose proof (AccelCurveFacts.reset_plateau 500000 Hj self 1 (-1) (-2) Ha)
      as E.
    cbv zeta in E. rewrite !signed_down in E by lra.
    rewrite <- !opp_IZR in E. cbn [Z.opp] in E.
    eexists. split; [apply E; lra |].
    cbn [AccelCurve.x_end AccelCurve.t_end AccelCurve.x3 AccelCurve.t3
         AccelCurve.t0 AccelCurve.t1 AccelCurve.t2 AccelCurve.am].
    repeat split; lra. }
  destruct (Hdc AccelCurve.empty) as (c0 & E0 & Hx0 & _).
  destruct (Hdc (dc empty)) as (c & Ec & Hx & Ht & Hc0 & Hc1 & Hc2 & Ham).
  unfold reset, plan.
  replace (fmax3 (-1) (-1) (-2)) with (-1)
    by (unfold fmax3; rewrite fmax_same; unfold fmax;
        destruct (Rlt_dec (-1) (-2)); [lra | reflexivity]).
  destruct (Rle_dec 1 0) as [| _]; [lra |].
  cbn [mbind mret app].
  unfold AccelCurve.calcMinDistance, AccelCurve.make.
  rewrite E0. cbn [rbind lift mbind app]. rewrite Hx0.
  destruct (Rlt_dec 1 (-1.500003)) as [| _]; [lra |].
  cbn [mbind mret app].
  rewrite AccelCurveFacts.reset_same by assumption.
  cbn [mbind lift app]. rewrite Ec. cbn [mbind lift app].
  change (AccelCurve.x_end (still 500000 1 (-1))) with 0. rewrite Hx.
  destruct (Rlt_dec 1 (0 + -1.500003)) as [| _]; [lra |].
  cbn [mbind mret app].
  change (AccelCurve.x_end (still 500000 1 (-1))) with 0. rewrite Hx.
  destruct (Rlt_dec (1 + 0.1) (0 + -1.500003)) as [| _]; [lra |].
  cbn [mbind mret app]. unfold layout.
  cbn [p_v_max p_v_end p_ac p_dc p_distance].
  change (AccelCurve.x_end (still 500000 1 (-1))) with 0.
  change (AccelCurve.t_end (still 500000 1 (-1))) with 0.
  rewrite Hx, Ht.
  rewrite fdiv_ok by lra. cbn [mbind lift app].
  replace ((1 - 0 - -1.500003) / -1) with (-2.500003) by lra.
  unfold time_points_ok.
  destruct (Rle_dec 0 (0 + 0 + 0.001)) as [_ |]; [| lra].
  destruct (Rle_dec (0 + 0) (0 + 0 + -2.500003 + 0.001)) as [| _]; [lra |].
  cbn [mbind cerr mret app].
  eexists _, _. split; [reflexivity |]. split; [reflexivity |].
  unfold a. cbn [t0 t2 ac dc].
  split; [lra |]. split; [lra |].
  destruct (Rlt_dec (-2) (0 + 0 + -2.500003)) as [| _]; [lra |].
  unfold AccelCurve.a. rewrite Hc0, Hc1, Hc2, Ham.
  repeat decide_cmp.
Qed.

Lemma evaluators_outside_range_witness :
  0 < 240000 /\
  (AccelCurve.j 240000 scenario_dc (-1) = 0 /\
   AccelCurve.a scenario_dc (-1) = 0 /\
   AccelCurve.v scenario_dc (-1) = 720 /\
   AccelCurve.x scenario_dc (-1) = 0 + 720 * (-1 - 0)) /\
  (j 240000 scenario 1 = 0 /\ a scenario 1 = 0 /\
   v scenario 1 = 0 /\ x scenario 1 = 90 + 0 * (1 - 0.2325)).
Proof.
  assert (0 < 240000) as Hj by lra.
  split; [exact Hj |].
  destruct (evaluators_outside_range 240000 Hj) as (Hc & Hd & _).
  split.
  - apply (Hc AccelCurve.empty 3600 720 0 scenario_dc
              (scenario_brake AccelCurve.empty) (-1)).
    unfold scenario_dc. cbn [AccelCurve.t0]. lra.
  - apply (Hd empty 3600 720 720 0 90 0 0 scenario []
              (scenario_reset empty) 1).
    unfold scenario. cbn [t3]. lra.
Defined.

(** C6, as the spec has it, fails: [reset(1, 1, 1, 1, 0, 0, 0)] writes the
    warning for a distance that is not positive. *)
Lemma zero_distance_warns :
  exists d log,
    reset AccelCurve.j_max empty 1 1 1 1 0 0 0 = Ok (d, log) /\
    log = [NegativeDistance] /\ log <> [].
Proof.
  eexists _, _. split.
  - apply (reset_zero_motion AccelCurve.j_max header_j_max_pos); lra.
  - split; [reflexivity | discriminate].
Qed.

Lemma reset_zero_distance_witness :
  0 < AccelCurve.j_max /\ 0 < 3600 /\ 720 <> 0 /\
  exists d,
    reset AccelCurve.j_max empty 3600 720 720 720 0 5 2
      = Ok (d, [NegativeDistance]) /\
    t_end d = 2 /\ x_end d = 5.
Proof.
  assert (0 < 3600) as Ha by lra.
  assert (720 <> 0) as Hv by lra.
  split; [exact header_j_max_pos | split; [exact Ha | split; [exact Hv |]]].
  exact (reset_zero_distance AccelCurve.j_max header_j_max_pos
           empty 3600 720 5 2 Ha Hv).
Defined.

(** C7 at an input where it fails.  [reset(3600, 0, 720, 0, -1, 0, 0)],
    a start from rest: the warning is written and the inputs are clamped
    to [v_end = v_max = v_start = 0] and [distance = 0], and the cruise
    duration then divides zero by the peak velocity zero, so the call does
    not return a profile with real boundary instants.  From a start
    velocity other than zero the same call returns the profile of zero
    duration. *)
Theorem negative_distance_from_rest :
  plan AccelCurve.j_max empty 3600 0 720 0 (-1)
    = Ok (mkplan 0 0 (still AccelCurve.j_max 3600 0)
                 (still AccelCurve.j_max 3600 0) 0,
          [NegativeDistance]) /\
  reset AccelCurve.j_max empty 3600 0 720 0 (-1) 0 0 = Fail DivByZero /\
  reset AccelCurve.j_max empty 3600 720 720 0 (-1) 0 0
    = Ok (mk 0 0 0 0 0 0 (still AccelCurve.j_max 3600 720)
             (still AccelCurve.j_max 3600 720),
          [NegativeDistance]).
Proof.
  destruct (reset_zero_motion_fault AccelCurve.j_max header_j_max_pos empty
              3600 720 0 (-1) 0 0) as [Ep Er]; try lra.
  split; [exact Ep | split; [exact Er |]].
  apply (reset_zero_motion AccelCurve.j_max header_j_max_pos); lra.
Qed.

Lemma cruise_division_by_zero_witness :
  0 < AccelCurve.j_max /\ 0 < 3600 /\
  reset AccelCurve.j_max empty 3600 0 0 0 0 0 0 = Fail DivByZero.
Proof.
  assert (0 < 3600) as Ha by lra.
  split; [exact header_j_max_pos | split; [exact Ha |]].
  exact (proj1 (proj2 (proj2 (cruise_division_by_zero
                                AccelCurve.j_max header_j_max_pos
                                empty 3600 0 0 Ha)))).
Defined.

End AccelDesignerFacts.

(** ** The end position in binary32 *)

Module Float32Facts.

Import SpecFloat Float32 Float32.AccelDesigner.
Local Open Scope f32_scope.

(** A positive [float] fails the test [distance <= 0]. *)
Lemma positive_not_leb (d : float) : (#0 <? d) = true -> (d <=? #0) = false.
Proof. destruct d as [s | s | | s m e]; try destruct s; cbn; congruence. Qed.

(** Adding a positive [float] to a zero, and taking the zero away again,
    rounds nothing. *)
Lemma add_zero_l (s : bool) (d : float) :
  (#0 <? d) = true -> S754_zero s + d = d.
Proof. destruct d as [s' | s' | | s' m e]; cbn; congruence. Qed.

Lemma sub_zero_r (s : bool) (d : float) :
  (#0 <? d) = true -> d - S754_zero s = d.
Proof. destruct d as [s' | s' | | s' m e]; cbn; congruence. Qed.

Lemma planned_of_positive (d : float) : (#0 <? d) = true -> planned d = d.
Proof. intro H. unfold planned. now rewrite positive_not_leb. Qed.

Section Platform.

Variable P : AccelCurve.platform.

(** [reset] changes its argument [distance] in one place only, the branch
    for a distance that is not positive. *)
Lemma plan_distance (self : obj)
    (a_max v_start v_sat v_target distance : float) :
  p_distance (fst (plan P self a_max v_start v_sat v_target distance))
  = planned distance.
Proof.
  unfold plan, planned.
  destruct (distance <=? #0);
    repeat match goal with
           | |- context [if ?c then _ else _] => destruct c
           | |- context [let '(_, _) := ?c in _] => destruct c
           end; reflexivity.
Qed.

(** The members [x0] and [x3] after [reset]: the start position, and the
    rounded sum of the start position and the planned distance. *)
Lemma reset_ends (self : obj)
    (a_max v_start v_sat v_target distance x_start t_start : float) :
  x0 (fst (reset P self a_max v_start v_sat v_target distance
                 x_start t_start)) = x_start /\
  x3 (fst (reset P self a_max v_start v_sat v_target distance
                 x_start t_start)) = x_start + planned distance.
Proof.
  unfold reset.
  pose proof (plan_distance self a_max v_start v_sat v_target distance) as Hd.
  destruct (plan P self a_max v_start v_sat v_target distance) as [p log].
  cbn [fst] in Hd. unfold layout. cbn [fst x0 x3].
  rewrite Hd. split; reflexivity.
Qed.

(** C1, as the code has it.  After [reset] with [distance > 0], on every
    platform and whatever the object held before, [x0] is [x_start] and
    [x_end()] is the binary32 sum [x_start + distance]: the sum rounded to
    nearest.  With [x_start] zero, the default argument, nothing is
    rounded and [x_end() - x_start] and [x_end() - x0] are [distance]. *)
Theorem x_end_is_rounded_sum (self : obj)
    (a_max v_start v_sat v_target distance x_start t_start : float) :
  (#0 <? distance) = true ->
  x0 (fst (reset P self a_max v_start v_sat v_target distance
                 x_start t_start)) = x_start /\
  x_end (fst (reset P self a_max v_start v_sat v_target distance
                    x_start t_start)) = x_start + distance /\
  (forall s : bool, x_start = S754_zero s ->
     x_end (fst (reset P self a_max v_start v_sat v_target distance
                       x_start t_start)) - x_start = distance /\
     x_end (fst (reset P self a_max v_start v_sat v_target distance
                       x_start t_start))
     - x0 (fst (reset P self a_max v_start v_sat v_target distance
                      x_start t_start)) = distance).
Proof.
  intro Hd.
  destruct (reset_ends self a_max v_start v_sat v_target distance
              x_start t_start) as [H0 H3].
  unfold x_end. rewrite H0, H3, planned_of_positive by assumption.
  split; [reflexivity | split; [reflexivity |]].
  intros s ->. rewrite add_zero_l, sub_zero_r by assumption.
  split; reflexivity.
Qed.

End Platform.

(** The run [reset(3600, 720, 720, 0, 90)] with the default [x_start] and
    [t_start], on every platform and on every object. *)
Lemma x_end_is_rounded_sum_witness :
  (#0 <? #90) = true /\
  forall (P : AccelCurve.platform) (self : obj),
    x0 (fst (reset P self #3600 #720 #720 #0 #90 #0 #0)) = #0 /\
    x_end (fst (reset P self #3600 #720 #720 #0 #90 #0 #0)) = #0 + #90 /\
    (forall s : bool, #0 = S754_zero s ->
       x_end (fst (reset P self #3600 #720 #720 #0 #90 #0 #0)) - #0 = #90 /\
       x_end (fst (reset P self #3600 #720 #720 #0 #90 #0 #0))
       - x0 (fst (reset P self #3600 #720 #720 #0 #90 #0 #0)) = #90).
Proof.
  split; [reflexivity |].
  intros P self.
  apply (x_end_is_rounded_sum P self #3600 #720 #720 #0 #90 #0 #0).
  reflexivity.
Defined.

(** C1, as the spec has it, fails where the sum rounds.  At
    [x_start = 1e9] the binary32 numbers are 64 apart: the run
    [reset(3600, 720, 720, 0, 90, 1e9, 0)], whose distance is positive and
    exceeds [calcMinDistance(3600, 720, 0)], ends at [x_end() = 1e9 + 64],
    on every platform and on every object, so [x_end() - x_start] and
    [x_end() - x0] are 64, further than 0.1 from the distance 90. *)
Lemma rounded_sum_misses_distance :
  (#0 <? #90) = true /\
  (fun P : AccelCurve.platform =>
     AccelCurve.calcMinDistance P #3600 #720 #0 <? #90)
  = (fun _ => true) /\
  (fun (P : AccelCurve.platform) (self : obj) =>
     x_end (fst (reset P self #3600 #720 #720 #0 #90 #1000000000 #0))
     - #1000000000)
  = (fun _ _ => #64) /\
  (fun (P : AccelCurve.platform) (self : obj) =>
     x_end (fst (reset P self #3600 #720 #720 #0 #90 #1000000000 #0))
     - x0 (fst (reset P self #3600 #720 #720 #0 #90 #1000000000 #0)))
  = (fun _ _ => #64) /\
  (lit_0_1 <? abs (#64 - #90)) = true.
Proof. repeat split; vm_compute; reflexivity. Qed.

End Float32Facts.

(** ** Purity of the evaluators *)

Module EvaluatorCalls.

(** Not every call hands the object and the stream back as it took them:
    assigning to the members and writing to the stream are seen in what is
    handed back. *)
Lemma emit_not_pure (O : Type) (d : diag) (w : world O) :
  snd (emit d w) <> w.
Proof.
  destruct w as [o l]. unfold emit. cbn. intro H.
  apply (f_equal cerr_out) in H. cbn in H.
  apply (f_equal (@length diag)) in H. rewrite length_app in H.
  cbn in H. lia.
Qed.

Lemma assign_not_pure (c : AccelCurve.obj) (l : list diag) :
  AccelCurve.jm c <> 0 ->
  snd (assign (fun _ => AccelCurve.empty) (mkworld c l)) <> mkworld c l.
Proof.
  intros Hc H. unfold assign in H. cbn in H.
  apply (f_equal this) in H. cbn in H. apply Hc. rewrite <- H. reflexivity.
Qed.

Ltac run_body :=
  cbv beta iota delta [bind member ret fst snd];
  repeat (match goal with
          | |- context [Rle_dec ?a ?b] => destruct (Rle_dec a b)
          | |- context [Rlt_dec ?a ?b] => destruct (Rlt_dec a b)
          end;
          cbv beta iota delta [bind member ret fst snd]);
  try reflexivity.

(** Each evaluator of a curve hands the world back and returns what the
    function of the object and the instant returns. *)
Lemma curve_call_spec (j_max : R) (e : evaluator) (t : R)
    (w : world AccelCurve.obj) :
  curve_call j_max e t w = (curve_value j_max e (this w) t, w).
Proof.
  destruct e; unfold curve_call, curve_value.
  - unfold AccelCurveCalls.j, AccelCurve.j. run_body.
  - unfold AccelCurveCalls.a, AccelCurve.a. run_body.
  - unfold AccelCurveCalls.v, AccelCurve.v. run_body.
  - unfold AccelCurveCalls.x, AccelCurve.x. run_body.
Qed.

(** A pure call on a member object leaves the enclosing object as it
    was. *)
Lemma within_ac (A : Type) (m : call AccelCurve.obj A)
    (f : AccelCurve.obj -> A) (w : world AccelDesigner.obj) :
  (forall u, m u = (f (this u), u)) ->
  within AccelDesigner.ac AccelDesignerCalls.set_ac m w
  = (f (AccelDesigner.ac (this w)), w).
Proof.
  intro H. unfold within. rewrite H. cbn.
  destruct w as [[? ? ? ? ? ? ? ?] l]. reflexivity.
Qed.

Lemma within_dc (A : Type) (m : call AccelCurve.obj A)
    (f : AccelCurve.obj -> A) (w : world AccelDesigner.obj) :
  (forall u, m u = (f (this u), u)) ->
  within AccelDesigner.dc AccelDesignerCalls.set_dc m w
  = (f (AccelDesigner.dc (this w)), w).
Proof.
  intro H. unfold within. rewrite H. cbn.
  destruct w as [[? ? ? ? ? ? ? ?] l]. reflexivity.
Qed.

Lemma designer_call_spec (j_max : R) (e : evaluator) (t : R)
    (w : world AccelDesigner.obj) :
  designer_call j_max e t w = (designer_value j_max e (this w) t, w).
Proof.
  pose proof (curve_call_spec j_max) as Hc.
  destruct e; unfold designer_call, designer_value.
  - unfold AccelDesignerCalls.j, AccelDesigner.j.
    cbv beta iota delta [bind member ret].
    destruct (Rlt_dec _ _).
    + apply (within_ac R _ (fun c => AccelCurve.j j_max c _)).
      intro u. apply (Hc EvJ).
    + apply (within_dc R _ (fun c => AccelCurve.j j_max c _)).
      intro u. apply (Hc EvJ).
  - unfold AccelDesignerCalls.a, AccelDesigner.a.
    cbv beta iota delta [bind member ret].
    destruct (Rlt_dec _ _).
    + apply (within_ac R _ (fun c => AccelCurve.a c _)).
      intro u. apply (Hc EvA).
    + apply (within_dc R _ (fun c => AccelCurve.a c _)).
      intro u. apply (Hc EvA).
  - unfold AccelDesignerCalls.v, AccelDesigner.v.
    cbv beta iota delta [bind member ret].
    destruct (Rlt_dec _ _).
    + apply (within_ac R _ (fun c => AccelCurve.v c _)).
      intro u. apply (Hc EvV).
    + apply (within_dc R _ (fun c => AccelCurve.v c _)).
      intro u. apply (Hc EvV).
  - unfold AccelDesignerCalls.x, AccelDesigner.x.
    cbv beta iota delta [bind member ret].
    destruct (Rlt_dec _ _).
    + rewrite (within_ac R _ (fun c => AccelCurve.x c _))
        by (intro u; apply (Hc EvX)).
      reflexivity.
    + rewrite (within_dc R _ AccelCurve.x_end) by reflexivity.
      rewrite (within_dc R _ (fun c => AccelCurve.x c _))
        by (intro u; apply (Hc EvX)).
      reflexivity.
Qed.

End EvaluatorCalls.

(** C9.  A call of [j], [a], [v] or [x] on a curve or on a profile, run
    statement by statement on the object and the diagnostic stream,
    returns what the evaluator, as a function of the object and the
    instant, returns, and leaves the object and the stream as they were;
    so a second call of the same evaluator at the same instant, also after
    calls of other evaluators, returns the same value. *)
Theorem evaluators_pure (j_max : R) (e e' : evaluator) (t t' : R) :
  (forall w : world AccelCurve.obj,
     fst (curve_call j_max e t w) = curve_value j_max e (this w) t /\
     snd (curve_call j_max e t w) = w /\
     fst (curve_call j_max e t (snd (curve_call j_max e t w)))
       = fst (curve_call j_max e t w) /\
     fst (curve_call j_max e t (snd (curve_call j_max e' t' w)))
       = fst (curve_call j_max e t w)) /\
  (forall w : world AccelDesigner.obj,
     fst (designer_call j_max e t w) = designer_value j_max e (this w) t /\
     snd (designer_call j_max e t w) = w /\
     fst (designer_call j_max e t (snd (designer_call j_max e t w)))
       = fst (designer_call j_max e t w) /\
     fst (designer_call j_max e t (snd (designer_call j_max e' t' w)))
       = fst (designer_call j_max e t w)).
Proof.
  split; intro w.
  - rewrite !EvaluatorCalls.curve_call_spec. cbn [fst snd].
    repeat split; reflexivity.
  - rewrite !EvaluatorCalls.designer_call_spec. cbn [fst snd].
    repeat split; reflexivity.
Qed.

(** * Further properties *)

(** ** The shape of a curve *)

Module AccelCurveShape.
Import AccelCurve.

Section Jerk.

Variable j_max : R.
Hypothesis j_max_pos : 0 < j_max.

(** [reset(a_max, v_start, v_end)] when the velocity difference is reached
    before the acceleration is: the two-phase curve, with ramps of duration
    [r = sqrt (tc / am * (v_end - v_start))]. *)
Lemma reset_triangle (self : obj) (a_max vs ve : R) :
  0 < a_max ->
  let tc := a_max / j_max in
  let am := signed a_max vs ve in
  let jm := signed j_max vs ve in
  let tm := (ve - vs) / am - tc in
  let r := sqrt (tc / am * (ve - vs)) in
  tm <= 0 ->
  reset j_max self a_max vs ve =
  Ok (mk jm am 0 r r (r + r)
         vs (vs + 0.5 * jm * r * r) (vs + 0.5 * jm * r * r) ve
         0 (vs * r + jm / 6 * r * r * r) (vs * r + jm / 6 * r * r * r)
         ((vs + ve) / 2 * (r + r)) tc tm).
Proof.
  intros Ha tc am jm tm r Htm.
  destruct (AccelCurveFacts.calcTimeCurve_pos j_max j_max_pos a_max Ha)
    as [Etc Htc].
  unfold reset. rewrite Etc in *.
  fold (signed a_max vs ve). fold (signed j_max vs ve).
  fold tc am jm in Htc |- *.
  rewrite fdiv_ok by (now apply AccelCurveFacts.signed_nonzero).
  cbn [rbind]. fold tm. unfold reset_times.
  destruct (Rlt_dec 0 tm) as [| _]; [lra |].
  rewrite fdiv_ok by (now apply AccelCurveFacts.signed_nonzero).
  cbn [rbind].
  rewrite fsqrt_ok by (now apply AccelCurveFacts.tc_over_am_dv).
  cbn [rbind]. fold r.
  assert (0 <= r) as Hr by apply sqrt_pos.
  f_equal. unfold_members.
  destruct (Rle_dec (0 + r) 0) as [Hz | Hnz].
  - assert (r = 0) as -> by lra.
    repeat decide_cmp. f_equal; lra.
  - repeat decide_cmp. f_equal; lra.
Qed.

(** The shape of every curve built with [a_max > 0]: two ramps of equal
    duration [r] around a phase of constant acceleration of duration [m]
    (zero when there is none), and the boundary values written with them. *)
Lemma reset_shape (self : obj) (a_max vs ve : R) :
  0 < a_max ->
  exists c r m,
    reset j_max self a_max vs ve = Ok c /\
    0 <= r /\ 0 <= m /\
    t0 c = 0 /\ t1 c = r /\ t2 c = r + m /\ t3 c = r + m + r /\
    jm c = signed j_max vs ve /\ am c = signed a_max vs ve /\
    v0 c = vs /\ v3 c = ve /\
    v1 c = vs + 0.5 * jm c * r * r /\
    v2 c = v1 c + am c * m /\
    ve = v2 c + 0.5 * jm c * r * r /\
    (0 < m -> jm c * r = am c) /\
    Rabs (jm c * r) <= a_max /\
    x0 c = 0 /\
    x1 c = vs * r + jm c / 6 * r * r * r /\
    x2 c = x1 c + v1 c * m + am c / 2 * m * m /\
    x3 c = (vs + ve) / 2 * (r + m + r).
Proof.
  intro Ha.
  destruct (AccelCurveFacts.calcTimeCurve_pos j_max j_max_pos a_max Ha)
    as [_ Htc].
  unfold calcTimeCurve in Htc. rewrite Rabs_pos_eq in Htc by lra.
  set (tc := a_max / j_max) in *.
  assert (j_max * tc = a_max) as Hjt by (unfold tc; field; lra).
  set (am := signed a_max vs ve).
  set (jm := signed j_max vs ve).
  assert (jm * tc = am) as Hjm.
  { unfold jm, am, signed. destruct (Rlt_dec 0 (ve - vs)); lra. }
  assert (am <> 0) as Ham by (now apply AccelCurveFacts.signed_nonzero).
  assert (Rabs am = a_max) as Habs.
  { unfold am, signed. destruct (Rlt_dec 0 (ve - vs)).
    - apply Rabs_pos_eq; lra.
    - rewrite Rabs_Ropp. apply Rabs_pos_eq; lra. }
  assert (jm * tc * tc = am * tc) as Hjm2 by (rewrite Hjm; reflexivity).
  destruct (Rlt_dec 0 ((ve - vs) / am - tc)) as [Htm | Htm].
  - pose proof (AccelCurveFacts.reset_plateau j_max j_max_pos self a_max vs ve
                  Ha) as E.
    cbv zeta in E. fold tc am jm in E. specialize (E Htm).
    set (tm := (ve - vs) / am - tc) in *.
    assert (am * tm = ve - vs - am * tc) as Hamtm
      by (unfold tm; field; assumption).
    eexists _, tc, tm. split; [exact E |].
    cbn [t0 t1 t2 t3 AccelCurve.jm AccelCurve.am v0 v1 v2 v3 x0 x1 x2 x3].
    do 10 (split; [first [reflexivity | lra] |]).
    split; [reflexivity |]. split; [reflexivity |].
    split; [lra |].
    split; [intros _; exact Hjm |].
    split; [rewrite Hjm, Habs; lra |].
    do 3 (split; [reflexivity |]). reflexivity.
  - apply Rnot_lt_le in Htm.
    pose proof (reset_triangle self a_max vs ve Ha) as E.
    cbv zeta in E. fold tc am jm in E. specialize (E Htm).
    set (r := sqrt (tc / am * (ve - vs))) in *.
    assert (0 <= tc / am * (ve - vs)) as Hpos
      by (now apply AccelCurveFacts.tc_over_am_dv).
    assert (0 <= r) as Hr by apply sqrt_pos.
    assert (r * r = tc / am * (ve - vs)) as Hrr by (now apply sqrt_sqrt).
    assert (jm * r * r = ve - vs) as Hjr.
    { rewrite Rmult_assoc, Hrr.
      replace (jm * (tc / am * (ve - vs))) with (jm * tc / am * (ve - vs))
        by (field; assumption).
      rewrite Hjm. field. assumption. }
    assert (r <= tc) as Hrtc.
    { assert (r * r <= tc * tc) as Hsq.
      { rewrite Hrr.
        replace (tc / am * (ve - vs)) with (tc * ((ve - vs) / am))
          by (field; assumption).
        apply Rmult_le_compat_l; lra. }
      nra. }
    eexists _, r, 0. split; [exact E |].
    cbn [t0 t1 t2 t3 AccelCurve.jm AccelCurve.am v0 v1 v2 v3 x0 x1 x2 x3].
    do 10 (split; [first [reflexivity | lra] |]).
    split; [reflexivity |]. split; [lra |].
    split; [lra |].
    split; [intros Hm; lra |].
    split.
    { rewrite Rabs_mult, (Rabs_pos_eq r) by assumption.
      assert (Rabs jm = j_max) as ->.
      { unfold jm, signed. destruct (Rlt_dec 0 (ve - vs)).
        - apply Rabs_pos_eq; lra.
        - rewrite Rabs_Ropp. apply Rabs_pos_eq; lra. }
      nra. }
    do 2 (split; [reflexivity |]). split; [lra |]. f_equal. lra.
Qed.

End Jerk.
End AccelCurveShape.

(** ** Rates of change *)

(** A bound on the rate of change of [f] that holds up to [b] and from [b]
    up to [c] holds up to [c]. *)
Lemma rate_glue (f : R -> R) (lo hi b c : R) :
  (forall s t, s <= t -> t <= b ->
     lo * (t - s) <= f t - f s <= hi * (t - s)) ->
  (forall s t, b <= s -> s <= t -> t <= c ->
     lo * (t - s) <= f t - f s <= hi * (t - s)) ->
  forall s t, s <= t -> t <= c ->
    lo * (t - s) <= f t - f s <= hi * (t - s).
Proof.
  intros Hl Hr s t Hst Htc.
  destruct (Rle_dec t b) as [Htb | Htb]; [now apply Hl |].
  destruct (Rle_dec b s) as [Hbs | Hbs]; [now apply Hr |].
  pose proof (Hl s b ltac:(lra) ltac:(lra)).
  pose proof (Hr b t ltac:(lra) ltac:(lra) Htc).
  nra.
Qed.

(** The same with no upper end. *)
Lemma rate_glue_end (f : R -> R) (lo hi b : R) :
  (forall s t, s <= t -> t <= b ->
     lo * (t - s) <= f t - f s <= hi * (t - s)) ->
  (forall s t, b <= s -> s <= t ->
     lo * (t - s) <= f t - f s <= hi * (t - s)) ->
  forall s t, s <= t ->
    lo * (t - s) <= f t - f s <= hi * (t - s).
Proof.
  intros Hl Hr s t Hst.
  destruct (Rle_dec t b) as [Htb | Htb]; [now apply Hl |].
  destruct (Rle_dec b s) as [Hbs | Hbs]; [now apply Hr |].
  pose proof (Hl s b ltac:(lra) ltac:(lra)).
  pose proof (Hr b t ltac:(lra) ltac:(lra)).
  nra.
Qed.

(** A function made of a constant, a parabola opening upwards, a line of
    slope [a], a parabola opening downwards and a constant, which meet at
    [0], [r], [r + m] and [r + m + r], does not decrease and rises at most
    at the rate [a], when the slope [j r] at the end of the first parabola
    is at most [a] (and is [a] when there is a line). *)
Lemma ramp_rate (f : R -> R) (j a r m p q : R) :
  0 < j -> 0 < a -> 0 <= r -> 0 <= m ->
  j * r <= a -> (0 < m -> j * r = a) ->
  q = p + j * r * r + a * m ->
  (forall x, x <= 0 -> f x = p) ->
  (forall x, 0 <= x <= r -> f x = p + 0.5 * j * x * x) ->
  (forall x, r <= x <= r + m -> f x = p + 0.5 * j * r * r + a * (x - r)) ->
  (forall x, r + m <= x <= r + m + r ->
     f x = q - 0.5 * j * (x - (r + m + r)) * (x - (r + m + r))) ->
  (forall x, r + m + r <= x -> f x = q) ->
  forall s t, s <= t -> 0 * (t - s) <= f t - f s <= a * (t - s).
Proof.
  intros Hj Ha Hr Hm Hjr Hpl Hq F1 F2 F3 F4 F5.
  apply (rate_glue_end f 0 a (r + m + r)).
  - apply (rate_glue f 0 a (r + m)).
    + apply (rate_glue f 0 a r).
      * apply (rate_glue f 0 a 0).
        -- intros s t Hst Ht. rewrite !F1 by lra. nra.
        -- intros s t Hs Hst Ht. rewrite !F2 by lra.
           assert (0 <= (t - s) * (t + s)) by nra.
           assert ((t - s) * (t + s) <= (t - s) * (2 * r)) by nra.
           assert (j * ((t - s) * (t + s)) <= j * ((t - s) * (2 * r)))
             by (apply Rmult_le_compat_l; lra).
           assert (0 <= j * ((t - s) * (t + s)))
             by (apply Rmult_le_pos; lra).
           assert ((j * r) * (t - s) <= a * (t - s))
             by (apply Rmult_le_compat_r; lra).
           nra.
      * intros s t Hs Hst Ht. rewrite !F3 by lra. nra.
    + intros s t Hs Hst Ht. rewrite !F4 by lra.
      set (b := r + m + r) in *.
      assert (0 <= (t - s) * (2 * b - s - t)) by nra.
      assert ((t - s) * (2 * b - s - t) <= (t - s) * (2 * r))
        by (unfold b; nra).
      assert (j * ((t - s) * (2 * b - s - t)) <= j * ((t - s) * (2 * r)))
        by (apply Rmult_le_compat_l; lra).
      assert (0 <= j * ((t - s) * (2 * b - s - t)))
        by (apply Rmult_le_pos; lra).
      assert ((j * r) * (t - s) <= a * (t - s))
        by (apply Rmult_le_compat_r; lra).
      nra.
  - intros s t Hs Hst. rewrite !F5 by lra. nra.
Qed.

(** A function made of zero, a line of slope [k] from [0] to [r], a
    constant up to [r + m], a line of slope [- k] down to zero at
    [r + m + r], and zero, changes at most at the rate [j] when
    [- j <= k <= j]. *)
Lemma trapezoid_rate (f : R -> R) (j k r m : R) :
  - j <= k <= j -> 0 <= r -> 0 <= m ->
  (forall x, x <= 0 -> f x = 0) ->
  (forall x, 0 <= x <= r -> f x = k * x) ->
  (forall x, r <= x <= r + m -> f x = k * r) ->
  (forall x, r + m <= x <= r + m + r -> f x = k * (r + m + r - x)) ->
  (forall x, r + m + r <= x -> f x = 0) ->
  forall s t, s <= t -> - j * (t - s) <= f t - f s <= j * (t - s).
Proof.
  intros Hk Hr Hm F1 F2 F3 F4 F5.
  apply (rate_glue_end f (- j) j (r + m + r)).
  - apply (rate_glue f (- j) j (r + m)).
    + apply (rate_glue f (- j) j r).
      * apply (rate_glue f (- j) j 0).
        -- intros s t Hst Ht. rewrite !F1 by lra. nra.
        -- intros s t Hs Hst Ht. rewrite !F2 by lra. nra.
      * intros s t Hs Hst Ht. rewrite !F3 by lra. nra.
    + intros s t Hs Hst Ht. rewrite !F4 by lra. nra.
  - intros s t Hs Hst. rewrite !F5 by lra. nra.
Qed.

Lemma Rabs_le_between (x b : R) : Rabs x <= b -> - b <= x <= b.
Proof.
  intro H. pose proof (Rle_abs x). pose proof (Rle_abs (- x)) as H'.
  rewrite Rabs_Ropp in H'. lra.
Qed.

(** ** Velocity and acceleration along a curve *)

Module AccelCurveMotion.
Import AccelCurve.

(** Settle a goal at an instant [x] that the context pins to a boundary
    instant, with ramps of duration [r] and a middle phase of duration
    [m]. *)
Ltac pin x r m :=
  try (assert (m = 0) by lra);
  try (assert (r = 0) by lra);
  try (assert (x = 0) by lra);
  try (assert (x = r) by lra);
  try (assert (x = r + m) by lra);
  try (assert (x = r + m + r) by lra);
  subst; lra.

(** The velocity on each phase, boundary instants included on both
    sides. *)
Lemma v_pieces (c : obj) (r m vs ve : R) :
  0 <= r -> 0 <= m ->
  t0 c = 0 -> t1 c = r -> t2 c = r + m -> t3 c = r + m + r ->
  v0 c = vs -> v3 c = ve ->
  v1 c = vs + 0.5 * jm c * r * r ->
  ve = vs + jm c * r * r + am c * m ->
  (forall x, x <= 0 -> v c x = vs) /\
  (forall x, 0 <= x <= r -> v c x = vs + 0.5 * jm c * x * x) /\
  (forall x, r <= x <= r + m ->
     v c x = vs + 0.5 * jm c * r * r + am c * (x - r)) /\
  (forall x, r + m <= x <= r + m + r ->
     v c x = ve - 0.5 * jm c * (x - (r + m + r)) * (x - (r + m + r))) /\
  (forall x, r + m + r <= x -> v c x = ve).
Proof.
  intros Hr Hm H0 H1 H2 H3 Hv0 Hv3 Hv1 Hsum.
  unfold v. rewrite H0, H1, H2, H3, Hv0, Hv3, Hv1.
  clear H0 H1 H2 H3 Hv0 Hv3 Hv1.
  repeat split; intros x Hx; repeat decide_cmp; pin x r m.
Qed.

(** The acceleration on each phase, boundary instants included on both
    sides. *)
Lemma a_pieces (c : obj) (r m : R) :
  0 <= r -> 0 <= m ->
  t0 c = 0 -> t1 c = r -> t2 c = r + m -> t3 c = r + m + r ->
  (0 < m -> jm c * r = am c) ->
  (forall x, x <= 0 -> a c x = 0) /\
  (forall x, 0 <= x <= r -> a c x = jm c * x) /\
  (forall x, r <= x <= r + m -> a c x = jm c * r) /\
  (forall x, r + m <= x <= r + m + r ->
     a c x = jm c * (r + m + r - x)) /\
  (forall x, r + m + r <= x -> a c x = 0).
Proof.
  intros Hr Hm H0 H1 H2 H3 Hpl.
  unfold a. rewrite H0, H1, H2, H3. clear H0 H1 H2 H3.
  repeat split; intros x Hx; repeat decide_cmp;
    try (rewrite <- Hpl by lra); try lra; clear Hpl; pin x r m.
Qed.

Lemma lipschitz_continuity (f : R -> R) (k : R) :
  0 < k ->
  (forall s t, Rabs (f t - f s) <= k * Rabs (t - s)) ->
  continuity f.
Proof.
  intros Hk Hl x. unfold continuity_pt, continue_in, limit1_in, limit_in.
  intros eps Heps. exists (eps / k). split.
  - apply Rdiv_lt_0_compat; assumption.
  - intros y [_ Hy]. simpl in *. unfold Rdist in *.
    apply Rle_lt_trans with (k * Rabs (y - x)); [apply Hl |].
    apply Rmult_lt_reg_r with (/ k); [now apply Rinv_0_lt_compat |].
    replace (k * Rabs (y - x) * / k) with (Rabs (y - x)) by (field; lra).
    exact Hy.
Qed.

(** A bound on the rate of change for ordered instants bounds the change
    between any two instants. *)
Lemma rate_abs (f : R -> R) (k : R) :
  (forall s t, s <= t -> - k * (t - s) <= f t - f s <= k * (t - s)) ->
  forall s t, Rabs (f t - f s) <= k * Rabs (t - s).
Proof.
  intros H s t.
  destruct (Rle_dec s t) as [Hst | Hst].
  - pose proof (H s t Hst). rewrite (Rabs_pos_eq (t - s)) by lra.
    apply Rabs_le. lra.
  - pose proof (H t s ltac:(lra)). rewrite (Rabs_left1 (t - s)) by lra.
    apply Rabs_le. lra.
Qed.

Section Jerk.

Variable j_max : R.
Hypothesis j_max_pos : 0 < j_max.

(** The velocity of a curve from [vs] up to [ve] does not decrease and
    rises at most at the rate [a_max]; from [vs] down to [ve] it does not
    increase and falls at most at that rate. *)
Lemma v_rate (self : obj) (a_max vs ve : R) (c : obj) :
  0 < a_max ->
  reset j_max self a_max vs ve = Ok c ->
  (vs <= ve ->
   forall s t, s <= t -> 0 <= v c t - v c s <= a_max * (t - s)) /\
  (ve <= vs ->
   forall s t, s <= t -> 0 <= v c s - v c t <= a_max * (t - s)).
Proof.
  intros Ha E.
  destruct (AccelCurveShape.reset_shape j_max j_max_pos self a_max vs ve Ha)
    as (c' & r & m & E' & Hr & Hm & H0 & H1 & H2 & H3 & Hjm & Ham & Hv0 & Hv3
        & Hv1 & Hv2 & Hve & Hpl & Hpk & _).
  rewrite E in E'. injection E' as <-.
  assert (ve = vs + jm c * r * r + am c * m) as Hsum by lra.
  destruct (v_pieces c r m vs ve Hr Hm H0 H1 H2 H3 Hv0 Hv3 Hv1 Hsum)
    as (F1 & F2 & F3 & F4 & F5).
  assert (ve <= vs ->
          forall s t, s <= t -> 0 <= v c s - v c t <= a_max * (t - s))
    as Hdown.
  { intros Hle s t Hst.
    rewrite signed_down in Hjm, Ham by assumption.
    rewrite Hjm, Ham in *.
    rewrite Rabs_mult, Rabs_Ropp, !Rabs_pos_eq in Hpk by lra.
    pose proof (ramp_rate (fun x => - v c x) j_max a_max r m (- vs) (- ve)
                  j_max_pos Ha Hr Hm Hpk) as Hrate.
    cbv beta in Hrate.
    enough (0 * (t - s) <= - v c t - - v c s <= a_max * (t - s)) by lra.
    apply Hrate; try assumption.
    - intro Hmp. specialize (Hpl Hmp). lra.
    - lra.
    - intros x Hx. rewrite F1 by assumption. lra.
    - intros x Hx. rewrite F2 by assumption. lra.
    - intros x Hx. rewrite F3 by assumption. lra.
    - intros x Hx. rewrite F4 by assumption. lra.
    - intros x Hx. rewrite F5 by assumption. lra. }
  split; [| exact Hdown].
  intros Hle s t Hst.
  destruct (Rlt_dec vs ve) as [Hlt | Hge].
  - rewrite signed_up in Hjm, Ham by assumption.
    rewrite Hjm, Ham in *.
    rewrite Rabs_pos_eq in Hpk by nra.
    pose proof (ramp_rate (v c) j_max a_max r m vs ve
                  j_max_pos Ha Hr Hm Hpk) as Hrate.
    enough (0 * (t - s) <= v c t - v c s <= a_max * (t - s)) by lra.
    apply Hrate; try assumption; lra.
  - assert (ve = vs) as -> by lra.
    pose proof (Hdown ltac:(lra) s t Hst) as Hd.
    assert (forall x, v c x = vs) as Hconst.
    { intro x.
      pose proof (Hdown ltac:(lra) (Rmin x 0) x (Rmin_l x 0)) as Ha1.
      pose proof (Hdown ltac:(lra) x (Rmax x (r + m + r))
                    (Rmax_l x (r + m + r))) as Ha2.
      rewrite (F1 (Rmin x 0) (Rmin_r x 0)) in Ha1.
      rewrite (F5 (Rmax x (r + m + r)) (Rmax_r x (r + m + r))) in Ha2.
      lra. }
    rewrite !Hconst. nra.
Qed.

(** The velocity stays between the start and the end velocity. *)
Lemma v_between (self : obj) (a_max vs ve : R) (c : obj) :
  0 < a_max ->
  reset j_max self a_max vs ve = Ok c ->
  forall t, Rmin vs ve <= v c t <= Rmax vs ve.
Proof.
  intros Ha E t.
  destruct (v_rate self a_max vs ve c Ha E) as [Hup Hdown].
  destruct (AccelCurveFacts.reset_inv j_max j_max_pos self a_max vs ve c E)
    as (_ & _ & H0 & H1 & H2 & H3 & Hv0 & Hv3 & _).
  assert (v c (Rmin t 0) = vs) as Hlo.
  { unfold v. rewrite H0, Hv0.
    destruct (Rle_dec (Rmin t 0) 0) as [_ | Hn];
      [reflexivity | elim Hn; apply Rmin_r]. }
  assert (v c (Rmax t (t3 c) + 1) = ve) as Hhi.
  { pose proof (Rmax_r t (t3 c)).
    unfold v. rewrite Hv3. repeat decide_cmp. }
  pose proof (Rmin_l t 0). pose proof (Rmax_l t (t3 c)).
  destruct (Rle_dec vs ve) as [Hle | Hgt].
  - rewrite Rmin_left, Rmax_right by lra.
    pose proof (Hup Hle (Rmin t 0) t ltac:(lra)).
    pose proof (Hup Hle t (Rmax t (t3 c) + 1) ltac:(lra)). lra.
  - rewrite Rmin_right, Rmax_left by lra.
    pose proof (Hdown ltac:(lra) (Rmin t 0) t ltac:(lra)).
    pose proof (Hdown ltac:(lra) t (Rmax t (t3 c) + 1) ltac:(lra)). lra.
Qed.

(** The acceleration is at most [a_max] in size, has the sign of the
    velocity change, and changes at most at the rate [j_max]. *)
Lemma a_facts (self : obj) (a_max vs ve : R) (c : obj) :
  0 < a_max ->
  reset j_max self a_max vs ve = Ok c ->
  (forall t, Rabs (a c t) <= a_max) /\
  (vs <= ve -> forall t, 0 <= a c t) /\
  (ve <= vs -> forall t, a c t <= 0) /\
  (forall s t, Rabs (a c t - a c s) <= j_max * Rabs (t - s)).
Proof.
  intros Ha E.
  destruct (AccelCurveShape.reset_shape j_max j_max_pos self a_max vs ve Ha)
    as (c' & r & m & E' & Hr & Hm & H0 & H1 & H2 & H3 & Hjm & Ham & Hv0 & Hv3
        & Hv1 & Hv2 & Hve & Hpl & Hpk & _).
  rewrite E in E'. injection E' as <-.
  assert (ve = vs + jm c * r * r + am c * m) as Hsum by lra.
  destruct (a_pieces c r m Hr Hm H0 H1 H2 H3 Hpl)
    as (F1 & F2 & F3 & F4 & F5).
  assert (forall t, t <= 0 \/ 0 <= t <= r \/ r <= t <= r + m
                    \/ r + m <= t <= r + m + r \/ r + m + r <= t)
    as Hcases.
  { intro t.
    destruct (Rle_dec t 0); [tauto |].
    destruct (Rle_dec t r); [right; left; lra |].
    destruct (Rle_dec t (r + m)); [right; right; left; lra |].
    destruct (Rle_dec t (r + m + r)); [right; right; right; left; lra |].
    right; right; right; right; lra. }
  assert (- j_max <= jm c <= j_max) as Hk.
  { rewrite Hjm. unfold signed. destruct (Rlt_dec 0 (ve - vs)); lra. }
  split; [| split; [| split]].
  - intro t. apply Rabs_le. apply Rabs_le_between in Hpk.
    destruct (Rlt_dec vs ve) as [Hlt | Hge].
    + rewrite signed_up in Hjm by assumption. rewrite Hjm in *.
      destruct (Hcases t) as [Ht | [Ht | [Ht | [Ht | Ht]]]];
        [rewrite F1 | rewrite F2 | rewrite F3 | rewrite F4 | rewrite F5];
        try assumption; nra.
    + rewrite signed_down in Hjm by lra. rewrite Hjm in *.
      destruct (Hcases t) as [Ht | [Ht | [Ht | [Ht | Ht]]]];
        [rewrite F1 | rewrite F2 | rewrite F3 | rewrite F4 | rewrite F5];
        try assumption; nra.
  - intros Hle t.
    destruct (Rlt_dec vs ve) as [Hlt | Hge].
    + rewrite signed_up in Hjm by assumption. rewrite Hjm in *.
      destruct (Hcases t) as [Ht | [Ht | [Ht | [Ht | Ht]]]];
        [rewrite F1 | rewrite F2 | rewrite F3 | rewrite F4 | rewrite F5];
        try assumption; nra.
    + rewrite signed_down in Hjm, Ham by lra. rewrite Hjm, Ham in *.
      assert (0 <= j_max * (r * r)) by (apply Rmult_le_pos; nra).
      assert (0 <= a_max * m) by (apply Rmult_le_pos; lra).
      assert (r * r = 0) as Hrr by nra.
      assert (r = 0) as -> by (destruct (Rmult_integral r r Hrr); assumption).
      destruct (Hcases t) as [Ht | [Ht | [Ht | [Ht | Ht]]]];
        [rewrite F1 | rewrite F2 | rewrite F3 | rewrite F4 | rewrite F5];
        try assumption; nra.
  - intros Hle t.
    rewrite signed_down in Hjm by lra. rewrite Hjm in *.
    destruct (Hcases t) as [Ht | [Ht | [Ht | [Ht | Ht]]]];
      [rewrite F1 | rewrite F2 | rewrite F3 | rewrite F4 | rewrite F5];
      try assumption; nra.
  - apply rate_abs.
    apply (trapezoid_rate (a c) j_max (jm c) r m); assumption.
Qed.

End Jerk.
End AccelCurveMotion.

(** ** Position along a curve *)

Module AccelCurvePosition.
Import AccelCurve.

Section Jerk.

Variable j_max : R.
Hypothesis j_max_pos : 0 < j_max.

(** The position on each phase.  The first three formulas hold with the
    boundary instants included; the formula of the last ramp holds after
    [t2] only. *)
Lemma x_pieces (c : obj) (r m vs ve : R) :
  0 <= r -> 0 <= m ->
  t0 c = 0 -> t1 c = r -> t2 c = r + m -> t3 c = r + m + r ->
  v0 c = vs -> v3 c = ve -> x0 c = 0 ->
  v1 c = vs + 0.5 * jm c * r * r ->
  x1 c = vs * r + jm c / 6 * r * r * r ->
  (forall x, x <= 0 -> AccelCurve.x c x = vs * x) /\
  (forall x, 0 <= x <= r ->
     AccelCurve.x c x = vs * x + jm c / 6 * x * x * x) /\
  (forall x, r <= x <= r + m ->
     AccelCurve.x c x
     = x1 c + v1 c * (x - r) + am c / 2 * (x - r) * (x - r)) /\
  (forall x, r + m < x <= r + m + r ->
     AccelCurve.x c x
     = x3 c + ve * (x - (r + m + r))
       + jm c / 6 * (x - (r + m + r)) * (x - (r + m + r))
         * (x - (r + m + r))) /\
  (forall x, r + m + r < x ->
     AccelCurve.x c x = x3 c + ve * (x - (r + m + r))).
Proof.
  intros Hr Hm H0 H1 H2 H3 Hv0 Hv3 Hx0 Hv1 Hx1.
  unfold AccelCurve.x. rewrite H0, H1, H2, H3, Hv0, Hv3, Hx0, Hx1, Hv1.
  clear H0 H1 H2 H3 Hv0 Hv3 Hx0 Hx1 Hv1.
  repeat split; intros x Hx; repeat decide_cmp;
    AccelCurveMotion.pin x r m.
Qed.

(** The members [x1], [x2] are the positions at [t1], [t2]; the end
    position [x3], the area under the boundary velocities, is what the
    velocity of the last ramp adds to [x2]; and on the last ramp the position
    evaluator stands off [x(t2)] by [- jm / 3 * (t3 - t2)^3], plus a term
    that vanishes with [t - t2]. *)
Lemma x_facts (self : obj) (a_max vs ve : R) (c : obj) :
  0 < a_max ->
  reset j_max self a_max vs ve = Ok c ->
  x c (t1 c) = x1 c /\ x c (t2 c) = x2 c /\
  x3 c = x2 c + ve * (t3 c - t2 c) - jm c / 6 * (t3 c - t2 c) ^ 3 /\
  (forall t, t2 c < t <= t3 c ->
     x c t - x c (t2 c)
     = - (jm c / 3 * (t3 c - t2 c) ^ 3)
       + (t - t2 c)
         * (ve + jm c / 6 * ((t - t3 c) ^ 2 - (t - t3 c) * (t3 c - t2 c)
                             + (t3 c - t2 c) ^ 2))) /\
  (vs <> ve -> t2 c < t3 c).
Proof.
  intros Ha E.
  destruct (AccelCurveShape.reset_shape j_max j_max_pos self a_max vs ve Ha)
    as (c' & r & m & E' & Hr & Hm & H0 & H1 & H2 & H3 & Hjm & Ham & Hv0 & Hv3
        & Hv1 & Hv2 & Hve & Hpl & Hpk & Hx0 & Hx1 & Hx2 & Hx3).
  rewrite E in E'. injection E' as <-.
  destruct (x_pieces c r m vs ve Hr Hm H0 H1 H2 H3 Hv0 Hv3 Hx0 Hv1 Hx1)
    as (F1 & F2 & F3 & F4 & F5).
  assert (x c (t1 c) = x1 c) as E1.
  { rewrite H1, F2 by lra. rewrite Hx1. reflexivity. }
  assert (x c (t2 c) = x2 c) as E2.
  { rewrite H2, F3 by lra. rewrite Hx2. ring. }
  assert (x3 c = x2 c + ve * (t3 c - t2 c)
                 - jm c / 6 * (t3 c - t2 c) ^ 3) as E3.
  { rewrite H3, H2, Hx3, Hx2, Hx1, Hv1.
    rewrite Hv2, Hv1 in Hve.
    replace (r + m + r - (r + m)) with r by ring.
    assert (ve * m = (vs + jm c * r * r + am c * m) * m) as Hvm
      by (rewrite Hve at 1; f_equal; lra).
    assert (ve * r = (vs + jm c * r * r + am c * m) * r) as Hvr
      by (rewrite Hve at 1; f_equal; lra).
    nra. }
  split; [exact E1 |]. split; [exact E2 |]. split; [exact E3 |]. split.
  - intros t Ht. rewrite E2. rewrite H2, H3 in Ht.
    rewrite F4 by assumption. rewrite E3, H2, H3. field.
  - intro Hne. rewrite H2, H3.
    enough (r <> 0) by lra.
    intros ->.
    destruct (Rle_lt_or_eq_dec 0 m Hm) as [Hmp | <-].
    + specialize (Hpl Hmp). rewrite Ham in Hpl.
      pose proof (AccelCurveFacts.signed_nonzero a_max vs ve Ha). lra.
    + apply Hne. lra.
Qed.

(** The position evaluator of a curve between two different velocities is
    not continuous at [t2]. *)
Lemma x_jump (self : obj) (a_max vs ve : R) (c : obj) :
  0 < a_max -> vs <> ve ->
  reset j_max self a_max vs ve = Ok c ->
  ~ continuity_pt (x c) (t2 c).
Proof.
  intros Ha Hne E Hcont.
  destruct (x_facts self a_max vs ve c Ha E) as (_ & _ & _ & Hoff & Hlt).
  specialize (Hlt Hne).
  destruct (AccelCurveFacts.reset_inv j_max j_max_pos self a_max vs ve c E)
    as (Hjm & _).
  set (r := t3 c - t2 c) in *.
  assert (0 < r) as Hr by (unfold r; lra).
  set (d := jm c / 3 * r ^ 3) in *.
  assert (0 < Rabs d) as Hd.
  { apply Rabs_pos_lt. unfold d.
    assert (jm c <> 0)
      by (rewrite Hjm; now apply AccelCurveFacts.signed_nonzero).
    assert (r ^ 3 <> 0) by (apply pow_nonzero; lra).
    apply Rmult_integral_contrapositive_currified; [| assumption].
    unfold Rdiv. apply Rmult_integral_contrapositive_currified;
      [assumption | apply Rinv_neq_0_compat; lra]. }
  set (K := Rabs ve + Rabs (jm c) / 6 * (3 * r ^ 2)).
  assert (0 <= K) as HK.
  { unfold K. pose proof (Rabs_pos ve). pose proof (Rabs_pos (jm c)).
    assert (0 <= r ^ 2) by (apply pow_le; lra). nra. }
  unfold continuity_pt, continue_in, limit1_in, limit_in in Hcont.
  destruct (Hcont (Rabs d / 2) ltac:(lra)) as (alp & Halp & Hclose).
  simpl in Hclose. unfold Rdist in Hclose.
  set (h := Rmin (alp / 2) (Rmin r (Rabs d / (2 * (K + 1))))).
  assert (0 < h) as Hh.
  { unfold h. apply Rmin_glb_lt; [lra |]. apply Rmin_glb_lt; [lra |].
    apply Rdiv_lt_0_compat; lra. }
  assert (h <= alp / 2) as Hh1 by apply Rmin_l.
  assert (h <= r) as Hh2.
  { unfold h. eapply Rle_trans; [apply Rmin_r | apply Rmin_l]. }
  assert (h <= Rabs d / (2 * (K + 1))) as Hh3.
  { unfold h. eapply Rle_trans; [apply Rmin_r | apply Rmin_r]. }
  specialize (Hclose (t2 c + h)).
  assert (Rabs (t2 c + h - t2 c) < alp) as Hnear.
  { replace (t2 c + h - t2 c) with h by ring.
    rewrite Rabs_pos_eq by lra. lra. }
  assert (D_x no_cond (t2 c) (t2 c + h)) as HD
    by (split; [exact I | lra]).
  specialize (Hclose (conj HD Hnear)).
  rewrite (Hoff (t2 c + h)) in Hclose by (unfold r in Hh2; lra).
  replace (t2 c + h - t2 c) with h in Hclose by ring.
  set (u := t2 c + h - t3 c) in *.
  assert (- r <= u <= 0) as Hu by (unfold u, r in *; lra).
  set (G := ve + jm c / 6 * (u ^ 2 - u * r + r ^ 2)) in *.
  assert (Rabs G <= K) as HG.
  { unfold G, K.
    eapply Rle_trans; [apply Rabs_triang |].
    apply Rplus_le_compat_l.
    unfold Rdiv. rewrite !Rabs_mult.
    rewrite (Rabs_pos_eq (/ 6)) by lra.
    apply Rmult_le_compat_l.
    - apply Rmult_le_pos; [apply Rabs_pos | lra].
    - apply Rabs_le. nra. }
  assert (Rabs (h * G) <= Rabs d / 2) as HhG.
  { rewrite Rabs_mult, Rabs_pos_eq by lra.
    apply Rle_trans with (h * K).
    - apply Rmult_le_compat_l; lra.
    - apply Rle_trans with (Rabs d / (2 * (K + 1)) * K).
      + apply Rmult_le_compat_r; lra.
      + assert (Rabs d / (2 * (K + 1)) * K = Rabs d / 2 * (K / (K + 1)))
          as -> by (field; lra).
        assert (K / (K + 1) <= 1).
        { apply Rmult_le_reg_r with (K + 1); [lra |].
          replace (K / (K + 1) * (K + 1)) with K by (field; lra). lra. }
        nra. }
  pose proof (Rabs_triang_inv (- d) (- (h * G))) as Htri.
  rewrite !Rabs_Ropp in Htri.
  replace (- d - - (h * G)) with (- d + h * G) in Htri by ring.
  lra.
Qed.

End Jerk.
End AccelCurvePosition.

(** ** Duration and minimum distance *)

Module AccelCurveDuration.
Import AccelCurve.

Section Jerk.

Variable j_max : R.
Hypothesis j_max_pos : 0 < j_max.

(** The duration of a curve in closed form: it depends on the size of the
    velocity difference only. *)
Lemma t_end_closed (self : obj) (a_max vs ve : R) (c : obj) :
  0 < a_max ->
  reset j_max self a_max vs ve = Ok c ->
  t_end c =
  if Rlt_dec (a_max / j_max) (Rabs (ve - vs) / a_max)
  then Rabs (ve - vs) / a_max + a_max / j_max
  else 2 * sqrt (a_max / j_max * (Rabs (ve - vs) / a_max)).
Proof.
  intros Ha E.
  pose proof (AccelCurveFacts.dv_over_am a_max vs ve Ha) as Hdv.
  pose proof (AccelCurveFacts.signed_nonzero a_max vs ve Ha) as Hnz.
  destruct (Rlt_dec (a_max / j_max) (Rabs (ve - vs) / a_max)) as [Hpl | Htr].
  - pose proof (AccelCurveFacts.reset_plateau j_max j_max_pos self a_max vs ve
                  Ha) as E'.
    cbv zeta in E'. rewrite Hdv in E'. rewrite E' in E by lra.
    injection E as <-. unfold t_end. cbn [t3]. lra.
  - pose proof (AccelCurveShape.reset_triangle j_max j_max_pos self a_max vs ve
                  Ha) as E'.
    cbv zeta in E'. rewrite Hdv in E'. rewrite E' in E by lra.
    injection E as <-. unfold t_end. cbn [t3].
    replace (a_max / j_max / signed a_max vs ve * (ve - vs))
      with (a_max / j_max * ((ve - vs) / signed a_max vs ve))
      by (field; repeat split; first [assumption | lra]).
    rewrite Hdv. lra.
Qed.

Lemma calcMinDistance_closed (a_max vs ve : R) :
  0 < a_max ->
  calcMinDistance j_max a_max vs ve =
  Ok ((vs + ve) / 2
      * (if Rlt_dec (a_max / j_max) (Rabs (ve - vs) / a_max)
         then Rabs (ve - vs) / a_max + a_max / j_max
         else 2 * sqrt (a_max / j_max * (Rabs (ve - vs) / a_max)))).
Proof.
  intro Ha. unfold calcMinDistance, make.
  destruct (AccelCurveFacts.reset_spec j_max j_max_pos empty a_max vs ve Ha)
    as (c & E & _ & _ & _ & _ & _ & _ & _ & _ & _ & Hx3 & _).
  rewrite E. cbn [rbind]. unfold x_end. rewrite Hx3.
  pose proof (t_end_closed empty a_max vs ve c Ha E) as Ht.
  unfold t_end in Ht. rewrite Ht. reflexivity.
Qed.

(** The duration grows with the size of the velocity difference. *)
Lemma duration_mono (a_max p q : R) :
  0 < a_max -> 0 <= p -> p <= q ->
  (if Rlt_dec (a_max / j_max) (p / a_max)
   then p / a_max + a_max / j_max
   else 2 * sqrt (a_max / j_max * (p / a_max)))
  <= (if Rlt_dec (a_max / j_max) (q / a_max)
      then q / a_max + a_max / j_max
      else 2 * sqrt (a_max / j_max * (q / a_max))).
Proof.
  intros Ha Hp Hpq.
  assert (0 < a_max / j_max) as Htc by now apply Rdiv_lt_0_compat.
  set (tc := a_max / j_max) in *.
  assert (0 <= p / a_max) as Hp'.
  { apply Rmult_le_pos; [assumption |]. left. now apply Rinv_0_lt_compat. }
  assert (p / a_max <= q / a_max) as Hpq'.
  { apply Rmult_le_compat_r; [| assumption].
    left. now apply Rinv_0_lt_compat. }
  set (p' := p / a_max) in *. set (q' := q / a_max) in *.
  destruct (Rlt_dec tc p') as [Pp | Tp];
    destruct (Rlt_dec tc q') as [Pq | Tq]; try lra.
  - assert (sqrt (tc * p') <= tc).
    { rewrite <- (sqrt_square tc) at 2 by lra.
      apply sqrt_le_1_alt. apply Rmult_le_compat_l; lra. }
    lra.
  - assert (sqrt (tc * p') <= sqrt (tc * q')).
    { apply sqrt_le_1_alt. apply Rmult_le_compat_l; lra. }
    lra.
Qed.

Lemma duration_nonneg (a_max p : R) :
  0 < a_max -> 0 <= p ->
  0 <= (if Rlt_dec (a_max / j_max) (p / a_max)
        then p / a_max + a_max / j_max
        else 2 * sqrt (a_max / j_max * (p / a_max))).
Proof.
  intros Ha Hp.
  assert (0 < a_max / j_max) as Htc by now apply Rdiv_lt_0_compat.
  destruct (Rlt_dec _ _).
  - lra.
  - pose proof (sqrt_pos (a_max / j_max * (p / a_max))). lra.
Qed.

(** The minimum distance does not depend on the direction of the change,
    and grows with the sum and with the distance of the two velocities. *)
Lemma calcMinDistance_sym (a_max vs ve : R) :
  0 < a_max ->
  calcMinDistance j_max a_max vs ve = calcMinDistance j_max a_max ve vs.
Proof.
  intro Ha. rewrite !calcMinDistance_closed by assumption.
  rewrite (Rabs_minus_sym ve vs), (Rplus_comm vs ve). reflexivity.
Qed.

Lemma calcMinDistance_mono (a_max vs ve vs' ve' m m' : R) :
  0 < a_max ->
  0 <= vs + ve -> vs + ve <= vs' + ve' ->
  Rabs (ve - vs) <= Rabs (ve' - vs') ->
  calcMinDistance j_max a_max vs ve = Ok m ->
  calcMinDistance j_max a_max vs' ve' = Ok m' ->
  0 <= m <= m'.
Proof.
  intros Ha H0 Hsum Hdiff E E'.
  rewrite calcMinDistance_closed in E, E' by assumption.
  injection E as <-. injection E' as <-.
  pose proof (duration_mono a_max _ _ Ha (Rabs_pos (ve - vs)) Hdiff) as Hm.
  pose proof (duration_nonneg a_max _ Ha (Rabs_pos (ve - vs))) as Hn.
  set (T := if Rlt_dec _ (Rabs (ve - vs) / a_max) then _ else _) in *.
  set (T' := if Rlt_dec _ (Rabs (ve' - vs') / a_max) then _ else _) in *.
  split.
  - apply Rmult_le_pos; lra.
  - apply Rmult_le_compat; lra.
Qed.

End Jerk.
End AccelCurveDuration.

(** ** A curve at and beyond its two ends *)

Module AccelCurveEnds.
Import AccelCurve.

Section Jerk.

Variable j_max : R.
Hypothesis j_max_pos : 0 < j_max.

(** Up to the start a curve stands at the start velocity; from the end on
    it goes on at the end velocity; the acceleration is zero on both
    sides. *)
Lemma curve_ends (self : obj) (a_max vs ve : R) (c : obj) :
  0 < a_max ->
  reset j_max self a_max vs ve = Ok c ->
  0 <= t_end c /\
  (forall t, t <= 0 -> a c t = 0 /\ v c t = vs /\ x c t = vs * t) /\
  (forall t, t_end c <= t ->
     a c t = 0 /\ v c t = ve /\ x c t = x_end c + ve * (t - t_end c)).
Proof.
  intros Ha E.
  destruct (AccelCurveShape.reset_shape j_max j_max_pos self a_max vs ve Ha)
    as (c' & r & m & E' & Hr & Hm & H0 & H1 & H2 & H3 & Hjm & Ham & Hv0 & Hv3
        & Hv1 & Hv2 & Hve & Hpl & Hpk & Hx0 & Hx1 & Hx2 & Hx3).
  rewrite E in E'. injection E' as <-.
  assert (ve = vs + jm c * r * r + am c * m) as Hsum by lra.
  destruct (AccelCurveMotion.a_pieces c r m Hr Hm H0 H1 H2 H3 Hpl)
    as (A1 & _ & _ & _ & A5).
  destruct (AccelCurveMotion.v_pieces c r m vs ve Hr Hm H0 H1 H2 H3 Hv0 Hv3
              Hv1 Hsum) as (V1 & _ & _ & _ & V5).
  destruct (AccelCurvePosition.x_pieces c r m vs ve Hr Hm H0 H1 H2 H3 Hv0 Hv3
              Hx0 Hv1 Hx1) as (X1 & _ & _ & X4 & X5).
  unfold t_end, x_end. rewrite H3.
  split; [lra |]. split.
  - intros t Ht. rewrite A1, V1, X1 by assumption. repeat split.
  - intros t Ht. rewrite A5, V5 by assumption.
    split; [reflexivity |]. split; [reflexivity |].
    destruct (Rlt_dec (r + m + r) t) as [Hlt | Hge].
    + now rewrite X5.
    + assert (t = r + m + r) as -> by lra.
      destruct (Rlt_dec 0 r) as [Hr0 | Hr0].
      * rewrite X4 by lra. ring.
      * assert (r = 0) as -> by lra.
        destruct (Rlt_dec 0 m) as [Hm0 | Hm0].
        -- exfalso. specialize (Hpl Hm0).
           pose proof (AccelCurveFacts.signed_nonzero a_max vs ve Ha).
           rewrite Ham in Hpl. lra.
        -- assert (m = 0) as -> by lra.
           rewrite X1 by lra. rewrite Hx3. ring.
Qed.

End Jerk.
End AccelCurveEnds.

(** ** The four evaluators along a curve *)

Module AccelCurveProfile.
Import AccelCurve.

Section Jerk.

Variable j_max : R.
Hypothesis j_max_pos : 0 < j_max.

(** A curve with different start and end velocities has ramps of positive
    duration. *)
Lemma ramps_positive (self : obj) (a_max vs ve : R) (c : obj) :
  0 < a_max -> vs <> ve ->
  reset j_max self a_max vs ve = Ok c ->
  0 < t1 c /\ t2 c < t3 c.
Proof.
  intros Ha Hne E.
  destruct (AccelCurveShape.reset_shape j_max j_max_pos self a_max vs ve Ha)
    as (c' & r & m & E' & Hr & Hm & H0 & H1 & H2 & H3 & Hjm & Ham & Hv0 & Hv3
        & Hv1 & Hv2 & Hve & Hpl & _).
  rewrite E in E'. injection E' as <-.
  rewrite H1, H2, H3.
  assert (0 < r); [| lra].
  destruct (Rlt_dec 0 r) as [| Hr0]; [assumption |]. exfalso.
  assert (r = 0) as -> by lra.
  destruct (Rlt_dec 0 m) as [Hm0 | Hm0].
  - specialize (Hpl Hm0).
    pose proof (AccelCurveFacts.signed_nonzero a_max vs ve Ha).
    rewrite Ham in Hpl. lra.
  - assert (m = 0) as Em by lra. rewrite Em in *. apply Hne. lra.
Qed.

(** X1.  The velocity along a curve built with [a_max > 0]: it is the
    start velocity up to the start and the end velocity from the end on,
    stays between the two, moves towards the end velocity without ever
    turning back, changes at most at the rate [a_max], and is
    continuous. *)
Theorem curve_velocity (self : obj) (a_max vs ve : R) :
  0 < a_max ->
  exists c,
    reset j_max self a_max vs ve = Ok c /\
    (forall t, t <= 0 -> v c t = vs) /\
    (forall t, t_end c <= t -> v c t = ve) /\
    (forall t, Rmin vs ve <= v c t <= Rmax vs ve) /\
    (vs <= ve ->
     forall s t, s <= t -> 0 <= v c t - v c s <= a_max * (t - s)) /\
    (ve <= vs ->
     forall s t, s <= t -> 0 <= v c s - v c t <= a_max * (t - s)) /\
    continuity (v c).
Proof.
  intro Ha.
  destruct (AccelCurveFacts.reset_spec j_max j_max_pos self a_max vs ve Ha)
    as (c & E & _).
  exists c. split; [assumption |].
  destruct (AccelCurveEnds.curve_ends j_max j_max_pos self a_max vs ve c Ha E)
    as (_ & Hstart & Hend).
  destruct (AccelCurveMotion.v_rate j_max j_max_pos self a_max vs ve c Ha E)
    as [Hup Hdown].
  split; [intros t Ht; now apply Hstart |].
  split; [intros t Ht; now apply Hend |].
  split; [now apply (AccelCurveMotion.v_between j_max j_max_pos self a_max) |].
  split; [assumption |]. split; [assumption |].
  apply (AccelCurveMotion.lipschitz_continuity _ a_max Ha).
  apply AccelCurveMotion.rate_abs. intros s t Hst.
  destruct (Rle_dec vs ve) as [Hle | Hgt].
  - pose proof (Hup Hle s t Hst). nra.
  - pose proof (Hdown ltac:(lra) s t Hst). nra.
Qed.

(** X2.  The acceleration along a curve built with [a_max > 0]: it is zero
    up to the start and from the end on, never exceeds [a_max] in size,
    has the sign of the velocity change, changes at most at the rate
    [j_max], and is continuous. *)
Theorem curve_acceleration (self : obj) (a_max vs ve : R) :
  0 < a_max ->
  exists c,
    reset j_max self a_max vs ve = Ok c /\
    (forall t, t <= 0 \/ t_end c <= t -> a c t = 0) /\
    (forall t, Rabs (a c t) <= a_max) /\
    (vs <= ve -> forall t, 0 <= a c t) /\
    (ve <= vs -> forall t, a c t <= 0) /\
    (forall s t, Rabs (a c t - a c s) <= j_max * Rabs (t - s)) /\
    continuity (a c).
Proof.
  intro Ha.
  destruct (AccelCurveFacts.reset_spec j_max j_max_pos self a_max vs ve Ha)
    as (c & E & _).
  exists c. split; [assumption |].
  destruct (AccelCurveEnds.curve_ends j_max j_max_pos self a_max vs ve c Ha E)
    as (_ & Hstart & Hend).
  destruct (AccelCurveMotion.a_facts j_max j_max_pos self a_max vs ve c Ha E)
    as (Hb & Hp & Hn & Hl).
  split; [intros t [Ht | Ht]; [now apply Hstart | now apply Hend] |].
  repeat (split; [assumption |]).
  now apply (AccelCurveMotion.lipschitz_continuity _ j_max).
Qed.

(** X3.  The position along a curve built with [a_max > 0].  The members
    [x1] and [x2] are the positions at [t1] and [t2], and the end position
    [x3] is what the velocity of the last ramp adds to [x2].  The position
    evaluator itself, on the last ramp, stands off that course: it starts
    [jm / 3 * (t3 - t2)^3] below it, so for different start and end
    velocities [x(t)] is not continuous at [t2]. *)
Theorem curve_position_jump (self : obj) (a_max vs ve : R) :
  0 < a_max ->
  exists c,
    reset j_max self a_max vs ve = Ok c /\
    x c (t1 c) = x1 c /\ x c (t2 c) = x2 c /\
    x3 c = x2 c + ve * (t3 c - t2 c) - jm c / 6 * (t3 c - t2 c) ^ 3 /\
    (forall t, t2 c < t <= t3 c ->
       x c t - x c (t2 c)
       = - (jm c / 3 * (t3 c - t2 c) ^ 3)
         + (t - t2 c)
           * (ve + jm c / 6 * ((t - t3 c) ^ 2 - (t - t3 c) * (t3 c - t2 c)
                               + (t3 c - t2 c) ^ 2))) /\
    (vs <> ve -> t2 c < t3 c /\ ~ continuity_pt (x c) (t2 c)).
Proof.
  intro Ha.
  destruct (AccelCurveFacts.reset_spec j_max j_max_pos self a_max vs ve Ha)
    as (c & E & _).
  exists c. split; [assumption |].
  destruct (AccelCurvePosition.x_facts j_max j_max_pos self a_max vs ve c
              Ha E) as (H1 & H2 & H3 & Hoff & Hlt).
  repeat (split; [assumption |]).
  intro Hne. split; [now apply Hlt |].
  now apply (AccelCurvePosition.x_jump j_max j_max_pos self a_max vs ve).
Qed.

(** X4.  The jerk evaluator of a curve does not look at the direction of
    the curve: on the first ramp it gives [j_max] and on the last ramp
    [- j_max].  For a curve that slows down this is the opposite of the
    slope of the acceleration, which falls as [- j_max * t] on the first
    ramp and rises back as [- j_max * (t3 - t)] on the last. *)
Theorem curve_jerk_unsigned (self : obj) (a_max vs ve : R) :
  0 < a_max -> ve < vs ->
  exists c,
    reset j_max self a_max vs ve = Ok c /\
    0 < t1 c /\ t2 c < t3 c /\
    (forall t, 0 < t <= t1 c ->
       j j_max c t = j_max /\ a c t = - j_max * t) /\
    (forall t, t2 c < t <= t3 c ->
       j j_max c t = - j_max /\ a c t = - j_max * (t3 c - t)).
Proof.
  intros Ha Hdown.
  destruct (AccelCurveShape.reset_shape j_max j_max_pos self a_max vs ve Ha)
    as (c & r & m & E & Hr & Hm & H0 & H1 & H2 & H3 & Hjm & Ham & Hv0 & Hv3
        & Hv1 & Hv2 & Hve & Hpl & _).
  exists c. split; [assumption |].
  destruct (ramps_positive self a_max vs ve c Ha ltac:(lra) E) as [Hr1 Hr3].
  split; [assumption |]. split; [assumption |].
  destruct (AccelCurveMotion.a_pieces c r m Hr Hm H0 H1 H2 H3 Hpl)
    as (_ & A2 & _ & A4 & _).
  rewrite signed_down in Hjm by lra.
  split; intros t Ht.
  - split.
    + unfold j. rewrite H0. repeat decide_cmp.
    + rewrite A2 by lra. rewrite Hjm. ring.
  - split.
    + unfold j. rewrite H0. repeat decide_cmp.
    + rewrite A4 by lra. rewrite Hjm, H3. ring.
Qed.

(** X5.  The duration of a curve built with [a_max > 0] depends on the
    size of the velocity change only: it is [|dv| / a_max + a_max / j_max]
    when that change is larger than [a_max^2 / j_max], and
    [2 sqrt (|dv| / j_max)] otherwise.  Speeding up and slowing down
    between the same two velocities take the same time. *)
Theorem curve_duration (self : obj) (a_max vs ve : R) :
  0 < a_max ->
  exists c c',
    reset j_max self a_max vs ve = Ok c /\
    reset j_max self a_max ve vs = Ok c' /\
    t_end c = t_end c' /\
    0 <= t_end c /\
    (a_max * a_max / j_max < Rabs (ve - vs) ->
     t_end c = Rabs (ve - vs) / a_max + a_max / j_max) /\
    (Rabs (ve - vs) <= a_max * a_max / j_max ->
     t_end c = 2 * sqrt (Rabs (ve - vs) / j_max)).
Proof.
  intro Ha.
  destruct (AccelCurveFacts.reset_spec j_max j_max_pos self a_max vs ve Ha)
    as (c & E & _).
  destruct (AccelCurveFacts.reset_spec j_max j_max_pos self a_max ve vs Ha)
    as (c' & E' & _).
  exists c, c'. split; [assumption |]. split; [assumption |].
  pose proof (AccelCurveDuration.t_end_closed j_max j_max_pos self a_max vs ve
                c Ha E) as Hc.
  pose proof (AccelCurveDuration.t_end_closed j_max j_max_pos self a_max ve vs
                c' Ha E') as Hc'.
  rewrite (Rabs_minus_sym vs ve) in Hc'.
  split; [now rewrite Hc, Hc' |].
  split.
  { rewrite Hc.
    apply (AccelCurveDuration.duration_nonneg j_max j_max_pos a_max _ Ha
             (Rabs_pos (ve - vs))). }
  assert (a_max * (a_max / j_max) = a_max * a_max / j_max) as Eu
    by (field; lra).
  split; intro Hcmp.
  - rewrite Hc. destruct (Rlt_dec _ _) as [_ | N]; [reflexivity |].
    exfalso. apply N.
    apply (Rmult_lt_reg_l a_max); [assumption |].
    replace (a_max * (Rabs (ve - vs) / a_max)) with (Rabs (ve - vs))
      by (field; lra).
    lra.
  - rewrite Hc. destruct (Rlt_dec _ _) as [Y | _].
    + exfalso.
      apply (Rmult_lt_compat_l a_max) in Y; [| assumption].
      replace (a_max * (Rabs (ve - vs) / a_max)) with (Rabs (ve - vs)) in Y
        by (field; lra).
      lra.
    + do 2 f_equal. field. lra.
Qed.

(** X6.  The minimum distance for a velocity change, with [a_max > 0]: it
    is the same in both directions, and between velocities whose sum is
    not negative it is not negative and grows with the sum and with the
    distance of the two velocities. *)
Theorem calcMinDistance_order (a_max vs ve vs' ve' : R) :
  0 < a_max ->
  calcMinDistance j_max a_max vs ve = calcMinDistance j_max a_max ve vs /\
  exists m m',
    calcMinDistance j_max a_max vs ve = Ok m /\
    calcMinDistance j_max a_max vs' ve' = Ok m' /\
    (0 <= vs + ve -> 0 <= m) /\
    (0 <= vs + ve -> vs + ve <= vs' + ve' ->
     Rabs (ve - vs) <= Rabs (ve' - vs') -> m <= m').
Proof.
  intro Ha.
  split; [now apply AccelCurveDuration.calcMinDistance_sym |].
  pose proof (AccelCurveDuration.calcMinDistance_closed j_max j_max_pos
                a_max vs ve Ha) as E.
  pose proof (AccelCurveDuration.calcMinDistance_closed j_max j_max_pos
                a_max vs' ve' Ha) as E'.
  eexists _, _. split; [exact E |]. split; [exact E' |].
  split.
  - intro H0.
    apply (AccelCurveDuration.calcMinDistance_mono j_max j_max_pos
             a_max vs ve vs ve _ _ Ha H0 ltac:(lra) ltac:(lra) E E).
  - intros H0 Hs Hd.
    apply (AccelCurveDuration.calcMinDistance_mono j_max j_max_pos
             a_max vs ve vs' ve' _ _ Ha H0 Hs Hd E E').
Qed.

End Jerk.

Lemma curve_velocity_witness :
  0 < j_max /\ 0 < 3600 /\
  exists c,
    reset j_max empty 3600 0 720 = Ok c /\
    (forall t, t <= 0 -> v c t = 0) /\
    (forall t, t_end c <= t -> v c t = 720) /\
    (forall t, Rmin 0 720 <= v c t <= Rmax 0 720) /\
    (0 <= 720 ->
     forall s t, s <= t -> 0 <= v c t - v c s <= 3600 * (t - s)) /\
    (720 <= 0 ->
     forall s t, s <= t -> 0 <= v c s - v c t <= 3600 * (t - s)) /\
    continuity (v c).
Proof.
  assert (0 < 3600) as Ha by lra.
  split; [exact header_j_max_pos | split; [exact Ha |]].
  exact (curve_velocity j_max header_j_max_pos empty 3600 0 720 Ha).
Defined.

Lemma curve_acceleration_witness :
  0 < j_max /\ 0 < 3600 /\
  exists c,
    reset j_max empty 3600 720 0 = Ok c /\
    (forall t, t <= 0 \/ t_end c <= t -> a c t = 0) /\
    (forall t, Rabs (a c t) <= 3600) /\
    (720 <= 0 -> forall t, 0 <= a c t) /\
    (0 <= 720 -> forall t, a c t <= 0) /\
    (forall s t, Rabs (a c t - a c s) <= j_max * Rabs (t - s)) /\
    continuity (a c).
Proof.
  assert (0 < 3600) as Ha by lra.
  split; [exact header_j_max_pos | split; [exact Ha |]].
  exact (curve_acceleration j_max header_j_max_pos empty 3600 720 0 Ha).
Defined.

Lemma curve_position_jump_witness :
  0 < j_max /\ 0 < 3600 /\
  exists c,
    reset j_max empty 3600 0 720 = Ok c /\
    x c (t1 c) = x1 c /\ x c (t2 c) = x2 c /\
    x3 c = x2 c + 720 * (t3 c - t2 c) - jm c / 6 * (t3 c - t2 c) ^ 3 /\
    (forall t, t2 c < t <= t3 c ->
       x c t - x c (t2 c)
       = - (jm c / 3 * (t3 c - t2 c) ^ 3)
         + (t - t2 c)
           * (720 + jm c / 6 * ((t - t3 c) ^ 2 - (t - t3 c) * (t3 c - t2 c)
                                + (t3 c - t2 c) ^ 2))) /\
    (0 <> 720 -> t2 c < t3 c /\ ~ continuity_pt (x c) (t2 c)).
Proof.
  assert (0 < 3600) as Ha by lra.
  split; [exact header_j_max_pos | split; [exact Ha |]].
  exact (curve_position_jump j_max header_j_max_pos empty 3600 0 720 Ha).
Defined.

Lemma curve_jerk_unsigned_witness :
  0 < j_max /\ 0 < 3600 /\ 0 < 720 /\
  exists c,
    reset j_max empty 3600 720 0 = Ok c /\
    0 < t1 c /\ t2 c < t3 c /\
    (forall t, 0 < t <= t1 c ->
       j j_max c t = j_max /\ a c t = - j_max * t) /\
    (forall t, t2 c < t <= t3 c ->
       j j_max c t = - j_max /\ a c t = - j_max * (t3 c - t)).
Proof.
  assert (0 < 3600) as Ha by lra.
  assert (0 < 720) as Hv by lra.
  split; [exact header_j_max_pos | split; [exact Ha | split; [exact Hv |]]].
  exact (curve_jerk_unsigned j_max header_j_max_pos empty 3600 720 0 Ha Hv).
Defined.

Lemma curve_duration_witness :
  0 < j_max /\ 0 < 3600 /\
  exists c c',
    reset j_max empty 3600 0 720 = Ok c /\
    reset j_max empty 3600 720 0 = Ok c' /\
    t_end c = t_end c' /\
    0 <= t_end c /\
    (3600 * 3600 / j_max < Rabs (720 - 0) ->
     t_end c = Rabs (720 - 0) / 3600 + 3600 / j_max) /\
    (Rabs (720 - 0) <= 3600 * 3600 / j_max ->
     t_end c = 2 * sqrt (Rabs (720 - 0) / j_max)).
Proof.
  assert (0 < 3600) as Ha by lra.
  split; [exact header_j_max_pos | split; [exact Ha |]].
  exact (curve_duration j_max header_j_max_pos empty 3600 0 720 Ha).
Defined.

Lemma calcMinDistance_order_witness :
  0 < j_max /\ 0 < 3600 /\
  calcMinDistance j_max 3600 0 720 = calcMinDistance j_max 3600 720 0 /\
  exists m m',
    calcMinDistance j_max 3600 0 720 = Ok m /\
    calcMinDistance j_max 3600 0 1440 = Ok m' /\
    (0 <= 0 + 720 -> 0 <= m) /\
    (0 <= 0 + 720 -> 0 + 720 <= 0 + 1440 ->
     Rabs (720 - 0) <= Rabs (1440 - 0) -> m <= m').
Proof.
  assert (0 < 3600) as Ha by lra.
  split; [exact header_j_max_pos | split; [exact Ha |]].
  exact (calcMinDistance_order j_max header_j_max_pos 3600 0 720 0 1440 Ha).
Defined.

End AccelCurveProfile.

(** ** The end velocity for a distance: [calcVelocityEnd] *)

Lemma Rpower_third_cube (x : R) :
  0 < x -> Rpower x (/ 3) * Rpower x (/ 3) * Rpower x (/ 3) = x.
Proof.
  intro H. rewrite <- !Rpower_plus.
  replace (/ 3 + / 3 + / 3) with 1 by field. now apply Rpower_1.
Qed.

(** [cbrt] is the cube root on the whole real line. *)
Lemma cbrt_cube (x : R) : cbrt x * cbrt x * cbrt x = x.
Proof.
  unfold cbrt. destruct (Rlt_dec 0 x) as [Hp | Hp].
  - now apply Rpower_third_cube.
  - destruct (Rlt_dec x 0) as [Hn | Hn].
    + pose proof (Rpower_third_cube (- x)) as H.
      replace (- Rpower (- x) (/ 3) * - Rpower (- x) (/ 3)
               * - Rpower (- x) (/ 3))
        with (- (Rpower (- x) (/ 3) * Rpower (- x) (/ 3)
                 * Rpower (- x) (/ 3))) by ring.
      rewrite H; lra.
    + replace x with 0 by lra. ring.
Qed.






Module AccelCurveEndVelocity.
Import AccelCurve.

Section Jerk.

Variable j_max : R.
Hypothesis j_max_pos : 0 < j_max.

(** [calcVelocityEnd] with the curve time and the signed acceleration
    written out. *)
Lemma calcVelocityEnd_eq (a_max vs vt d : R) :
  0 < a_max ->
  calcVelocityEnd j_max a_max vs vt d =
  let tc := a_max / j_max in
  let am := signed a_max vs vt in
  if Rlt_dec ((2 * vs + am * tc) * tc) d then
    do s <- fsqrt (am * tc * (am * tc)
                   - 4 * (am * tc * vs - vs * vs - 2 * am * d));
    Ok ((- (am * tc) + s) / 2)
  else
    let b := am * d * d / tc in
    let c0 := 27 * (32 * (vs * vs * vs) * b + 27 * b * b) in
    let c1 := 16 * (vs * vs * vs) + 27 * b in
    if Rle_dec 0 c0 then
      do s <- fsqrt c0;
      do r <- fdiv (4 * vs * vs) (cbrt ((s + c1) / 2));
      Ok ((cbrt ((s + c1) / 2) + r - vs) / 3)
    else
      do s <- fsqrt (- c0);
      Ok ((cpow_re (c1 / 2) (s / 2) (1 / 3) * 2 - vs) / 3).
Proof.
  intro Ha.
  destruct (AccelCurveFacts.calcTimeCurve_pos j_max j_max_pos a_max Ha)
    as [Etc Htc].
  unfold calcVelocityEnd. rewrite Etc in *. cbv zeta.
  fold (signed a_max vs vt).
  rewrite !fdiv_ok by lra. cbn [rbind].
  replace (signed a_max vs vt / (a_max / j_max) * (a_max / j_max)
           * (a_max / j_max))
    with (signed a_max vs vt * (a_max / j_max)) by (field; lra).
  reflexivity.
Qed.


(** *** The branch with a phase of constant acceleration *)



Lemma plateau_fail (a_max vs vt d : R) :
  0 < a_max -> vt <= vs ->
  (a_max * (a_max / j_max) + 2 * vs) ^ 2 < 8 * a_max * d ->
  calcVelocityEnd j_max a_max vs vt d = Fail SqrtOfNegative.
Proof.
  intros Ha Hv Hmax.
  rewrite calcVelocityEnd_eq by assumption. cbv zeta.
  rewrite signed_down by assumption.
  assert (0 < a_max / j_max) as Htc by now apply Rdiv_lt_0_compat.
  set (tc := a_max / j_max) in *.
  destruct (Rlt_dec _ d) as [_ | H].
  - unfold fsqrt. destruct (Rlt_dec _ 0) as [_ | H]; [reflexivity |].
    exfalso. apply H.
    replace (- a_max * tc * (- a_max * tc)
             - 4 * (- a_max * tc * vs - vs * vs - 2 * - a_max * d))
      with ((a_max * tc + 2 * vs) ^ 2 - 8 * a_max * d) by ring.
    lra.
  - exfalso. apply H.
    assert (0 <= (3 * (a_max * tc) - 2 * vs) ^ 2) by (apply pow2_ge_0).
    apply (Rmult_lt_reg_l (8 * a_max)); [lra |]. lra.
Qed.

(** The minimum distance in its two regimes. *)
Lemma minDistance_plateau (a_max vs ve : R) :
  0 < a_max -> a_max * (a_max / j_max) < Rabs (ve - vs) ->
  calcMinDistance j_max a_max vs ve =
  Ok ((vs + ve) / 2 * (Rabs (ve - vs) / a_max + a_max / j_max)).
Proof.
  intros Ha H.
  rewrite (AccelCurveDuration.calcMinDistance_closed j_max j_max_pos)
    by assumption.
  destruct (Rlt_dec _ _) as [_ | N]; [reflexivity |].
  exfalso. apply N.
  apply (Rmult_lt_reg_l a_max); [assumption |].
  replace (a_max * (Rabs (ve - vs) / a_max)) with (Rabs (ve - vs))
    by (field; lra).
  assumption.
Qed.




(** *** The branch without a phase of constant acceleration *)




Lemma cbrt_0 : cbrt 0 = 0.
Proof.
  unfold cbrt. destruct (Rlt_dec 0 0); [lra |]. reflexivity.
Qed.

(** From rest the cubic branch divides zero by zero when the right-hand
    side of the equation is not positive. *)
Lemma cubic_fail (a_max vt d : R) :
  0 < a_max ->
  let tc := a_max / j_max in
  let am := signed a_max 0 vt in
  d <= am * tc * tc ->
  am * d * d <= 0 ->
  calcVelocityEnd j_max a_max 0 vt d = Fail DivByZero.
Proof.
  intros Ha tc am Hd Hb.
  assert (0 < tc) as Htc by now apply Rdiv_lt_0_compat.
  rewrite calcVelocityEnd_eq by assumption. cbv zeta.
  fold tc. fold am.
  destruct (Rlt_dec _ d) as [| _]; [lra |].
  set (b := am * d * d / tc).
  assert (b <= 0) as Hb0.
  { unfold b, Rdiv. replace 0 with (0 * / tc) by ring.
    apply Rmult_le_compat_r; [| assumption].
    left. now apply Rinv_0_lt_compat. }
  replace (27 * (32 * (0 * 0 * 0) * b + 27 * b * b))
    with ((- (27 * b)) * (- (27 * b))) by ring.
  destruct (Rle_dec 0 _) as [H0 | N];
    [| exfalso; apply N; nra].
  rewrite fsqrt_ok by assumption. cbn [rbind].
  rewrite sqrt_square by lra.
  replace ((- (27 * b) + (16 * (0 * 0 * 0) + 27 * b)) / 2) with 0 by field.
  rewrite cbrt_0. now rewrite fdiv_zero.
Qed.



Lemma sq_nonneg (x : R) : 0 <= x * x.
Proof. apply Rle_0_sqr. Qed.






Lemma cube_inj (p q : R) : p * p * p = q * q * q -> p = q.
Proof.
  intro H.
  destruct (Req_dec_T p q) as [| Hne]; [assumption |]. exfalso.
  assert (0 < p * p + p * q + q * q) as Hpos.
  { pose proof (sq_nonneg (p + q)). pose proof (sq_nonneg p).
    pose proof (sq_nonneg q).
    destruct (Req_dec_T p 0) as [-> | Hp].
    - assert (q <> 0) as Hq by (intro; apply Hne; lra).
      assert (0 < q * q) by (apply Rsqr_pos_lt in Hq; exact Hq). lra.
    - assert (0 < p * p) by (apply Rsqr_pos_lt in Hp; exact Hp). lra. }
  assert ((p - q) * (p * p + p * q + q * q) = 0) as Hz by lra.
  apply Rmult_integral in Hz as [Hz | Hz]; [apply Hne | ]; lra.
Qed.

Lemma cbrt_of_cube (x : R) : cbrt (x * x * x) = x.
Proof. apply cube_inj. apply cbrt_cube. Qed.





(** X10.  Where [calcVelocityEnd] leaves the reals, with [a_max > 0] and
    [u = a_max^2 / j_max].  Slowing down over more than
    [(u + 2 vs)^2 / (8 a_max)] it takes the square root of a negative
    number.  From rest towards a positive target velocity over the
    distance zero it divides zero by zero. *)
Theorem calcVelocityEnd_faults (a_max vs vt d : R) :
  0 < a_max ->
  (vt <= vs ->
   (a_max * (a_max / j_max) + 2 * vs) ^ 2 < 8 * a_max * d ->
   calcVelocityEnd j_max a_max vs vt d = Fail SqrtOfNegative) /\
  (0 < vt -> calcVelocityEnd j_max a_max 0 vt 0 = Fail DivByZero).
Proof.
  intro Ha.
  assert (0 < a_max / j_max) as Htc by now apply Rdiv_lt_0_compat.
  split.
  - intros Hv Hmax. now apply plateau_fail.
  - intro Hvt. apply cubic_fail; try assumption.
    + rewrite signed_up by lra.
      assert (0 < a_max * (a_max / j_max) * (a_max / j_max))
        by (apply Rmult_lt_0_compat; [apply Rmult_lt_0_compat |];
            assumption).
      lra.
    + lra.
Qed.

End Jerk.



Lemma calcVelocityEnd_faults_witness :
  0 < j_max /\ 0 < 3600 /\
  calcVelocityEnd j_max 3600 720 0 1000 = Fail SqrtOfNegative /\
  calcVelocityEnd j_max 3600 0 720 0 = Fail DivByZero.
Proof.
  assert (0 < 3600) as Ha by lra.
  split; [exact header_j_max_pos | split; [exact Ha |]].
  split.
  - apply (calcVelocityEnd_faults j_max header_j_max_pos 3600 720 0 1000 Ha).
    + lra.
    + unfold j_max. lra.
  - apply (calcVelocityEnd_faults j_max header_j_max_pos 3600 0 720 0 Ha).
    lra.
Defined.

End AccelCurveEndVelocity.

(** ** The peak velocity for a distance: [calcVelocityMax] *)

Module AccelCurvePeakVelocity.
Import AccelCurve.

Section Jerk.

Variable j_max : R.
Hypothesis j_max_pos : 0 < j_max.

(** When the value returned lies above both velocities by more than
    [a_max * tc], so that both curves have a plateau, the distance of
    accelerating to it and of decelerating from it is the given one. *)
Lemma calcVelocityMax_round_trip (a_max vs ve d vm : R) (log : list diag) :
  0 < a_max ->
  calcVelocityMax j_max a_max vs ve d = Ok (vm, log) ->
  vs + a_max * (a_max / j_max) < vm ->
  ve + a_max * (a_max / j_max) < vm ->
  log = [] /\
  exists d1 d2,
    calcMinDistance j_max a_max vs vm = Ok d1 /\
    calcMinDistance j_max a_max vm ve = Ok d2 /\
    d1 + d2 = d.
Proof.
  intros Ha E Hs He.
  destruct (AccelCurveFacts.calcTimeCurve_pos j_max j_max_pos a_max Ha)
    as [Etc Htc].
  unfold calcVelocityMax in E. rewrite Etc in *.
  set (tc := a_max / j_max) in *.
  assert (0 < a_max * tc) as Hu by now apply Rmult_lt_0_compat.
  cbv zeta in E.
  destruct (Rlt_dec _ 0) as [Hneg | Hpos].
  - exfalso. cbn [mbind cerr mret app] in E. injection E as <- _. lra.
  - rewrite fsqrt_ok in E by lra. cbn [mbind lift mret app] in E.
    injection E as <- <-.
    set (D := a_max * tc * (a_max * tc) - 2 * (vs + ve) * (a_max * tc)
              + 4 * a_max * d + 2 * (vs * vs + ve * ve)) in *.
    assert (0 <= D) as HD by lra.
    pose proof (sqrt_sqrt D HD) as Hss.
    set (s := sqrt D) in *.
    set (vm := (- (a_max * tc) + s) / 2) in *.
    split; [reflexivity |].
    rewrite !(AccelCurveEndVelocity.minDistance_plateau j_max j_max_pos)
      by (try assumption; first [rewrite Rabs_pos_eq by lra
                                | rewrite Rabs_left by lra]; fold tc; lra).
    eexists _, _. split; [reflexivity |]. split; [reflexivity |].
    rewrite Rabs_pos_eq, Rabs_left by lra. fold tc.
    assert (s = 2 * vm + a_max * tc) as Es by (unfold vm; field).
    rewrite Es in Hss. unfold D in Hss.
    apply (Rmult_eq_reg_l (2 * a_max)); [| lra].
    transitivity (2 * (vm * vm) + 2 * (a_max * tc) * vm
                  + (vs + ve) * (a_max * tc) - vs * vs - ve * ve);
      [field; lra | lra].
Qed.

(** The same from the inputs alone: the discriminant [D] above
    [(2 vs + 3 u)^2] and [(2 ve + 3 u)^2] puts the value returned more than
    [u] above both velocities. *)
Lemma calcVelocityMax_round_trip_pre (a_max vs ve d : R) :
  0 < a_max ->
  let u := a_max * (a_max / j_max) in
  let D := u * u - 2 * (vs + ve) * u + 4 * a_max * d
           + 2 * (vs * vs + ve * ve) in
  (2 * vs + 3 * u) * (2 * vs + 3 * u) < D ->
  (2 * ve + 3 * u) * (2 * ve + 3 * u) < D ->
  exists vm d1 d2,
    calcVelocityMax j_max a_max vs ve d = Ok (vm, []) /\
    vm = (- u + sqrt D) / 2 /\
    vs + u < vm /\ ve + u < vm /\
    calcMinDistance j_max a_max vs vm = Ok d1 /\
    calcMinDistance j_max a_max vm ve = Ok d2 /\
    d1 + d2 = d.
Proof.
  intros Ha u D Hs He.
  destruct (AccelCurveFacts.calcTimeCurve_pos j_max j_max_pos a_max Ha)
    as [Etc Htc].
  assert (0 <= D) as HD.
  { pose proof (Rle_0_sqr (2 * vs + 3 * u)) as H. unfold Rsqr in H. lra. }
  assert (calcVelocityMax j_max a_max vs ve d
          = Ok ((- u + sqrt D) / 2, [])) as E.
  { unfold calcVelocityMax. cbv zeta. rewrite Etc. fold u. fold D.
    destruct (Rlt_dec D 0) as [| _]; [lra |].
    rewrite fsqrt_ok by assumption. reflexivity. }
  pose proof (sqrt_pos D) as Hs0. pose proof (sqrt_sqrt D HD) as Hss.
  set (s := sqrt D) in *.
  assert (2 * vs + 3 * u < s) as Hs' by nra.
  assert (2 * ve + 3 * u < s) as He' by nra.
  destruct (calcVelocityMax_round_trip a_max vs ve d _ _ Ha E)
    as (_ & d1 & d2 & E1 & E2 & Hsum); fold u; try lra.
  exists ((- u + s) / 2), d1, d2.
  repeat split; try assumption; try reflexivity; lra.
Qed.

(** X12.  [calcVelocityMax] undoes the two minimum distances.  With
    [a_max > 0], [u = a_max^2 / j_max] and the discriminant [D] of the
    function larger than both [(2 vs + 3 u)^2] and [(2 ve + 3 u)^2], the
    value [vm] returned lies more than [u] above [vs] and above [ve], and
    the minimum distances from [vs] up to [vm] and from [vm] down to [ve]
    add up to the given distance. *)
Theorem calcVelocityMax_inverts (a_max vs ve d : R) :
  0 < a_max ->
  let u := a_max * (a_max / j_max) in
  let D := u * u - 2 * (vs + ve) * u + 4 * a_max * d
           + 2 * (vs * vs + ve * ve) in
  (2 * vs + 3 * u) * (2 * vs + 3 * u) < D ->
  (2 * ve + 3 * u) * (2 * ve + 3 * u) < D ->
  exists vm d1 d2,
    calcVelocityMax j_max a_max vs ve d = Ok (vm, []) /\
    vs + u < vm /\ ve + u < vm /\
    calcMinDistance j_max a_max vs vm = Ok d1 /\
    calcMinDistance j_max a_max vm ve = Ok d2 /\
    d1 + d2 = d.
Proof.
  intros Ha u D Hs He.
  destruct (calcVelocityMax_round_trip_pre a_max vs ve d Ha Hs He)
    as (vm & d1 & d2 & E & _ & H).
  exists vm, d1, d2. split; assumption.
Qed.

End Jerk.

Lemma calcVelocityMax_inverts_witness :
  0 < j_max /\ 0 < 3600 /\
  exists vm d1 d2,
    calcVelocityMax j_max 3600 0 0 1000 = Ok (vm, []) /\
    0 + 3600 * (3600 / j_max) < vm /\ 0 + 3600 * (3600 / j_max) < vm /\
    calcMinDistance j_max 3600 0 vm = Ok d1 /\
    calcMinDistance j_max 3600 vm 0 = Ok d2 /\
    d1 + d2 = 1000.
Proof.
  assert (0 < 3600) as Ha by lra.
  split; [exact header_j_max_pos | split; [exact Ha |]].
  apply (calcVelocityMax_inverts j_max header_j_max_pos 3600 0 0 1000 Ha);
    unfold j_max; lra.
Defined.

End AccelCurvePeakVelocity.

(** ** The profile built by [AccelDesigner::reset] *)

Lemma fmax_le (a b c : R) : a <= c -> b <= c -> fmax a b <= c.
Proof. intros. unfold fmax. destruct (Rlt_dec a b); assumption. Qed.

Lemma fmin_le_r (a b : R) : fmin a b <= b.
Proof. unfold fmin. destruct (Rlt_dec b a); lra. Qed.

Lemma fmax3_le (a b c m : R) : a <= m -> b <= m -> c <= m -> fmax3 a b c <= m.
Proof. intros. unfold fmax3. repeat apply fmax_le; assumption. Qed.

Module AccelDesignerProfile.
Import AccelDesigner.

Section Jerk.

Variable j_max : R.
Hypothesis j_max_pos : 0 < j_max.

Lemma calcVelocityMax_log (a_max vs ve dist r : R) (l : list diag) :
  AccelCurve.calcVelocityMax j_max a_max vs ve dist = Ok (r, l) ->
  l = [] \/ l = [InfeasiblePeakVelocity].
Proof.
  unfold AccelCurve.calcVelocityMax. cbv zeta.
  destruct (Rlt_dec _ 0) as [| Hd].
  - cbn [mbind cerr mret app]. intro E. injection E as _ <-. now right.
  - rewrite fsqrt_ok by lra. cbn [mbind lift mret app].
    intro E. injection E as _ <-. now left.
Qed.

(** With [a_max > 0] and a distance that is not negative the discriminant
    of [calcVelocityMax] is a sum of squares: the error branch is not
    taken. *)
Lemma calcVelocityMax_quiet (a_max vs ve dist r : R) (l : list diag) :
  0 < a_max -> 0 <= dist ->
  AccelCurve.calcVelocityMax j_max a_max vs ve dist = Ok (r, l) ->
  l = [].
Proof.
  intros Ha Hd.
  unfold AccelCurve.calcVelocityMax. cbv zeta.
  set (u := a_max * AccelCurve.calcTimeCurve j_max a_max).
  destruct (Rlt_dec _ 0) as [Hneg | Hpos].
  - exfalso.
    pose proof (Rle_0_sqr (u - vs - ve)) as H1.
    pose proof (Rle_0_sqr (vs - ve)) as H2. unfold Rsqr in H1, H2.
    assert (0 <= a_max * dist) by (apply Rmult_le_pos; lra).
    lra.
  - rewrite fsqrt_ok by lra. cbn [mbind lift mret app].
    intro E. now injection E as _ <-.
Qed.

Lemma planned_nonneg (dist : R) : 0 <= planned dist.
Proof. unfold planned. destruct (Rle_dec dist 0); lra. Qed.

(** What the planning half establishes whenever it returns: the two
    curves, the order of the three velocities, the bound on the peak, and
    the diagnostics written. *)
Lemma plan_full (self : obj) (a_max vs vsat vt dist : R)
    (p : planning) (log : list diag) :
  plan j_max self a_max vs vsat vt dist = Ok (p, log) ->
  AccelCurve.make j_max a_max vs (p_v_max p) = Ok (p_ac p) /\
  AccelCurve.make j_max a_max (p_v_max p) (p_v_end p) = Ok (p_dc p) /\
  vs <= p_v_max p /\ p_v_end p <= p_v_max p /\
  p_v_max p <= fmax3 vs vsat (p_v_end p) /\
  p_distance p = planned dist /\
  exists l,
    (l = [] \/ l = [InfeasiblePeakVelocity]) /\
    (0 < a_max -> l = []) /\
    log = (if Rle_dec dist 0 then [NegativeDistance] else [])
          ++ l
          ++ (if Rlt_dec (planned dist + 0.1)
                   (AccelCurve.x_end (p_ac p) + AccelCurve.x_end (p_dc p))
              then [DistanceConstraint (planned dist)
                      (AccelCurve.x_end (p_ac p)
                       + AccelCurve.x_end (p_dc p))]
              else []).
Proof.
  unfold plan. intro H.
  apply mbind_ok in H as ([[vm0 ve0] dist'] & la & lb & E0 & H & ->).
  assert (dist' = planned dist /\ vs <= vm0 /\ ve0 <= vm0 /\
          vm0 <= fmax3 vs vsat ve0 /\
          la = if Rle_dec dist 0 then [NegativeDistance] else [])
    as (-> & Hs0 & He0 & Hm0 & ->).
  { unfold planned. destruct (Rle_dec dist 0).
    - cbn [mbind cerr mret app] in E0. injection E0 as <- <- <- <-.
      repeat split; try reflexivity; try lra. apply fmax3_ge_1.
    - apply mret_ok in E0 as [E0 ->]. injection E0 as <- <- <-.
      repeat split; try reflexivity; try lra.
      + apply fmax3_ge_1.
      + apply fmax3_ge_3. }
  clear E0.
  apply mbind_ok in H as (dmin & l1 & l2 & Emin & H & ->).
  apply lift_ok in Emin as [_ ->].
  apply mbind_ok in H as ([vm1 ve1] & l3 & l4 & Eve & H & ->).
  assert (vs <= vm1 /\ ve1 <= vm1 /\ vm1 <= fmax3 vs vsat ve1 /\ l3 = [])
    as (Hs1 & He1 & Hm1 & ->).
  { destruct (Rlt_dec _ _).
    - apply mbind_ok in Eve as (ve & l5 & l6 & Ee & Eve & ->).
      apply lift_ok in Ee as [_ ->].
      apply mret_ok in Eve as [Eve ->]. injection Eve as <- <-.
      repeat split; try reflexivity.
      + apply fmax_ge_l.
      + apply fmax_ge_r.
      + apply fmax_le; [apply fmax3_ge_1 | apply fmax3_ge_3].
    - apply mret_ok in Eve as [Eve ->]. injection Eve as <- <-.
      repeat split; try assumption; reflexivity. }
  clear Eve.
  apply mbind_ok in H as (ac1 & l5 & l6 & Eac & H & ->).
  apply lift_ok in Eac as [Eac ->].
  apply mbind_ok in H as (dc1 & l7 & l8 & Edc & H & ->).
  apply lift_ok in Edc as [Edc ->].
  apply mbind_ok in H as ([[vm2 ac2] dc2] & l & l9 & Est & H & ->).
  assert (AccelCurve.make j_max a_max vs vm2 = Ok ac2 /\
          AccelCurve.make j_max a_max vm2 ve1 = Ok dc2 /\
          vs <= vm2 /\ ve1 <= vm2 /\ vm2 <= fmax3 vs vsat ve1 /\
          (l = [] \/ l = [InfeasiblePeakVelocity]) /\
          (0 < a_max -> l = []))
    as (Eac2 & Edc2 & Hs2 & He2 & Hm2 & Hl & Hq).
  { unfold AccelCurve.make.
    destruct (Rlt_dec _ _).
    - apply mbind_ok in Est as (vm & lv & l10 & Evm & Est & ->).
      pose proof (fun Ha => calcVelocityMax_quiet _ _ _ _ _ _ Ha
                          (planned_nonneg dist) Evm) as Hquiet.
      apply calcVelocityMax_log in Evm.
      apply mbind_ok in Est as (ac3 & l11 & l12 & Ea & Est & ->).
      apply lift_ok in Ea as [Ea ->].
      apply mbind_ok in Est as (dc3 & l13 & l14 & Ed & Est & ->).
      apply lift_ok in Ed as [Ed ->].
      apply mret_ok in Est as [Est ->]. injection Est as <- <- <-.
      rewrite <- Ea, <- Ed. cbn [app]. rewrite app_nil_r.
      repeat split; try (apply AccelCurveFacts.reset_prior; assumption);
        try assumption.
      + apply fmax3_ge_2.
      + apply fmax3_ge_3.
      + apply fmax3_le;
          [ pose proof (fmin_le_r vm vsat); pose proof (fmax3_ge_2 vs vsat ve1);
            lra
          | apply fmax3_ge_1 | apply fmax3_ge_3 ].
    - apply mret_ok in Est as [Est ->]. injection Est as <- <- <-.
      rewrite <- Eac, <- Edc.
      repeat split; try (apply AccelCurveFacts.reset_prior; assumption);
        try assumption.
      now left. }
  clear Est.
  apply mbind_ok in H as (u & lc & l10 & Eu & H & ->).
  apply mret_ok in H as [H ->]. subst p.
  cbn [p_v_max p_v_end p_ac p_dc p_distance].
  repeat split; try assumption.
  exists l. split; [assumption |]. split; [assumption |].
  cbn [app]. rewrite app_nil_r. f_equal. f_equal.
  destruct (Rlt_dec _ _).
  - unfold cerr in Eu. now injection Eu as _ <-.
  - now apply mret_ok in Eu as [_ ->].
Qed.

Lemma layout_log (p : planning) (xs ts : R) (d : obj) (log : list diag) :
  layout p xs ts = Ok (d, log) ->
  log = if time_points_ok (t0 d) (t1 d) (t2 d) (t3 d) 0.001 then []
        else [TimePoint].
Proof.
  unfold layout. intro H.
  apply mbind_ok in H as (q & l1 & l2 & Eq & H & ->).
  apply lift_ok in Eq as [Eq ->].
  apply mbind_ok in H as (u & l3 & l4 & Eu & H & ->).
  apply mret_ok in H as [H ->]. subst d. cbn [t0 t1 t2 t3 app].
  rewrite app_nil_r.
  destruct (time_points_ok _ _ _ _ _).
  - now apply mret_ok in Eu as [_ ->].
  - unfold cerr in Eu. now injection Eu as <-.
Qed.

(** Whenever [reset] returns: the two curves, the order of the three
    velocities, the members, and the diagnostics written. *)
Lemma reset_full (self : obj) (a_max vs vsat vt dist xs ts : R)
    (d : obj) (log : list diag) :
  reset j_max self a_max vs vsat vt dist xs ts = Ok (d, log) ->
  exists v_max v_end l,
    AccelCurve.make j_max a_max vs v_max = Ok (ac d) /\
    AccelCurve.make j_max a_max v_max v_end = Ok (dc d) /\
    vs <= v_max /\ v_end <= v_max /\ v_max <= fmax3 vs vsat v_end /\
    v_max <> 0 /\
    x0 d = xs /\ x3 d = xs + planned dist /\
    t0 d = ts /\ t1 d = ts + AccelCurve.t_end (ac d) /\
    t2 d = t1 d + (planned dist - AccelCurve.x_end (ac d)
                   - AccelCurve.x_end (dc d)) / v_max /\
    t3 d = t2 d + AccelCurve.t_end (dc d) /\
    (l = [] \/ l = [InfeasiblePeakVelocity]) /\
    (0 < a_max -> l = []) /\
    log = (if Rle_dec dist 0 then [NegativeDistance] else [])
          ++ l
          ++ (if Rlt_dec (planned dist + 0.1)
                   (AccelCurve.x_end (ac d) + AccelCurve.x_end (dc d))
              then [DistanceConstraint (planned dist)
                      (AccelCurve.x_end (ac d) + AccelCurve.x_end (dc d))]
              else [])
          ++ (if time_points_ok (t0 d) (t1 d) (t2 d) (t3 d) 0.001 then []
              else [TimePoint]).
Proof.
  unfold reset. intro H.
  apply mbind_ok in H as (p & l1 & l2 & Ep & H & ->).
  pose proof (layout_log _ _ _ _ _ H) as Hl2.
  apply plan_full in Ep as (Ea & Ed & Hs & He & Hm & Hd & l & Hl & Hq & ->).
  apply AccelDesignerFacts.layout_inv in H
    as (Hne & Hac & Hdc & Hx0 & Hx3 & Ht0 & Ht1 & Ht2 & Ht3).
  exists (p_v_max p), (p_v_end p), l.
  rewrite Hac, Hdc in *. rewrite <- Hd.
  repeat split; try assumption.
  - rewrite Ht2, Ht1. reflexivity.
  - rewrite Hl2, <- !app_assoc. reflexivity.
Qed.

(** The two curves of a profile, by their boundary values. *)
Lemma reset_curves (self : obj) (a_max vs vsat vt dist xs ts : R)
    (d : obj) (log : list diag) :
  reset j_max self a_max vs vsat vt dist xs ts = Ok (d, log) ->
  AccelCurve.make j_max a_max vs (AccelCurve.v_end (ac d)) = Ok (ac d) /\
  AccelCurve.make j_max a_max (AccelCurve.v_end (ac d))
    (AccelCurve.v_end (dc d)) = Ok (dc d) /\
  vs <= AccelCurve.v_end (ac d) /\
  AccelCurve.v_end (dc d) <= AccelCurve.v_end (ac d) /\
  AccelCurve.v_end (ac d) <= fmax3 vs vsat (AccelCurve.v_end (dc d)) /\
  AccelCurve.v_end (ac d) <> 0.
Proof.
  intro H.
  destruct (reset_full _ _ _ _ _ _ _ _ _ _ H)
    as (vm & ve & l & Ea & Ed & Hs & He & Hm & Hne & _).
  pose proof (AccelCurveFacts.reset_inv j_max j_max_pos _ _ _ _ _ Ea)
    as (_ & _ & _ & _ & _ & _ & _ & Hv3a & _).
  pose proof (AccelCurveFacts.reset_inv j_max j_max_pos _ _ _ _ _ Ed)
    as (_ & _ & _ & _ & _ & _ & _ & Hv3d & _).
  unfold AccelCurve.v_end. rewrite Hv3a, Hv3d.
  repeat split; assumption.
Qed.

(** The velocity of a profile stays between the smaller of the start and
    end velocities and the peak velocity. *)
Lemma velocity_envelope (self : obj) (a_max vs vsat vt dist xs ts : R)
    (d : obj) (log : list diag) :
  0 < a_max ->
  reset j_max self a_max vs vsat vt dist xs ts = Ok (d, log) ->
  forall t, Rmin vs (v_end d) <= v d t <= AccelCurve.v_end (ac d).
Proof.
  intros Ha H t.
  destruct (reset_curves _ _ _ _ _ _ _ _ _ _ H) as (Ea & Ed & Hs & He & _).
  unfold v_end, v. set (vm := AccelCurve.v_end (ac d)) in *.
  set (ve := AccelCurve.v_end (dc d)) in *.
  destruct (Rlt_dec t (t2 d)).
  - pose proof (AccelCurveMotion.v_between j_max j_max_pos _ _ _ _ _ Ha Ea
                  (t - t0 d)) as Hb.
    rewrite Rmin_left, Rmax_right in Hb by assumption.
    pose proof (Rmin_l vs ve). lra.
  - pose proof (AccelCurveMotion.v_between j_max j_max_pos _ _ _ _ _ Ha Ed
                  (t - t2 d)) as Hb.
    rewrite Rmin_right, Rmax_left in Hb by assumption.
    pose proof (Rmin_r vs ve). lra.
Qed.




Lemma time_points_ok_iff (p0 p1 p2 p3 e : R) :
  time_points_ok p0 p1 p2 p3 e = true <->
  p0 <= p1 + e /\ p1 <= p2 + e /\ p2 <= p3 + e.
Proof.
  unfold time_points_ok.
  destruct (Rle_dec p0 (p1 + e)); destruct (Rle_dec p1 (p2 + e));
    destruct (Rle_dec p2 (p3 + e)); split; intro H;
    try discriminate; try reflexivity; try tauto.
Qed.

(** The diagnostics of a [reset] that returns, one by one. *)
Lemma reset_diagnostics (self : obj) (a_max vs vsat vt dist xs ts : R)
    (d : obj) (log : list diag) :
  reset j_max self a_max vs vsat vt dist xs ts = Ok (d, log) ->
  (In NegativeDistance log <-> dist <= 0) /\
  (In TimePoint log <-> t2 d + 0.001 < t1 d) /\
  (forall p q,
     In (DistanceConstraint p q) log <->
     p = planned dist /\
     q = AccelCurve.x_end (ac d) + AccelCurve.x_end (dc d) /\
     planned dist + 0.1 < q).
Proof.
  intro H.
  destruct (reset_full _ _ _ _ _ _ _ _ _ _ H)
    as (vm & ve & l & Ea & Ed & Hs & He & Hm & Hne & Hx0 & Hx3 & Ht0 & Ht1
        & Ht2 & Ht3 & Hl & Hq & ->).
  pose proof (AccelCurveFacts.reset_inv j_max j_max_pos _ _ _ _ _ Ea)
    as (_ & _ & A0 & A1 & A2 & A3 & _).
  pose proof (AccelCurveFacts.reset_inv j_max j_max_pos _ _ _ _ _ Ed)
    as (_ & _ & D0 & D1 & D2 & D3 & _).
  assert (time_points_ok (t0 d) (t1 d) (t2 d) (t3 d) 0.001 = true
          <-> t1 d <= t2 d + 0.001) as Htp.
  { rewrite time_points_ok_iff. unfold AccelCurve.t_end in *. lra. }
  split; [| split].
  - rewrite !in_app_iff.
    destruct (Rle_dec dist 0); destruct (Rlt_dec _ _);
      destruct (time_points_ok _ _ _ _ _); destruct Hl as [-> | ->];
      simpl; split; intro; try assumption; try tauto;
      repeat match goal with
             | K : _ \/ _ |- _ => destruct K
             | K : False |- _ => destruct K
             | K : _ = NegativeDistance |- _ => discriminate K
             end.
  - rewrite !in_app_iff.
    destruct (time_points_ok _ _ _ _ _) eqn:Etp.
    + assert (t1 d <= t2 d + 0.001) by now apply Htp.
      destruct (Rle_dec dist 0); destruct (Rlt_dec _ _);
        destruct Hl as [-> | ->]; simpl; split; intro K; try lra;
        repeat match goal with
               | K : _ \/ _ |- _ => destruct K
               | K : False |- _ => destruct K
               | K : _ = TimePoint |- _ => discriminate K
               end.
    + assert (~ t1 d <= t2 d + 0.001) as N
        by (intro K; apply Htp in K; discriminate).
      split; intro; [lra |]. right. right. right. now left.
  - intros p q. rewrite !in_app_iff.
    destruct (Rlt_dec _ _) as [Y | N].
    + split.
      * intro K.
        assert (DistanceConstraint (planned dist)
                  (AccelCurve.x_end (ac d) + AccelCurve.x_end (dc d))
                = DistanceConstraint p q) as Eq.
        { destruct (Rle_dec dist 0); destruct (time_points_ok _ _ _ _ _);
            destruct Hl as [-> | ->]; simpl in K;
            repeat match goal with
                   | K : _ \/ _ |- _ => destruct K
                   | K : False |- _ => destruct K
                   end;
            first [assumption | discriminate]. }
        injection Eq as <- <-. repeat split; assumption.
      * intros (-> & -> & _). right. right. left. now left.
    + split.
      * intro K. exfalso.
        destruct (Rle_dec dist 0); destruct (time_points_ok _ _ _ _ _);
          destruct Hl as [-> | ->]; simpl in K;
          repeat match goal with
                 | K : _ \/ _ |- _ => destruct K
                 | K : False |- _ => destruct K
                 end;
          discriminate.
      * intros (-> & -> & K). lra.
Qed.




Lemma mbind_ext {A B : Type} (m : M A) (k k' : A -> M B) :
  (forall a, k a = k' a) -> mbind m k = mbind m k'.
Proof.
  intro H. unfold mbind. destruct m as [[a l] |]; [| reflexivity].
  now rewrite H.
Qed.

Lemma plan_prior (self self' : obj) (a_max vs vsat vt dist : R) :
  plan j_max self a_max vs vsat vt dist
  = plan j_max self' a_max vs vsat vt dist.
Proof.
  unfold plan.
  apply mbind_ext; intros [[vm0 ve0] dist'].
  apply mbind_ext; intro dmin.
  apply mbind_ext; intros [vm1 ve1].
  rewrite (AccelCurveFacts.reset_prior j_max j_max_pos (ac self) (ac self')).
  apply mbind_ext; intro ac1.
  rewrite (AccelCurveFacts.reset_prior j_max j_max_pos (dc self) (dc self')).
  reflexivity.
Qed.

(** [reset] assigns every member: the profile does not depend on the
    object it is called on. *)
Lemma designer_reset_prior (self self' : obj)
    (a_max vs vsat vt dist xs ts : R) :
  reset j_max self a_max vs vsat vt dist xs ts
  = reset j_max self' a_max vs vsat vt dist xs ts.
Proof.
  unfold reset. rewrite (plan_prior self self'). reflexivity.
Qed.

(** X14.  Whenever [reset] returns, with [a_max > 0]: the peak velocity,
    the end velocity of the acceleration curve, is at least the start
    velocity and the end velocity of the profile, and at most the largest
    of the start velocity, the saturation velocity and the end velocity of
    the profile; and at every instant the velocity lies between the
    smaller of the start and end velocities and the peak velocity. *)
Theorem profile_velocity_envelope (self : obj)
    (a_max vs vsat vt dist xs ts : R) (d : obj) (log : list diag) :
  0 < a_max ->
  reset j_max self a_max vs vsat vt dist xs ts = Ok (d, log) ->
  vs <= AccelCurve.v_end (ac d) /\
  v_end d <= AccelCurve.v_end (ac d) /\
  AccelCurve.v_end (ac d) <= fmax3 vs vsat (v_end d) /\
  forall t, Rmin vs (v_end d) <= v d t <= AccelCurve.v_end (ac d).
Proof.
  intros Ha H.
  destruct (reset_curves _ _ _ _ _ _ _ _ _ _ H) as (_ & _ & Hs & He & Hm & _).
  unfold v_end at 1 2.
  repeat (split; [assumption |]).
  now apply (velocity_envelope self a_max vs vsat vt dist xs ts d log).
Qed.



(** X17.  The diagnostics of a [reset] that returns.  The warning for the
    distance is written exactly when the distance is not positive; the
    time point error exactly when [t2] lies more than [0.001] before [t1];
    the distance constraint error exactly when the distances of the two
    curves add up to more than the planned distance plus [0.1], and then
    with these two numbers. *)
Theorem profile_diagnostics (self : obj)
    (a_max vs vsat vt dist xs ts : R) (d : obj) (log : list diag) :
  reset j_max self a_max vs vsat vt dist xs ts = Ok (d, log) ->
  (In NegativeDistance log <-> dist <= 0) /\
  (In TimePoint log <-> t2 d + 0.001 < t1 d) /\
  (forall p q,
     In (DistanceConstraint p q) log <->
     p = planned dist /\
     q = AccelCurve.x_end (ac d) + AccelCurve.x_end (dc d) /\
     planned dist + 0.1 < q).
Proof.
  intro H.
  now apply (reset_diagnostics self a_max vs vsat vt dist xs ts d log).
Qed.


(** X19.  [reset] assigns every member it later reads, in both classes:
    the result does not depend on the object it is called on, so a second
    [reset] with the same arguments gives the same profile again. *)
Theorem reset_discards_state :
  (forall (c c' : AccelCurve.obj) (a_max vs ve : R),
     AccelCurve.reset j_max c a_max vs ve
     = AccelCurve.reset j_max c' a_max vs ve) /\
  (forall (self self' : obj) (a_max vs vsat vt dist xs ts : R),
     reset j_max self a_max vs vsat vt dist xs ts
     = reset j_max self' a_max vs vsat vt dist xs ts) /\
  (forall (self : obj) (a_max vs vsat vt dist xs ts : R) (d : obj)
          (log : list diag),
     reset j_max self a_max vs vsat vt dist xs ts = Ok (d, log) ->
     reset j_max d a_max vs vsat vt dist xs ts = Ok (d, log)).
Proof.
  split; [| split].
  - intros. now apply AccelCurveFacts.reset_prior.
  - intros. apply designer_reset_prior.
  - intros self a_max vs vsat vt dist xs ts d log H.
    now rewrite (designer_reset_prior d self).
Qed.






End Jerk.

(** *** Concrete runs *)

Lemma profile_velocity_envelope_witness :
  0 < 240000 /\ 0 < 3600 /\
  reset 240000 empty 3600 720 720 0 90 0 0 = Ok (scenario, []) /\
  720 <= AccelCurve.v_end (ac scenario) /\
  v_end scenario <= AccelCurve.v_end (ac scenario) /\
  AccelCurve.v_end (ac scenario) <= fmax3 720 720 (v_end scenario) /\
  forall t,
    Rmin 720 (v_end scenario) <= v scenario t
    <= AccelCurve.v_end (ac scenario).
Proof.
  assert (0 < 240000) as Hj by lra.
  assert (0 < 3600) as Ha by lra.
  split; [exact Hj | split; [exact Ha |]].
  split; [exact (AccelDesignerFacts.scenario_reset empty) |].
  exact (profile_velocity_envelope 240000 Hj empty 3600 720 720 0 90 0 0
           scenario [] Ha (AccelDesignerFacts.scenario_reset empty)).
Defined.



Lemma profile_diagnostics_witness :
  0 < 240000 /\
  reset 240000 empty 3600 720 720 0 90 0 0 = Ok (scenario, []) /\
  (In NegativeDistance [] <-> 90 <= 0) /\
  (In TimePoint [] <-> t2 scenario + 0.001 < t1 scenario) /\
  (forall p q,
     In (DistanceConstraint p q) [] <->
     p = planned 90 /\
     q = AccelCurve.x_end (ac scenario) + AccelCurve.x_end (dc scenario) /\
     planned 90 + 0.1 < q).
Proof.
  assert (0 < 240000) as Hj by lra.
  split; [exact Hj |].
  split; [exact (AccelDesignerFacts.scenario_reset empty) |].
  exact (profile_diagnostics 240000 Hj empty 3600 720 720 0 90 0 0
           scenario [] (AccelDesignerFacts.scenario_reset empty)).
Defined.


Lemma reset_discards_state_witness :
  0 < AccelCurve.j_max /\
  (forall (c c' : AccelCurve.obj) (a_max vs ve : R),
     AccelCurve.reset AccelCurve.j_max c a_max vs ve
     = AccelCurve.reset AccelCurve.j_max c' a_max vs ve) /\
  (forall (self self' : obj) (a_max vs vsat vt dist xs ts : R),
     reset AccelCurve.j_max self a_max vs vsat vt dist xs ts
     = reset AccelCurve.j_max self' a_max vs vsat vt dist xs ts) /\
  (forall (self : obj) (a_max vs vsat vt dist xs ts : R) (d : obj)
          (log : list diag),
     reset AccelCurve.j_max self a_max vs vsat vt dist xs ts = Ok (d, log) ->
     reset AccelCurve.j_max d a_max vs vsat vt dist xs ts = Ok (d, log)).
Proof.
  split; [exact header_j_max_pos |].
  exact (reset_discards_state AccelCurve.j_max header_j_max_pos).
Defined.







End AccelDesignerProfile.

(** ** Tabulation: [printCsv] *)

Module PrintCsvFacts.

(** With a step that is not positive the loop never leaves an instant
    below [t_end]: no amount of fuel gives a result. *)
Lemma printCsv_loop_diverges (j_max : R) (d : AccelDesigner.obj) (step : R)
    (fuel : nat) :
  step <= 0 ->
  forall t, t < AccelDesigner.t_end d ->
    printCsv_loop j_max d step fuel t = None.
Proof.
  intro Hstep. induction fuel as [| fuel IH]; intros t Ht.
  - reflexivity.
  - cbn [printCsv_loop].
    destruct (Rlt_dec t (AccelDesigner.t_end d)) as [_ |]; [| lra].
    rewrite IH by lra. reflexivity.
Qed.

(** X26.  [printCsv] with a step that is zero or negative, on a profile
    whose end instant lies after its start instant, never comes to an end:
    no amount of fuel gives a result. *)
Theorem printCsv_diverges (j_max : R) (d : AccelDesigner.obj) (step : R) :
  step <= 0 ->
  AccelDesigner.t0 d < AccelDesigner.t_end d ->
  forall fuel : nat, printCsv j_max d step fuel = None.
Proof.
  intros Hstep Ht fuel. unfold printCsv.
  now apply printCsv_loop_diverges.
Qed.

Lemma printCsv_diverges_witness :
  0 <= 0 /\
  AccelDesigner.t0 scenario < AccelDesigner.t_end scenario /\
  forall fuel : nat, printCsv 240000 scenario 0 fuel = None.
Proof.
  assert (0 <= 0) as Hstep by lra.
  assert (AccelDesigner.t0 scenario < AccelDesigner.t_end scenario) as Ht
    by (unfold AccelDesigner.t_end, scenario;
        cbn [AccelDesigner.t0 AccelDesigner.t3]; lra).
  split; [exact Hstep | split; [exact Ht |]].
  exact (printCsv_diverges 240000 scenario 0 Hstep Ht).
Defined.

End PrintCsvFacts.
